(** * Context-Based-File-Search: hybrid search engine, checked against its code

    A shallow embedding of the Python sources under [src/search]:
    - [ids.py] and [storage.py]  (identity of files and chunks, the catalog),
    - [snippets.py]              (snippet window around the best match),
    - [retriever.py]             (normalisation, fusion, dedupe by file),
    - [api.py]                   (cache, pagination, response envelope),
    - [indexer.py]               (chunker, per-file ingestion, BFS frontier).

    Conventions of the embedding.
    - Python [int] is [Z]; Python [float] scores are exact rationals [Q]
      (the arithmetic of the source is kept expression by expression,
      rounding is not modelled).
    - Python [str] is [string]; characters are 8-bit, [lower] and the
      whitespace test follow Python on the ASCII range.
    - A [dict] whose iteration order matters is an association list in
      insertion order; a [dict] used only by key is a [gmap].
    - Code that can raise or loop returns an [outcome]; [try/except] is
      [catch]. *)

From Stdlib Require Import ZArith QArith Lia Lqa Ascii String List Permutation.
From stdpp Require Import gmap strings list fin_maps.

Local Open Scope string_scope.
Local Open Scope list_scope.
Local Open Scope Z_scope.

(** ** Python primitives used by the sources *)

Module Py.

(** [len(s)] *)
Definition len (s : string) : Z := Z.of_nat (String.length s).

(** An index of a slice, clamped as CPython's [PySlice_AdjustIndices]
    does for step 1: negative indices count from the end. *)
Definition clamp (n i : Z) : Z :=
  if i <? 0 then Z.max 0 (n + i) else Z.min i n.

(** [s[lo:hi]] on strings. *)
Definition str_slice (s : string) (lo hi : Z) : string :=
  let n := len s in
  let a := clamp n lo in
  let b := clamp n hi in
  substring (Z.to_nat a) (Z.to_nat (b - a)) s.

(** [s[:hi]] *)
Definition str_upto (s : string) (hi : Z) : string := str_slice s 0 hi.

(** [l[lo:hi]] on lists. *)
Definition slice {A} (l : list A) (lo hi : Z) : list A :=
  let n := Z.of_nat (length l) in
  let a := clamp n lo in
  let b := clamp n hi in
  take (Z.to_nat (b - a)) (drop (Z.to_nat a) l).

(** [c.isspace()] on the ASCII range: TAB, LF, VT, FF, CR, FS, GS, RS, US
    and the blank. *)
Definition is_space (c : ascii) : bool :=
  let n := nat_of_ascii c in
  ((9 <=? n)%nat && (n <=? 13)%nat) || ((28 <=? n)%nat && (n <=? 32)%nat).

(** [c.lower()] on the ASCII range. *)
Definition lower_char (c : ascii) : ascii :=
  let n := nat_of_ascii c in
  if ((65 <=? n)%nat && (n <=? 90)%nat) then ascii_of_nat (n + 32) else c.

(** [s.lower()] on a string of the ASCII range.  Code points outside
    it, where [str.lower()] can change the length of the string, are not
    modelled: a statement that uses the length of a lowered string
    assumes the ASCII range. *)
Fixpoint lower (s : string) : string :=
  match s with
  | EmptyString => EmptyString
  | String c s' => String (lower_char c) (lower s')
  end.

(** [s.lstrip()], [s.rstrip()], [s.strip()] *)
Fixpoint lstrip (s : string) : string :=
  match s with
  | EmptyString => EmptyString
  | String c s' => if is_space c then lstrip s' else s
  end.

Fixpoint rstrip (s : string) : string :=
  match s with
  | EmptyString => EmptyString
  | String c s' =>
      match rstrip s' with
      | EmptyString => if is_space c then EmptyString else String c EmptyString
      | r => String c r
      end
  end.

Definition strip (s : string) : string := lstrip (rstrip s).

(** [s.split()]: the maximal runs of non-whitespace characters. *)
Fixpoint split_from (s cur : string) : list string :=
  match s with
  | EmptyString => match cur with EmptyString => [] | _ => [cur] end
  | String c s' =>
      if is_space c
      then match cur with
           | EmptyString => split_from s' EmptyString
           | _ => cur :: split_from s' EmptyString
           end
      else split_from s' (cur +:+ String c EmptyString)
  end.

Definition split (s : string) : list string := split_from s EmptyString.

(** [sep.join(ws)] *)
Fixpoint join (sep : string) (ws : list string) : string :=
  match ws with
  | [] => EmptyString
  | [w] => w
  | w :: ws' => w +:+ sep +:+ join sep ws'
  end.

(** [s.find(sub)]: the lowest index at which [sub] starts, or -1. *)
Fixpoint find_at (sub s : string) (i : nat) : option nat :=
  if String.prefix sub s then Some i
  else match s with
       | EmptyString => None
       | String _ s' => find_at sub s' (S i)
       end.

Definition find (s sub : string) : Z :=
  match find_at sub s 0 with
  | Some i => Z.of_nat i
  | None => -1
  end.

(** [sub in s] *)
Definition contains (s sub : string) : bool :=
  match find_at sub s 0 with Some _ => true | None => false end.

(** Truthiness of a string: [not s] is [negb (truthy s)]. *)
Definition truthy (s : string) : bool :=
  match s with EmptyString => false | _ => true end.

(** [str(n)] for an [int]. *)
Fixpoint dec_digits (fuel : nat) (n : Z) (acc : string) : string :=
  match fuel with
  | O => acc
  | S fuel' =>
      let d := ascii_of_nat (48 + Z.to_nat (n mod 10)) in
      if n <? 10 then String d acc
      else dec_digits fuel' (n / 10) (String d acc)
  end.

Definition str_of_int (n : Z) : string :=
  if n <? 0
  then String "-"%char (dec_digits (S (Z.to_nat (Z.log2 (- n)))) (- n) EmptyString)
  else dec_digits (S (Z.to_nat (Z.log2 n))) n EmptyString.

(** [sub] occurs in [s] as a contiguous block. *)
Definition occurs (sub s : string) : Prop :=
  exists pre post, s = pre +:+ sub +:+ post.

End Py.

(** ** Outcomes of code that can raise or loop

    [Ok a] is a normal return, [Raise e] a Python exception that
    propagates, [Diverge] a loop that never ends.  [catch] is
    [try: ... except Exception as e: ...]; it does not stop a
    divergence. *)

Inductive outcome (A : Type) : Type :=
| Ok (a : A)
| Raise (e : string)
| Diverge.
Arguments Ok {A} a.
Arguments Raise {A} e.
Arguments Diverge {A}.

#[global] Instance outcome_ret : MRet outcome := fun _ a => Ok a.
#[global] Instance outcome_bind : MBind outcome := fun _ _ f m =>
  match m with
  | Ok a => f a
  | Raise e => Raise e
  | Diverge => Diverge
  end.

Definition catch {A} (body : outcome A) (handler : string -> outcome A) : outcome A :=
  match body with
  | Raise e => handler e
  | other => other
  end.

(** Iterate an effectful body over a list, left to right, threading a
    state: the shape of [for x in xs: ...]. *)
Fixpoint for_each {A S} (xs : list A) (body : A -> S -> outcome S) (s : S) : outcome S :=
  match xs with
  | [] => Ok s
  | x :: xs' => s' ← body x s; for_each xs' body s'
  end.

(** ** External collaborators

    Hash functions of [hashlib] and [uuid] are parameters of the
    development: [sha1_hex] and [sha256_hex] map the encoded text to the
    hex digest, [uuid5_dns] is [str(uuid.uuid5(uuid.NAMESPACE_DNS, s))],
    [md5_hex] the hex MD5 digest. *)

Record Hashes := {
  sha1_hex : string -> string;
  sha256_hex : string -> string;
  uuid5_dns : string -> string;
  md5_hex : string -> string
}.

(** ** ids.py *)

Module ids.
Section WithHashes.
Variable H : Hashes.

(** [file_id(path, mtime, size)]: SHA-1 of the f-string
    [f"{path}|{mtime}|{size}"]. *)
Definition file_id (path : string) (mtime size : Z) : string :=
  let content := path +:+ "|" +:+ Py.str_of_int mtime +:+ "|" +:+ Py.str_of_int size in
  sha1_hex H content.

(** [chunk_id(file_id, idx)]: UUIDv5 of [f"{file_id}_{idx}"]. *)
Definition chunk_id (file_id : string) (idx : Z) : string :=
  let content := file_id +:+ "_" +:+ Py.str_of_int idx in
  uuid5_dns H content.

End WithHashes.
End ids.

(** ** snippets.py *)

Module snippets.

(** [_find_best_match(text, query)] *)
Definition _find_best_match (text query : string) : Z :=
  let text_lower := Py.lower text in
  let query_lower := Py.lower query in
  let pos := Py.find text_lower query_lower in
  if negb (pos =? -1) then pos
  else
    let query_words := Py.split query_lower in
    match query_words with
    | [] => -1
    | _ =>
        let earliest_pos :=
          fold_left (fun earliest word =>
                       let pos := Py.find text_lower word in
                       if negb (pos =? -1) && (pos <? earliest) then pos else earliest)
                    query_words (Py.len text) in
        if earliest_pos <? Py.len text then earliest_pos else -1
    end.

(** [make_snippet(chunk_text, query, radius)] returns
    [(snippet, start_pos, end_pos)]. *)
Definition make_snippet (chunk_text query : string) (radius : Z) : string * Z * Z :=
  if negb (Py.truthy chunk_text) || negb (Py.truthy query)
  then (Py.str_upto chunk_text (radius * 2), 0, Z.min (radius * 2) (Py.len chunk_text))
  else
    let match_pos := _find_best_match chunk_text query in
    if match_pos =? -1
    then
      let snippet := Py.str_upto chunk_text (radius * 2) in
      (snippet, 0, Z.min (radius * 2) (Py.len chunk_text))
    else
      let start_pos := Z.max 0 (match_pos - radius) in
      let end_pos := Z.min (Py.len chunk_text) (match_pos + Py.len query + radius) in
      let snippet := Py.str_slice chunk_text start_pos end_pos in
      let snippet := if 0 <? start_pos then "..." +:+ snippet else snippet in
      let snippet := if end_pos <? Py.len chunk_text then snippet +:+ "..." else snippet in
      (snippet, start_pos, end_pos).

(** [s.rfind(' ')] as used by [truncate_snippet]. *)
Fixpoint rfind_space_at (s : string) (i : nat) (last : Z) : Z :=
  match s with
  | EmptyString => last
  | String c s' =>
      rfind_space_at s' (S i) (if Ascii.eqb c " "%char then Z.of_nat i else last)
  end.

(** [truncate_snippet(snippet, max_length)]; the comparison
    [last_space > max_length * 0.8] is kept as [10 * last_space > 8 * max_length]. *)
Definition truncate_snippet (snippet : string) (max_length : Z) : string :=
  if Py.len snippet <=? max_length then snippet
  else
    let truncated := Py.str_upto snippet max_length in
    let last_space := rfind_space_at truncated 0 (-1) in
    let truncated :=
      if 8 * max_length <? 10 * last_space
      then Py.str_upto truncated last_space else truncated in
    truncated +:+ "...".

(** [clean_snippet(snippet)]: runs of whitespace become one blank, then
    [strip()]. *)
Definition clean_snippet (snippet : string) : string :=
  Py.join " " (Py.split snippet).

End snippets.

(** ** types.py *)

Module ScoreBreakdown.
Record t := mk {
  cosine : Q;
  bm25 : Q;
  exact : Q;
  position_bonus : Q;
  final : Q
}.
End ScoreBreakdown.

Module ScoredChunk.
Record t := mk {
  chunk_id : string;
  file_id : string;
  path : string;
  text : string;
  score : Q;
  score_breakdown : ScoreBreakdown.t;
  chunk_idx : Z
}.
End ScoredChunk.

Module SearchHit.
Record t := mk {
  path : string;
  score : Q;
  score_breakdown : ScoreBreakdown.t;
  file_type : string;
  chunk_id : string;
  snippet : string;
  context_range : Z * Z;
  file_id : string;
  chunk_idx : Z
}.
End SearchHit.

Module Chunk.
Record t := mk {
  path : string;
  file_id : string;
  chunk_id : string;
  text : string;
  token_start : Z;
  token_end : Z;
  mtime : Z;
  sha256 : string;
  idx : Z
}.
End Chunk.

Module IndexStats.
Record t := mk {
  files_processed : Z;
  chunks_created : Z;
  files_skipped : Z;
  errors : Z
}.
Definition zero : t := mk 0 0 0 0.
End IndexStats.

Module FrontierState.
Record t := mk {
  queue : list string;
  seen : gmap string (Z * Z);
  processed_files : Z;
  processed_dirs : Z;
  errors : list string
}.
Definition empty : t := mk [] ∅ 0 0 [].
End FrontierState.

(** ** config.py: the [search] and [index] sections *)

Module SearchConfig.
Record t := mk {
  top_k : Z;
  lex_k : Z;
  vec_k : Z;
  merge_k : Z;
  timeout_sec : Q;
  bm25_weight : Q;
  cosine_weight : Q;
  exact_boost : Q;
  early_pos_boost : Q;
  cache_size : Z;
  snippet_radius : Z;
  max_results_per_file : Z
}.
(** [DEFAULT["search"]] *)
Definition default : t :=
  mk 50 200 300 400 (5 # 2) (55 # 100) (45 # 100) (20 # 100) (10 # 100) 128 50 1.
End SearchConfig.

Module IndexConfig.
Record t := mk {
  max_tokens : Z;
  overlap : Z;
  allow_exts : list string;
  exclude_patterns : list string;
  max_items : Z
}.
End IndexConfig.

(** ** storage.py: the catalog

    The tables [files], [chunks] and [chunks_fts] by their keys.  The
    schema file is not part of the sources; the keys are the ones the
    statements of [storage.py] select by. *)

Module Catalog.

Record FileRow := {
  f_path : string;
  f_size : Z;
  f_mtime : Z;
  f_sha256 : string
}.

Record ChunkRow := {
  c_file_id : string;
  c_idx : Z;
  c_token_start : Z;
  c_token_end : Z
}.

Record FtsRow := {
  fts_text : string;
  fts_path : string
}.

Record t := mk {
  files : gmap string FileRow;
  chunks : gmap string ChunkRow;
  chunks_fts : gmap string FtsRow
}.

Definition empty : t := mk ∅ ∅ ∅.

Record ChunkMeta := {
  m_chunk_id : string;
  m_file_id : string;
  m_idx : Z;
  m_token_start : Z;
  m_token_end : Z;
  m_path : string
}.

Section WithHashes.
Variable H : Hashes.

(** [Catalog._generate_file_id(path, mtime, size)] *)
Definition _generate_file_id (path : string) (mtime size : Z) : string :=
  let content := path +:+ "|" +:+ Py.str_of_int mtime +:+ "|" +:+ Py.str_of_int size in
  sha1_hex H content.

(** [Catalog.upsert_file(path, size, mtime, sha256)]: [INSERT OR REPLACE]
    keyed by [file_id]; returns the [file_id]. *)
Definition upsert_file (cat : t) (path : string) (size mtime : Z) (sha256 : string)
  : string * t :=
  let file_id := _generate_file_id path mtime size in
  (file_id,
   mk (<[file_id := {| f_path := path; f_size := size; f_mtime := mtime; f_sha256 := sha256 |}]>
         (files cat))
      (chunks cat) (chunks_fts cat)).

End WithHashes.

(** [Catalog.insert_chunks(file_id, chunks)]: delete the chunks of the
    file, then insert the new rows. *)
Definition insert_chunks (cat : t) (file_id : string) (cs : list Chunk.t) : t :=
  let kept := filter (fun kv => c_file_id kv.2 ≠ file_id) (chunks cat) in
  let chunks' :=
    foldl (fun m c =>
             <[Chunk.chunk_id c :=
                 {| c_file_id := file_id; c_idx := Chunk.idx c;
                    c_token_start := Chunk.token_start c;
                    c_token_end := Chunk.token_end c |}]> m)
          kept cs in
  mk (files cat) chunks' (chunks_fts cat).

(** [Catalog.fts_insert(chunk_id, text, path)] *)
Definition fts_insert (cat : t) (chunk_id text path : string) : t :=
  mk (files cat) (chunks cat)
     (<[chunk_id := {| fts_text := text; fts_path := path |}]> (chunks_fts cat)).

(** [Catalog.get_chunk_text(chunk_id)] *)
Definition get_chunk_text (cat : t) (chunk_id : string) : option string :=
  fts_text <$> chunks_fts cat !! chunk_id.

(** [Catalog.chunk_meta(chunk_id)]: the chunk row joined with its file
    row. *)
Definition chunk_meta (cat : t) (chunk_id : string) : option ChunkMeta :=
  c ← chunks cat !! chunk_id;
  f ← files cat !! c_file_id c;
  Some {| m_chunk_id := chunk_id; m_file_id := c_file_id c; m_idx := c_idx c;
          m_token_start := c_token_start c; m_token_end := c_token_end c;
          m_path := f_path f |}.

(** [SELECT sha256 FROM files WHERE file_id = ?] *)
Definition file_sha256 (cat : t) (file_id : string) : option string :=
  f_sha256 <$> files cat !! file_id.

End Catalog.

(** ** retriever.py *)

Module HybridRetriever.

(** What the retriever calls outside this repository: the embedding
    model, the vector store and the full-text engine; and the order in
    which CPython iterates a [set] of strings, which the language leaves
    open. *)
Record Backends := {
  embed_query : string -> option (list Q);
  vector_search : list Q -> Z -> Q -> outcome (list (string * Q));
  fts_search : string -> Z -> list (string * Q);
  set_order : gset string -> list string
}.

Record Weights := { w_bm25_weight : Q; w_cosine_weight : Q }.
Record Boosts := { b_exact_boost : Q; b_early_pos_boost : Q }.

(** [a < b] on scores. *)
Definition qlt (a b : Q) : bool := negb (Qle_bool b a).

(** [min(scores)] and [max(scores)] of a non-empty list: the first
    extremal element. *)
Definition py_min (x : Q) (xs : list Q) : Q :=
  fold_left (fun m y => if qlt y m then y else m) xs x.
Definition py_max (x : Q) (xs : list Q) : Q :=
  fold_left (fun m y => if qlt m y then y else m) xs x.

(** [list.sort(key=lambda x: x.score, reverse=True)]: stable, descending. *)
Fixpoint insert_desc (x : ScoredChunk.t) (l : list ScoredChunk.t) : list ScoredChunk.t :=
  match l with
  | [] => [x]
  | y :: l' =>
      if qlt (ScoredChunk.score x) (ScoredChunk.score y)
      then y :: insert_desc x l'
      else x :: y :: l'
  end.
Definition sort_desc (l : list ScoredChunk.t) : list ScoredChunk.t :=
  foldr insert_desc [] l.

(** [dict] assignment in a loop: the last score of a key wins. *)
Definition to_candidates (hits : list (string * Q)) : gmap string Q :=
  foldl (fun m kv => <[kv.1 := kv.2]> m) ∅ hits.

(** [_normalize_scores(candidates)] *)
Definition _normalize_scores (candidates : gmap string Q) : gmap string Q :=
  match (map_to_list candidates).*2 with
  | [] => ∅
  | s0 :: rest =>
      let min_score := py_min s0 rest in
      let max_score := py_max s0 rest in
      if Qeq_bool max_score min_score
      then candidates
      else (fun score => (score - min_score) / (max_score - min_score))%Q <$> candidates
  end.

(** [_calculate_exact_match(query, text)] *)
Definition _calculate_exact_match (query text : string) : Q :=
  let query_lower := Py.strip (Py.lower query) in
  let text_lower := Py.lower text in
  if Py.contains text_lower query_lower then 1%Q
  else
    let query_words : gset string := list_to_set (Py.split query_lower) in
    let text_words : gset string := list_to_set (Py.split text_lower) in
    if decide (query_words = ∅) then 0%Q
    else
      let word_matches := size (query_words ∩ text_words) in
      let word_ratio :=
        (inject_Z (Z.of_nat word_matches) / inject_Z (Z.of_nat (size query_words)))%Q in
      if Qle_bool (7 # 10) word_ratio then word_ratio else 0%Q.

(** [_calculate_position_bonus(query, text)]; the division raises on an
    empty text. *)
Definition _calculate_position_bonus (query text : string) : outcome Q :=
  let query_lower := Py.strip (Py.lower query) in
  let text_lower := Py.lower text in
  let pos := Py.find text_lower query_lower in
  if pos =? -1 then Ok 0%Q
  else if Py.len text_lower =? 0 then Raise "ZeroDivisionError"
  else
    let position_ratio := (inject_Z pos / inject_Z (Py.len text_lower))%Q in
    if Qle_bool position_ratio (3 # 10) then Ok (1 - position_ratio)%Q else Ok 0%Q.

(** [_clean_query(query)]: punctuation to blanks, whitespace collapsed,
    lower case.  A word character is a letter, a digit or the underscore. *)
Definition is_word (c : ascii) : bool :=
  let n := nat_of_ascii c in
  ((48 <=? n)%nat && (n <=? 57)%nat) || ((65 <=? n)%nat && (n <=? 90)%nat)
  || ((97 <=? n)%nat && (n <=? 122)%nat) || (n =? 95)%nat.

Fixpoint blank_punctuation (s : string) : string :=
  match s with
  | EmptyString => EmptyString
  | String c s' =>
      String (if is_word c || Py.is_space c then c else " "%char) (blank_punctuation s')
  end.

Definition _clean_query (query : string) : string :=
  Py.join " " (Py.split (blank_punctuation (Py.lower query))).

(** [dedupe_by_file]: the dictionary [file_best] in insertion order. *)
Fixpoint add_to_file (c : ScoredChunk.t) (file_best : list (string * list ScoredChunk.t))
  : list (string * list ScoredChunk.t) :=
  match file_best with
  | [] => [(ScoredChunk.file_id c, [c])]
  | (f, cs) :: rest =>
      if String.eqb f (ScoredChunk.file_id c)
      then (f, cs ++ [c]) :: rest
      else (f, cs) :: add_to_file c rest
  end.

Definition dedupe_by_file (scored_chunks : list ScoredChunk.t) (max_results_per_file : Z)
  : list ScoredChunk.t :=
  let file_best := foldl (fun fb c => add_to_file c fb) [] scored_chunks in
  let deduped :=
    flat_map (fun fc => Py.slice (sort_desc fc.2) 0 max_results_per_file) file_best in
  sort_desc deduped.

Section WithStores.
Variable B : Backends.
Variable cfg : SearchConfig.t.
Variable catalog : Catalog.t.

(** [vector_candidates(query_embedding, vec_k, timeout)]: any failure of
    the vector store gives the empty dictionary. *)
Definition vector_candidates (query_embedding : list Q) (timeout : Q) : gmap string Q :=
  match vector_search B query_embedding (SearchConfig.vec_k cfg) timeout with
  | Ok hits => to_candidates hits
  | _ => ∅
  end.

(** [lexical_candidates(query, lex_k)] *)
Definition lexical_candidates (query : string) : gmap string Q :=
  to_candidates (fts_search B (_clean_query query) (SearchConfig.lex_k cfg)).

(** The body of the loop of [merge_and_score] for one [chunk_id];
    [None] is [continue]. *)
Definition score_chunk (query : string) (weights : Weights) (boosts : Boosts)
    (vec_scores_norm lex_scores_norm : gmap string Q) (chunk_id : string)
  : outcome (option ScoredChunk.t) :=
  let cosine_score := default 0%Q (vec_scores_norm !! chunk_id) in
  let bm25_score := default 0%Q (lex_scores_norm !! chunk_id) in
  match Catalog.chunk_meta catalog chunk_id, Catalog.get_chunk_text catalog chunk_id with
  | Some chunk_meta, Some chunk_text =>
      if negb (Py.truthy chunk_text) then Ok None
      else
        let exact_match := _calculate_exact_match query chunk_text in
        position_bonus ← _calculate_position_bonus query chunk_text;
        let base_score :=
          (w_bm25_weight weights * bm25_score + w_cosine_weight weights * cosine_score)%Q in
        let final_score :=
          (base_score + b_exact_boost boosts * exact_match
           + b_early_pos_boost boosts * position_bonus)%Q in
        Ok (Some (ScoredChunk.mk chunk_id
                    (Catalog.m_file_id chunk_meta) (Catalog.m_path chunk_meta)
                    chunk_text final_score
                    (ScoreBreakdown.mk cosine_score bm25_score exact_match
                                       position_bonus final_score)
                    (Catalog.m_idx chunk_meta)))
  | _, _ => Ok None
  end.

(** [merge_and_score(query, vec_candidates, lex_candidates, weights, boosts)] *)
Definition merge_and_score (query : string) (vec_candidates lex_candidates : gmap string Q)
    (weights : option Weights) (boosts : option Boosts) : outcome (list ScoredChunk.t) :=
  let weights :=
    default {| w_bm25_weight := SearchConfig.bm25_weight cfg;
               w_cosine_weight := SearchConfig.cosine_weight cfg |} weights in
  let boosts :=
    default {| b_exact_boost := SearchConfig.exact_boost cfg;
               b_early_pos_boost := SearchConfig.early_pos_boost cfg |} boosts in
  let all_chunk_ids : gset string := dom vec_candidates ∪ dom lex_candidates in
  if decide (all_chunk_ids = ∅) then Ok []
  else
    let vec_scores_norm := _normalize_scores vec_candidates in
    let lex_scores_norm := _normalize_scores lex_candidates in
    scored_chunks ←
      for_each (set_order B all_chunk_ids)
        (fun chunk_id acc =>
           r ← score_chunk query weights boosts vec_scores_norm lex_scores_norm chunk_id;
           Ok (match r with Some c => acc ++ [c] | None => acc end))
        [];
    Ok (Py.slice (sort_desc scored_chunks) 0 (SearchConfig.merge_k cfg)).

(** [search(query, k, timeout)]; [k or top_k] takes the default for
    [None] and for 0. *)
Definition search (query : string) (k : option Z) (timeout : Q)
  : outcome (list ScoredChunk.t) :=
  let k := match k with
           | Some k' => if k' =? 0 then SearchConfig.top_k cfg else k'
           | None => SearchConfig.top_k cfg
           end in
  match embed_query B query with
  | None => Ok []
  | Some query_embedding =>
      let vec_candidates := vector_candidates query_embedding timeout in
      let lex_candidates := lexical_candidates query in
      scored_chunks ← merge_and_score query vec_candidates lex_candidates None None;
      let deduped_chunks := dedupe_by_file scored_chunks 1 in
      Ok (Py.slice deduped_chunks 0 k)
  end.

End WithStores.
End HybridRetriever.

(** ** api.py *)

Module SearchAPI.

(** A value of the [opts] dictionary.  The command line passes booleans
    and integers; [OStr] and [ONone] stand for the ill-typed values a
    caller can still pass. *)
Inductive OptValue :=
| OBool (b : bool)
| OInt (n : Z)
| OStr (s : string)
| ONone.

(** A value of the response dictionary. *)
Inductive Value :=
| VInt (n : Z)
| VFloat (q : Q)
| VBool (b : bool)
| VStr (s : string)
| VItems (hits : list SearchHit.t).

Record CacheEntry := {
  ce_result : gmap string Value;
  ce_timestamp : Q
}.

(** [self._cache]: a dictionary in insertion order. *)
Record t := mk {
  _cache : list (string * CacheEntry)
}.

Definition init : t := mk [].

(** The readings of [time.time()] during one call of [run], in the order
    the calls are made. *)
Record Times := {
  t_start : Q;
  t_lookup : Q;
  t_search_time : Q;
  t_timestamp : Q;
  t_store : Q
}.

(** What [api.py] calls outside the modelled code: the regular-expression
    substitution of [highlight_query] and [str(key_data)] on the key
    dictionary (with [sorted(opts.items())], a function of the contents
    of [opts]). *)
Record Externals := {
  highlight_query : string -> string -> string;
  str_key_data : string -> Z -> Z -> Z -> gmap string OptValue -> string
}.

(** [SearchOptions] as built by [run]. *)
Record SearchOptions := {
  exact_match : OptValue;
  case_sensitive : OptValue;
  max_results_per_file : OptValue;
  include_snippets : OptValue;
  snippet_radius : OptValue
}.

(** Truthiness, [v > 0], and the use of a value as an [int]. *)
Definition truthy (v : OptValue) : bool :=
  match v with
  | OBool b => b
  | OInt n => negb (n =? 0)
  | OStr s => Py.truthy s
  | ONone => false
  end.

Definition gt_zero (v : OptValue) : outcome bool :=
  match v with
  | OBool b => Ok b
  | OInt n => Ok (0 <? n)
  | _ => Raise "TypeError"
  end.

Definition as_int (v : OptValue) : outcome Z :=
  match v with
  | OBool b => Ok (if b then 1 else 0)
  | OInt n => Ok n
  | _ => Raise "TypeError"
  end.

(** [int(x)] on a float: truncation towards zero. *)
Definition int_of_float (q : Q) : Z := Z.quot (Qnum q) (Z.pos (Qden q)).

(** [s.endswith(suffix)] *)
Definition endswith (s suffix : string) : bool :=
  let n := String.length s in
  let m := String.length suffix in
  (m <=? n)%nat && String.eqb (substring (n - m) m s) suffix.

(** Lookup, deletion and assignment in an insertion-ordered dictionary. *)
Fixpoint cache_get (key : string) (c : list (string * CacheEntry)) : option CacheEntry :=
  match c with
  | [] => None
  | (k, e) :: c' => if String.eqb k key then Some e else cache_get key c'
  end.

Definition cache_del (key : string) (c : list (string * CacheEntry))
  : list (string * CacheEntry) :=
  List.filter (fun ke => negb (String.eqb ke.1 key)) c.

Fixpoint cache_set (key : string) (e : CacheEntry) (c : list (string * CacheEntry))
  : list (string * CacheEntry) :=
  match c with
  | [] => [(key, e)]
  | (k, e') :: c' => if String.eqb k key then (k, e) :: c' else (k, e') :: cache_set key e c'
  end.

(** [min(self._cache.keys(), key=timestamp)]: the first oldest key;
    [ValueError] on an empty dictionary. *)
Definition oldest_key (c : list (string * CacheEntry)) : outcome string :=
  match c with
  | [] => Raise "ValueError"
  | (k, e) :: c' =>
      Ok (fold_left (fun best ke =>
                       if HybridRetriever.qlt (ce_timestamp ke.2) (ce_timestamp best.2)
                       then ke else best) c' (k, e)).1
  end.

Section WithRetriever.
Variable H : Hashes.
Variable X : Externals.
Variable cfg : SearchConfig.t.

(** [self.retriever.search]: the method of the retriever object the API
    holds, [HybridRetriever.search] outside the tests. *)
Variable retriever_search : string -> option Z -> Q -> outcome (list ScoredChunk.t).

(** [self._cache_ttl] *)
Definition _cache_ttl : Q := 3600.

(** [_generate_cache_key(query, k, page, per_page, opts)] *)
Definition _generate_cache_key (query : string) (k page per_page : Z)
    (opts : gmap string OptValue) : string :=
  md5_hex H (str_key_data X query k page per_page opts).

(** [_get_cached_result(cache_key)]: the result, if any, and the cache
    after the lookup (an expired entry is deleted). *)
Definition _get_cached_result (st : t) (cache_key : string) (now : Q)
  : option (gmap string Value) * t :=
  match cache_get cache_key (_cache st) with
  | None => (None, st)
  | Some cache_entry =>
      if HybridRetriever.qlt _cache_ttl (now - ce_timestamp cache_entry)%Q
      then (None, mk (cache_del cache_key (_cache st)))
      else (Some (ce_result cache_entry), st)
  end.

(** [_cache_result(cache_key, result)] *)
Definition _cache_result (st : t) (cache_key : string) (result : gmap string Value)
    (now : Q) : outcome t :=
  c ← (if SearchConfig.cache_size cfg <=? Z.of_nat (length (_cache st))
       then oldest ← oldest_key (_cache st); Ok (cache_del oldest (_cache st))
       else Ok (_cache st));
  Ok (mk (cache_set cache_key {| ce_result := result; ce_timestamp := now |} c)).

(** [_create_search_hit(chunk, query, opts)] *)
Definition _create_search_hit (chunk : ScoredChunk.t) (query : string)
    (opts : SearchOptions) : outcome SearchHit.t :=
  sc ← (if truthy (include_snippets opts)
        then
          radius ← as_int (snippet_radius opts);
          let '(snippet, start_pos, end_pos) :=
            snippets.make_snippet (ScoredChunk.text chunk) query radius in
          let snippet := snippets.clean_snippet snippet in
          let snippet := snippets.truncate_snippet snippet 200 in
          let snippet :=
            if negb (truthy (exact_match opts))
            then highlight_query X snippet query else snippet in
          Ok (snippet, (start_pos, end_pos))
        else Ok (EmptyString, (0, 0)));
  let path := ScoredChunk.path chunk in
  let file_type :=
    if Py.truthy path then
      if endswith path ".md" || endswith path ".markdown" then "markdown"
      else if endswith path ".pdf" then "pdf"
      else if endswith path ".txt" || endswith path ".text" then "text"
      else if endswith path ".html" || endswith path ".htm" then "html"
      else if endswith path ".docx" || endswith path ".doc" then "document"
      else "unknown"
    else "unknown" in
  Ok (SearchHit.mk path (ScoredChunk.score chunk) (ScoredChunk.score_breakdown chunk)
        file_type (ScoredChunk.chunk_id chunk) sc.1 sc.2
        (ScoredChunk.file_id chunk) (ScoredChunk.chunk_idx chunk)).

(** The list comprehension over the scored chunks. *)
Fixpoint create_hits (chunks : list ScoredChunk.t) (query : string) (opts : SearchOptions)
  : outcome (list SearchHit.t) :=
  match chunks with
  | [] => Ok []
  | chunk :: rest =>
      hit ← _create_search_hit chunk query opts;
      hits ← create_hits rest query opts;
      Ok (hit :: hits)
  end.

(** The ranked hits of a query: the retriever's results, deduplicated
    again with the option of the call, turned into hits. *)
Definition ranked_hits (query : string) (k : Z) (search_opts : SearchOptions)
  : outcome (list SearchHit.t) :=
  scored_chunks ← retriever_search query (Some k) (SearchConfig.timeout_sec cfg);
  limit_set ← gt_zero (max_results_per_file search_opts);
  scored_chunks ←
    (if limit_set : bool
     then n ← as_int (max_results_per_file search_opts);
          Ok (HybridRetriever.dedupe_by_file scored_chunks n)
     else Ok scored_chunks);
  create_hits scored_chunks query search_opts.

(** The dictionary returned on success. *)
Definition success_response (query : string) (page per_page : Z)
    (search_hits : list SearchHit.t) (tm : Times) : outcome (gmap string Value) :=
  let total_hits := Z.of_nat (length search_hits) in
  let start_idx := (page - 1) * per_page in
  let end_idx := start_idx + per_page in
  let paginated_hits := Py.slice search_hits start_idx end_idx in
  if per_page =? 0 then Raise "ZeroDivisionError"
  else
    let total_pages := (total_hits + per_page - 1) / per_page in
    let has_next := page <? total_pages in
    let has_prev := 1 <? page in
    Ok (<["query" := VStr query]>
        (<["total_hits" := VInt total_hits]>
        (<["page" := VInt page]>
        (<["per_page" := VInt per_page]>
        (<["total_pages" := VInt total_pages]>
        (<["has_next" := VBool has_next]>
        (<["has_prev" := VBool has_prev]>
        (<["items" := VItems paginated_hits]>
        (<["search_time" := VFloat (t_search_time tm - t_start tm)]>
        (<["cache_hit" := VBool false]>
        (<["timestamp" := VInt (int_of_float (t_timestamp tm))]> ∅))))))))))).

(** The dictionary returned by the [except] branch. *)
Definition error_response (query : string) (page per_page : Z) (e : string) (tm : Times)
  : gmap string Value :=
  <["query" := VStr query]>
  (<["total_hits" := VInt 0]>
  (<["page" := VInt page]>
  (<["per_page" := VInt per_page]>
  (<["total_pages" := VInt 0]>
  (<["has_next" := VBool false]>
  (<["has_prev" := VBool false]>
  (<["items" := VItems []]>
  (<["search_time" := VFloat (t_search_time tm - t_start tm)]>
  (<["cache_hit" := VBool false]>
  (<["error" := VStr e]>
  (<["timestamp" := VInt (int_of_float (t_timestamp tm))]> ∅))))))))))).

(** [k or self.search_config["top_k"]]: the default for [None] and
    for 0. *)
Definition k_or_top_k (k : option Z) : Z :=
  match k with
  | Some k' => if k' =? 0 then SearchConfig.top_k cfg else k'
  | None => SearchConfig.top_k cfg
  end.

(** The [SearchOptions] built from [opts] and the configuration. *)
Definition search_options (opts : gmap string OptValue) : SearchOptions :=
  {| exact_match := default (OBool false) (opts !! "exact_match");
     case_sensitive := default (OBool false) (opts !! "case_sensitive");
     max_results_per_file :=
       default (OInt (SearchConfig.max_results_per_file cfg))
               (opts !! "max_results_per_file");
     include_snippets := default (OBool true) (opts !! "include_snippets");
     snippet_radius :=
       default (OInt (SearchConfig.snippet_radius cfg)) (opts !! "snippet_radius") |}.

(** The [try] block of [run] with its [except] branch. *)
Definition search_and_cache (st : t) (cache_key query : string) (k page per_page : Z)
    (search_opts : SearchOptions) (tm : Times) : outcome (gmap string Value * t) :=
  catch
    (search_hits ← ranked_hits query k search_opts;
     result ← success_response query page per_page search_hits tm;
     st' ← _cache_result st cache_key result (t_store tm);
     Ok (result, st'))
    (fun e => Ok (error_response query page per_page e tm, st)).

(** [run(query, k, page, per_page, opts)]: the response and the state of
    the cache after the call.  On a hit, [cached_result["cache_hit"] = True]
    writes into the dictionary held by the cache. *)
Definition run (st : t) (query : string) (k : option Z) (page per_page : Z)
    (opts : option (gmap string OptValue)) (tm : Times)
  : outcome (gmap string Value * t) :=
  let k := k_or_top_k k in
  let opts := default ∅ opts in
  let search_opts := search_options opts in
  let cache_key := _generate_cache_key query k page per_page opts in
  let lookup := _get_cached_result st cache_key (t_lookup tm) in
  let st := lookup.2 in
  match lookup.1 with
  | Some cached =>
      if decide (cached = ∅)
      then search_and_cache st cache_key query k page per_page search_opts tm
      else
        let cached' := <["cache_hit" := VBool true]> cached in
        let stamp := default 0%Q (ce_timestamp <$> cache_get cache_key (_cache st)) in
        Ok (cached',
            mk (cache_set cache_key {| ce_result := cached'; ce_timestamp := stamp |}
                          (_cache st)))
  | None => search_and_cache st cache_key query k page per_page search_opts tm
  end.

End WithRetriever.
End SearchAPI.

(** ** indexer.py *)

Module BFSIndexer.

Inductive Kind := KFile | KDir | KOther.

(** [os.stat_result]: the fields the indexer reads; [st_mtime] is already
    the integer [int(stat.st_mtime)]. *)
Record Stat := {
  st_dev : Z;
  st_ino : Z;
  st_kind : Kind;
  st_size : Z;
  st_mtime : Z
}.

(** The file system and the collaborators of the indexer.
    - [stat p] is [None] when [p] does not exist;
    - [iterdir p] lists the children of a directory as path strings and
      raises on [PermissionError] and [OSError];
    - [read_bytes p] is the raw content, [None] on an IO error;
    - [extract_text p] is the Extractor ([_extract_text]): the text, or
      [None] on failure;
    - [suffix p] is [Path(p).suffix.lower()];
    - [fnmatch p pat] is [fnmatch.fnmatch];
    - [embed texts] is the embedding model followed by the upsert into
      the vector store: [false] when either is unavailable or fails. *)
Record World := {
  stat : string -> option Stat;
  iterdir : string -> outcome (list string);
  read_bytes : string -> option string;
  extract_text : string -> option string;
  suffix : string -> string;
  fnmatch : string -> string -> bool;
  embed : list string -> bool
}.

(** What the indexer writes: the catalog, the points sent to the vector
    store (their ids, in the order sent), and [self.stats]. *)
Record t := mk {
  catalog : Catalog.t;
  upserted : list string;
  stats : IndexStats.t
}.

Definition init : t := mk Catalog.empty [] IndexStats.zero.

(** The result of a step that writes to a state [S]: it returns, raises
    (the writes made before the exception stay), or never ends. *)
Inductive ran (S : Type) : Type :=
| Done (s : S)
| Failed (e : string) (s : S)
| Loops.
Arguments Done {S} s.
Arguments Failed {S} e s.
Arguments Loops {S}.

(** [Path(p).name]: the text after the last slash. *)
Fixpoint name_from (s cur : string) : string :=
  match s with
  | EmptyString => cur
  | String c s' =>
      if Ascii.eqb c "/"%char then name_from s' EmptyString
      else name_from s' (cur +:+ String c EmptyString)
  end.
Definition name (p : string) : string := name_from p EmptyString.

(** [s.startswith('.')] *)
Definition starts_with_dot (s : string) : bool :=
  match s with
  | String c _ => Ascii.eqb c "."%char
  | EmptyString => false
  end.

Definition add_skipped (s : IndexStats.t) : IndexStats.t :=
  IndexStats.mk (IndexStats.files_processed s) (IndexStats.chunks_created s)
                (IndexStats.files_skipped s + 1) (IndexStats.errors s).

Definition add_processed (s : IndexStats.t) : IndexStats.t :=
  IndexStats.mk (IndexStats.files_processed s + 1) (IndexStats.chunks_created s)
                (IndexStats.files_skipped s) (IndexStats.errors s).

Definition add_chunks (s : IndexStats.t) (n : Z) : IndexStats.t :=
  IndexStats.mk (IndexStats.files_processed s) (IndexStats.chunks_created s + n)
                (IndexStats.files_skipped s) (IndexStats.errors s).

Definition add_error (s : IndexStats.t) : IndexStats.t :=
  IndexStats.mk (IndexStats.files_processed s) (IndexStats.chunks_created s)
                (IndexStats.files_skipped s) (IndexStats.errors s + 1).

Section WithWorld.
Variable H : Hashes.
Variable W : World.
Variable cfg : IndexConfig.t.

(** [ids.generate_file_sha256(path)]: SHA-256 of the bytes of the file. *)
Definition generate_file_sha256 (path : string) : option string :=
  sha256_hex H <$> read_bytes W path.

(** [ids.get_file_stats(path)]: [(size, mtime)]. *)
Definition get_file_stats (path : string) : option (Z * Z) :=
  (fun s => (st_size s, st_mtime s)) <$> stat W path.

(** [_should_exclude(path)] *)
Definition _should_exclude (path : string) : bool :=
  existsb (fun pattern => fnmatch W path pattern) (IndexConfig.exclude_patterns cfg).

(** The loop of [_chunk_text]; [fuel] bounds the number of tests of the
    loop condition, and running out of it is divergence. *)
Fixpoint chunk_loop (fuel : nat) (words : list string) (file_path file_id : string)
    (i chunk_idx : Z) (chunks : list Chunk.t) : outcome (list Chunk.t) :=
  match fuel with
  | O => Diverge
  | S fuel' =>
      if i <? Z.of_nat (length words) then
        let chunk_words := Py.slice words i (i + IndexConfig.max_tokens cfg) in
        let chunk_text := Py.join " " chunk_words in
        if negb (Py.truthy (Py.strip chunk_text)) then Ok chunks
        else
          match stat W file_path with
          | None => Raise "FileNotFoundError"
          | Some s =>
              let chunk :=
                Chunk.mk file_path file_id (ids.chunk_id H file_id chunk_idx) chunk_text
                         i (i + Z.of_nat (length chunk_words)) (st_mtime s)
                         (sha256_hex H chunk_text) chunk_idx in
              chunk_loop fuel' words file_path file_id
                         (i + (IndexConfig.max_tokens cfg - IndexConfig.overlap cfg))
                         (chunk_idx + 1) (chunks ++ [chunk])
          end
      else Ok chunks
  end.

(** [_chunk_text(text, file_path, file_id)].  A run of the loop that ends
    tests its condition at most [len(words) + max_tokens + 2] times (with
    a positive step the index passes [len(words)]; with a negative one
    the slice is empty once the index is below [-len(words) - max_tokens]). *)
Definition _chunk_text (text file_path file_id : string) : outcome (list Chunk.t) :=
  let words := Py.split text in
  chunk_loop (length words + Z.to_nat (IndexConfig.max_tokens cfg) + 2) words
             file_path file_id 0 0 [].

(** [_embed_and_upsert(chunks)]: every exception is logged and dropped. *)
Definition _embed_and_upsert (chunks : list Chunk.t) (st : t) : t :=
  if embed W (Chunk.text <$> chunks)
  then mk (catalog st) (upserted st ++ (Chunk.chunk_id <$> chunks)) (stats st)
  else st.

Definition skipped (st : t) : t :=
  mk (catalog st) (upserted st) (add_skipped (stats st)).

(** [_process_file(file_path)] *)
Definition _process_file (file_path : string) (st : t) : ran t :=
  if negb (bool_decide (suffix W file_path ∈ IndexConfig.allow_exts cfg))
  then Done (skipped st)
  else if _should_exclude file_path then Done (skipped st)
  else
    match get_file_stats file_path with
    | None => Done st
    | Some (size, mtime) =>
        let fid := ids.file_id H file_path mtime size in
        let existing_sha256 := Catalog.file_sha256 (catalog st) fid in
        let unchanged :=
          match existing_sha256 with
          | Some existing =>
              Py.truthy existing
              && bool_decide (generate_file_sha256 file_path = Some existing)
          | None => false
          end in
        if unchanged then Done (skipped st)
        else
          match extract_text W file_path with
          | None => Done (skipped st)
          | Some text =>
              if negb (Py.truthy text) then Done (skipped st)
              else
                let new_sha256 := sha256_hex H text in
                let cat1 :=
                  (Catalog.upsert_file H (catalog st) file_path size mtime new_sha256).2 in
                let st1 := mk cat1 (upserted st) (stats st) in
                match _chunk_text text file_path fid with
                | Diverge => Loops
                | Raise e => Failed e st1
                | Ok chunks =>
                    let cat2 := Catalog.insert_chunks cat1 fid chunks in
                    let st2 := _embed_and_upsert chunks (mk cat2 (upserted st) (stats st)) in
                    let cat3 :=
                      foldl (fun c chunk =>
                               Catalog.fts_insert c (Chunk.chunk_id chunk)
                                                  (Chunk.text chunk) (Chunk.path chunk))
                            (catalog st2) chunks in
                    Done (mk cat3 (upserted st2)
                             (add_chunks (stats st2) (Z.of_nat (length chunks))))
                end
          end
    end.

(** [_process_directory(dir_path, frontier)]: the new queue. *)
Definition _process_directory (dir_path : string) (queue : list string) : list string :=
  if _should_exclude dir_path then queue
  else
    match iterdir W dir_path with
    | Ok children =>
        queue ++ List.filter (fun child_str =>
                                negb (starts_with_dot (name child_str))
                                && negb (_should_exclude child_str)) children
    | _ => queue
    end.

(** [_process_item(item_path, frontier)] *)
Definition _process_item (item_path : string) (fs : FrontierState.t * t)
  : ran (FrontierState.t * t) :=
  let '(frontier, st) := fs in
  match stat W item_path with
  | None => Done fs
  | Some s =>
      let device_inode := (st_dev s, st_ino s) in
      if bool_decide (FrontierState.seen frontier !! item_path = Some device_inode)
      then Done fs
      else
        let mark_seen (f : FrontierState.t) :=
          FrontierState.mk (FrontierState.queue f)
                           (<[item_path := device_inode]> (FrontierState.seen f))
                           (FrontierState.processed_files f)
                           (FrontierState.processed_dirs f) (FrontierState.errors f) in
        match st_kind s with
        | KFile =>
            match _process_file item_path st with
            | Loops => Loops
            | Failed e st' => Failed e (frontier, st')
            | Done st' =>
                let frontier' :=
                  FrontierState.mk (FrontierState.queue frontier)
                                   (FrontierState.seen frontier)
                                   (FrontierState.processed_files frontier + 1)
                                   (FrontierState.processed_dirs frontier)
                                   (FrontierState.errors frontier) in
                let st'' := mk (catalog st') (upserted st') (add_processed (stats st')) in
                Done (mark_seen frontier', st'')
            end
        | KDir =>
            let frontier' :=
              FrontierState.mk (_process_directory item_path (FrontierState.queue frontier))
                               (FrontierState.seen frontier)
                               (FrontierState.processed_files frontier)
                               (FrontierState.processed_dirs frontier + 1)
                               (FrontierState.errors frontier) in
            Done (mark_seen frontier', st)
        | KOther => Done (mark_seen frontier, st)
        end
  end.

(** The seeding of an empty queue with the roots that exist. *)
Definition seed (roots : list string) (frontier : FrontierState.t) : FrontierState.t :=
  match FrontierState.queue frontier with
  | [] =>
      FrontierState.mk (List.filter (fun root => bool_decide (is_Some (stat W root))) roots)
                       (FrontierState.seen frontier)
                       (FrontierState.processed_files frontier)
                       (FrontierState.processed_dirs frontier)
                       (FrontierState.errors frontier)
  | _ => frontier
  end.

(** The [while] loop that pops up to [max_items] paths off the front of
    the queue: the paths popped and the frontier left. *)
Definition dequeue (max_items : Z) (frontier : FrontierState.t)
  : list string * FrontierState.t :=
  let n := Z.to_nat max_items in
  (take n (FrontierState.queue frontier),
   FrontierState.mk (drop n (FrontierState.queue frontier))
                    (FrontierState.seen frontier)
                    (FrontierState.processed_files frontier)
                    (FrontierState.processed_dirs frontier)
                    (FrontierState.errors frontier)).

(** The [for] loop over the popped paths, with its [try/except]. *)
Fixpoint process_level (items : list string) (fs : FrontierState.t * t)
  : option (FrontierState.t * t) :=
  match items with
  | [] => Some fs
  | item_path :: rest =>
      match _process_item item_path fs with
      | Loops => None
      | Done fs' => process_level rest fs'
      | Failed e (frontier, st) =>
          let frontier' :=
            FrontierState.mk (FrontierState.queue frontier) (FrontierState.seen frontier)
                             (FrontierState.processed_files frontier)
                             (FrontierState.processed_dirs frontier)
                             (FrontierState.errors frontier
                                ++ [item_path +:+ ": " +:+ e]) in
          process_level rest
            (frontier', mk (catalog st) (upserted st) (add_error (stats st)))
      end
  end.

(** [_load_frontier()]: the saved state, or an empty one. *)
Definition _load_frontier (saved : option FrontierState.t) : FrontierState.t :=
  default FrontierState.empty saved.

(** [run_bfs_slice(roots, max_items)]: from the frontier file and the
    indexer's state to the frontier file written and the state after the
    slice; [None] when a file makes the chunker loop for ever. *)
Definition run_bfs_slice (roots : list string) (max_items : option Z)
    (saved : option FrontierState.t) (st : t) : option (FrontierState.t * t) :=
  let max_items :=
    match max_items with
    | Some n => if n =? 0 then IndexConfig.max_items cfg else n
    | None => IndexConfig.max_items cfg
    end in
  let frontier := seed roots (_load_frontier saved) in
  let '(current_level, frontier) := dequeue max_items frontier in
  process_level current_level (frontier, st).

(** The [while True] loop of [run_complete_index].  [slice_stats] is the
    indexer's own running [stats] object, which the loop adds to the
    total after every slice. *)
Fixpoint complete_loop (fuel : nat) (roots : list string) (max_items_per_slice : Z)
    (saved : option FrontierState.t) (st : t) (total : IndexStats.t)
  : option (IndexStats.t * FrontierState.t * t) :=
  match fuel with
  | O => None
  | S fuel' =>
      match run_bfs_slice roots (Some max_items_per_slice) saved st with
      | None => None
      | Some (frontier, st') =>
          let slice_stats := stats st' in
          let total' :=
            IndexStats.mk
              (IndexStats.files_processed total + IndexStats.files_processed slice_stats)
              (IndexStats.chunks_created total + IndexStats.chunks_created slice_stats)
              (IndexStats.files_skipped total + IndexStats.files_skipped slice_stats)
              (IndexStats.errors total + IndexStats.errors slice_stats) in
          match FrontierState.queue frontier with
          | [] => Some (total', frontier, st')
          | _ => complete_loop fuel' roots max_items_per_slice (Some frontier) st' total'
          end
      end
  end.

(** [run_complete_index(roots, max_items_per_slice=...)]: a new indexer
    over the stores as they are, the frontier file removed first. *)
Definition run_complete_index (fuel : nat) (roots : list string) (max_items_per_slice : Z)
    (cat : Catalog.t) (sent : list string)
  : option (IndexStats.t * FrontierState.t * t) :=
  complete_loop fuel roots max_items_per_slice None (mk cat sent IndexStats.zero)
                IndexStats.zero.

End WithWorld.
End BFSIndexer.

(** ** Worked examples: the inputs the statements below are evaluated on *)

Module Fixture.

(** Digests as [hashlib] and [uuid] compute them on the strings the
    examples hash; a string outside the table is its own digest. *)
Definition table (rows : list (string * string)) (s : string) : string :=
  default s (snd <$> List.find (fun row => String.eqb row.1 s) rows).

Definition hashes : Hashes := {|
  sha1_hex := table
    [("/r/page.html|1700000000|9", "798d921f48683f32122d6eb7aa10dda5990fd12e")];
  sha256_hex := table
    [("hi", "8f434346648f6b96df89dda901c5176b10a6d83961dd3c1ac88b59b2dc327aa4");
     ("<p>hi</p>", "0a4735281db700223af63abc387c351f64ea6961a1ef955631df08d96169e772")];
  uuid5_dns := table
    [("798d921f48683f32122d6eb7aa10dda5990fd12e_0", "7a8a514a-df7d-5d6b-aeaa-752174ab1c80")];
  md5_hex := table []
|}.

Definition file_row (path : string) : Catalog.FileRow :=
  {| Catalog.f_path := path; Catalog.f_size := 10; Catalog.f_mtime := 1700000000;
     Catalog.f_sha256 := "sha" |}.

Definition chunk_row (file_id : string) (idx : Z) : Catalog.ChunkRow :=
  {| Catalog.c_file_id := file_id; Catalog.c_idx := idx;
     Catalog.c_token_start := 0; Catalog.c_token_end := 2 |}.

Definition fts_row (text path : string) : Catalog.FtsRow :=
  {| Catalog.fts_text := text; Catalog.fts_path := path |}.

(** Scenario S3: three chunks [A], [B], [C] of three files; no text
    contains the query ["zzz"]. *)
Definition s3_catalog : Catalog.t :=
  Catalog.mk
    (<["fA" := file_row "/d/a.txt"]> (<["fB" := file_row "/d/b.txt"]>
       (<["fC" := file_row "/d/c.txt"]> ∅)))
    (<["A" := chunk_row "fA" 0]> (<["B" := chunk_row "fB" 0]>
       (<["C" := chunk_row "fC" 0]> ∅)))
    (<["A" := fts_row "alpha text" "/d/a.txt"]> (<["B" := fts_row "beta text" "/d/b.txt"]>
       (<["C" := fts_row "gamma text" "/d/c.txt"]> ∅))).

Definition s3_vec : gmap string Q := <["A" := 9 # 10]> (<["B" := 6 # 10]> ∅).
Definition s3_lex : gmap string Q := <["B" := 10 # 1]> (<["C" := 5 # 1]> ∅).

(** A retriever whose set iteration follows [order]. *)
Definition backends_in (order : list string) (vec lex : list (string * Q))
  : HybridRetriever.Backends :=
  {| HybridRetriever.embed_query := fun _ => Some [];
     HybridRetriever.vector_search := fun _ _ _ => Ok vec;
     HybridRetriever.fts_search := fun _ _ => lex;
     HybridRetriever.set_order := fun _ => order |}.

(** A retriever whose set iteration is the order of [elements]. *)
Definition backends (vec lex : list (string * Q)) : HybridRetriever.Backends :=
  {| HybridRetriever.embed_query := fun _ => Some [];
     HybridRetriever.vector_search := fun _ _ _ => Ok vec;
     HybridRetriever.fts_search := fun _ _ => lex;
     HybridRetriever.set_order := elements |}.

(** A retriever whose vector store raises and whose embedding fails. *)
Definition backends_down : HybridRetriever.Backends :=
  {| HybridRetriever.embed_query := fun _ => None;
     HybridRetriever.vector_search := fun _ _ _ => Raise "RuntimeError";
     HybridRetriever.fts_search := fun _ _ => [];
     HybridRetriever.set_order := elements |}.

(** The ids and finals of a ranking. *)
Definition finals (r : outcome (list ScoredChunk.t)) : list (string * Q) :=
  match r with
  | Ok l => (fun c => (ScoredChunk.chunk_id c, Qred (ScoredChunk.score c))) <$> l
  | _ => []
  end.

Definition breakdowns (r : outcome (list ScoredChunk.t)) : list (string * (Q * Q * Q * Q)) :=
  match r with
  | Ok l =>
      (fun c =>
         let b := ScoredChunk.score_breakdown c in
         (ScoredChunk.chunk_id c,
          (Qred (ScoreBreakdown.bm25 b), Qred (ScoreBreakdown.cosine b),
           Qred (ScoreBreakdown.exact b), Qred (ScoreBreakdown.position_bonus b)))) <$> l
  | _ => []
  end.

(** The chunks of a ranking. *)
Definition chunks_of (r : outcome (list ScoredChunk.t)) : list ScoredChunk.t :=
  match r with
  | Ok l => l
  | _ => []
  end.


(** One file with two chunks, and a second file: the chunks [c1] and [c2]
    of [f1] both rank above [c3] of [f2]. *)
Definition two_chunk_catalog : Catalog.t :=
  Catalog.mk
    (<["f1" := file_row "/d/one.txt"]> (<["f2" := file_row "/d/two.txt"]> ∅))
    (<["c1" := chunk_row "f1" 0]> (<["c2" := chunk_row "f1" 1]>
       (<["c3" := chunk_row "f2" 0]> ∅)))
    (<["c1" := fts_row "database systems overview" "/d/one.txt"]>
       (<["c2" := fts_row "more on database systems" "/d/one.txt"]>
          (<["c3" := fts_row "an unrelated note" "/d/two.txt"]> ∅))).

Definition two_chunk_backends : HybridRetriever.Backends :=
  backends [("c1", 9 # 10); ("c2", 8 # 10); ("c3", 1 # 10)] [("c1", 3 # 1); ("c2", 2 # 1)].

Definition externals : SearchAPI.Externals :=
  {| SearchAPI.highlight_query := fun snippet _ => snippet;
     SearchAPI.str_key_data := fun query k page per_page _ =>
       query +:+ "|" +:+ Py.str_of_int k +:+ "|" +:+ Py.str_of_int page
             +:+ "|" +:+ Py.str_of_int per_page |}.

(** A rendering of the key dictionary that tells requests apart, as
    [str(key_data)] does: the binary digits of a numbering of
    [(query, k, page, per_page, opts)]. *)
#[local] Instance optvalue_eq_dec : EqDecision SearchAPI.OptValue.
Proof. solve_decision. Defined.

#[local] Instance optvalue_countable : Countable SearchAPI.OptValue.
Proof.
  refine (inj_countable'
            (fun v => match v with
                      | SearchAPI.OBool b => inl (inl (inl b))
                      | SearchAPI.OInt n => inl (inl (inr n))
                      | SearchAPI.OStr s => inl (inr s)
                      | SearchAPI.ONone => inr tt
                      end)
            (fun x => match x with
                      | inl (inl (inl b)) => SearchAPI.OBool b
                      | inl (inl (inr n)) => SearchAPI.OInt n
                      | inl (inr s) => SearchAPI.OStr s
                      | inr tt => SearchAPI.ONone
                      end) _).
  intros []; reflexivity.
Defined.




(** [SearchAPI.run] over the hybrid retriever of a catalog. *)
Definition api_run (B : HybridRetriever.Backends) (cat : Catalog.t) :=
  SearchAPI.run hashes externals SearchConfig.default
                (HybridRetriever.search B SearchConfig.default cat).

Definition times : SearchAPI.Times :=
  {| SearchAPI.t_start := 1000; SearchAPI.t_lookup := 1000;
     SearchAPI.t_search_time := 1001; SearchAPI.t_timestamp := 1001;
     SearchAPI.t_store := 1001 |}.

(** The response and the cache a call of [run] returns. *)
Definition response_of (r : outcome (gmap string SearchAPI.Value * SearchAPI.t))
  : gmap string SearchAPI.Value :=
  match r with Ok (resp, _) => resp | _ => ∅ end.

Definition cache_of (r : outcome (gmap string SearchAPI.Value * SearchAPI.t))
  : SearchAPI.t :=
  match r with Ok (_, st) => st | _ => SearchAPI.init end.

(** The default search configuration with [cache_size] set to 0. *)
Definition no_cache_config : SearchConfig.t :=
  SearchConfig.mk 50 200 300 400 (5 # 2) (55 # 100) (45 # 100) (20 # 100) (10 # 100) 0 50 1.

(** Three hits, told apart by their chunk. *)
Definition three_hits : list SearchHit.t :=
  (fun c => SearchHit.mk "/r/page.html" 1 (ScoreBreakdown.mk 0 0 0 0 1) "html" c
                         EmptyString (0, 0) "f1" 0) <$> ["c1"; "c2"; "c3"].

(** The fused ranking of the three chunks for the query ["database"]:
    [c1] and [c2] of file [f1], then [c3] of file [f2]. *)
Definition ranked_three : list ScoredChunk.t :=
  chunks_of
    (HybridRetriever.merge_and_score two_chunk_backends SearchConfig.default
       two_chunk_catalog "database"
       (HybridRetriever.to_candidates [("c1", 9 # 10); ("c2", 8 # 10); ("c3", 1 # 10)])
       (HybridRetriever.to_candidates [("c1", 3 # 1); ("c2", 2 # 1)]) None None).

(** A retriever object whose [search] raises. *)
Definition failing_search : string -> option Z -> Q -> outcome (list ScoredChunk.t) :=
  fun _ _ _ => Raise "retrieval failed".

(** The [file_id]s of the hits of a response. *)
Definition item_files (r : outcome (gmap string SearchAPI.Value * SearchAPI.t))
  : list string :=
  match r with
  | Ok (resp, _) =>
      match resp !! "items" with
      | Some (SearchAPI.VItems hits) => SearchHit.file_id <$> hits
      | _ => []
      end
  | _ => []
  end.

Definition item_chunks (r : outcome (gmap string SearchAPI.Value * SearchAPI.t))
  : list string :=
  match r with
  | Ok (resp, _) =>
      match resp !! "items" with
      | Some (SearchAPI.VItems hits) => SearchHit.chunk_id <$> hits
      | _ => []
      end
  | _ => []
  end.

(** An HTML page under a root directory: its bytes and the text the
    extractor returns differ. *)
Definition html_world : BFSIndexer.World :=
  {| BFSIndexer.stat := fun p =>
       if String.eqb p "/r" then
         Some {| BFSIndexer.st_dev := 1; BFSIndexer.st_ino := 2;
                 BFSIndexer.st_kind := BFSIndexer.KDir;
                 BFSIndexer.st_size := 64; BFSIndexer.st_mtime := 1700000000 |}
       else if String.eqb p "/r/page.html" then
         Some {| BFSIndexer.st_dev := 1; BFSIndexer.st_ino := 3;
                 BFSIndexer.st_kind := BFSIndexer.KFile;
                 BFSIndexer.st_size := 9; BFSIndexer.st_mtime := 1700000000 |}
       else None;
     BFSIndexer.iterdir := fun p =>
       if String.eqb p "/r" then Ok ["/r/page.html"] else Raise "NotADirectoryError";
     BFSIndexer.read_bytes := fun p =>
       if String.eqb p "/r/page.html" then Some "<p>hi</p>" else None;
     BFSIndexer.extract_text := fun p =>
       if String.eqb p "/r/page.html" then Some "hi" else None;
     BFSIndexer.suffix := fun p =>
       if String.eqb p "/r/page.html" then ".html" else "";
     BFSIndexer.fnmatch := fun _ _ => false;
     BFSIndexer.embed := fun _ => true |}.

Definition index_config : IndexConfig.t :=
  IndexConfig.mk 1200 80 [".txt"; ".md"; ".pdf"; ".docx"; ".html"; ".htm"; ".rtf"] [] 1000.

(** Windows of three tokens overlapping by one. *)
Definition small_windows : IndexConfig.t := IndexConfig.mk 3 1 [".html"] [] 1000.

(** Index, token range and text of the chunks of a chunking. *)
Definition windows_of (r : outcome (list Chunk.t)) : list (Z * Z * Z * string) :=
  match r with
  | Ok cs =>
      (fun c => (Chunk.idx c, Chunk.token_start c, Chunk.token_end c, Chunk.text c)) <$> cs
  | _ => []
  end.

(** A complete index of the root [/r], and a second one over the stores
    the first run left. *)
Definition first_index : option (IndexStats.t * FrontierState.t * BFSIndexer.t) :=
  BFSIndexer.run_complete_index hashes html_world index_config 10 ["/r"] 1000
                                Catalog.empty [].

Definition second_index : option (IndexStats.t * FrontierState.t * BFSIndexer.t) :=
  match first_index with
  | Some (_, _, st) =>
      BFSIndexer.run_complete_index hashes html_world index_config 10 ["/r"] 1000
                                    (BFSIndexer.catalog st) (BFSIndexer.upserted st)
  | None => None
  end.

(** The frontier and the indexer after [_process_item] of the page on
    fresh stores. *)
Definition after_page : FrontierState.t * BFSIndexer.t :=
  match BFSIndexer._process_item hashes html_world index_config "/r/page.html"
          (FrontierState.empty, BFSIndexer.init) with
  | BFSIndexer.Done fs => fs
  | _ => (FrontierState.empty, BFSIndexer.init)
  end.

(** The first slice of one item over the page and its directory as
    roots. *)
Definition page_then_root : option (FrontierState.t * BFSIndexer.t) :=
  BFSIndexer.run_bfs_slice hashes html_world index_config ["/r/page.html"; "/r"] (Some 1)
                           None (BFSIndexer.mk Catalog.empty [] IndexStats.zero).

(** Two empty directories given as roots. *)
Definition two_roots_world : BFSIndexer.World :=
  {| BFSIndexer.stat := fun p =>
       if String.eqb p "/a" then
         Some {| BFSIndexer.st_dev := 1; BFSIndexer.st_ino := 2;
                 BFSIndexer.st_kind := BFSIndexer.KDir;
                 BFSIndexer.st_size := 64; BFSIndexer.st_mtime := 1700000000 |}
       else if String.eqb p "/b" then
         Some {| BFSIndexer.st_dev := 1; BFSIndexer.st_ino := 3;
                 BFSIndexer.st_kind := BFSIndexer.KDir;
                 BFSIndexer.st_size := 64; BFSIndexer.st_mtime := 1700000000 |}
       else None;
     BFSIndexer.iterdir := fun _ => Ok [];
     BFSIndexer.read_bytes := fun _ => None;
     BFSIndexer.extract_text := fun _ => None;
     BFSIndexer.suffix := fun _ => "";
     BFSIndexer.fnmatch := fun _ _ => false;
     BFSIndexer.embed := fun _ => true |}.

(** One slice of one item over the two roots. *)
Definition slice (saved : option FrontierState.t) : option (FrontierState.t * BFSIndexer.t) :=
  BFSIndexer.run_bfs_slice hashes two_roots_world index_config ["/a"; "/b"] (Some 1)
                           saved BFSIndexer.init.

Definition frontier_of (r : option (FrontierState.t * BFSIndexer.t)) : FrontierState.t :=
  default FrontierState.empty (fst <$> r).

Definition indexer_of (r : option (FrontierState.t * BFSIndexer.t)) : BFSIndexer.t :=
  default BFSIndexer.init (snd <$> r).

Definition frontier1 : FrontierState.t := frontier_of (slice None).
Definition frontier2 : FrontierState.t := frontier_of (slice (Some frontier1)).
Definition frontier3 : FrontierState.t := frontier_of (slice (Some frontier2)).

End Fixture.

(** ** The statements of the specification, as predicates on the model *)

Module Spec.

Definition in_unit (x : Q) : Prop := (0 <= x)%Q /\ (x <= 1)%Q.

(** [lo] is the least and [hi] the greatest score of a channel. *)
Definition channel_low (m : gmap string Q) (lo : Q) : Prop :=
  (exists k, m !! k = Some lo) /\ forall k v, m !! k = Some v -> (lo <= v)%Q.

Definition channel_high (m : gmap string Q) (hi : Q) : Prop :=
  (exists k, m !! k = Some hi) /\ forall k v, m !! k = Some v -> (v <= hi)%Q.

(** [x] is the min-max value of candidate [id] in channel [m]: 0 when
    the candidate is absent, the raw score when all scores of the
    channel are equal, [(v - lo) / (hi - lo)] otherwise. *)
Definition min_max_normalised (m : gmap string Q) (id : string) (x : Q) : Prop :=
  match m !! id with
  | None => x = 0%Q
  | Some v =>
      exists lo hi,
        channel_low m lo /\ channel_high m hi /\
        (((hi == lo)%Q /\ x = v) \/ (~ (hi == lo)%Q /\ x = ((v - lo) / (hi - lo))%Q))
  end.

(** The channel holds two different scores. *)
Definition spread (m : gmap string Q) : Prop :=
  exists k1 k2 v1 v2, m !! k1 = Some v1 /\ m !! k2 = Some v2 /\ ~ (v1 == v2)%Q.

(** Every raw score of the channel already lies in [[0,1]]. *)
Definition unit_scores (m : gmap string Q) : Prop :=
  forall k v, m !! k = Some v -> in_unit v.



(** [n] is the ceiling of [T / P], for [P >= 1]. *)
Definition is_ceil (n T P : Z) : Prop := (n - 1) * P < T /\ T <= n * P.

(** The response [r] paginates the ranked list [hits] for page [page]
    with [P] hits per page. *)
Definition paginates (r : gmap string SearchAPI.Value) (hits : list SearchHit.t)
    (page P : Z) : Prop :=
  exists total_pages has_next has_prev,
    r !! "total_hits" = Some (SearchAPI.VInt (Z.of_nat (length hits)))
    /\ r !! "page" = Some (SearchAPI.VInt page)
    /\ r !! "per_page" = Some (SearchAPI.VInt P)
    /\ r !! "total_pages" = Some (SearchAPI.VInt total_pages)
    /\ r !! "has_next" = Some (SearchAPI.VBool has_next)
    /\ r !! "has_prev" = Some (SearchAPI.VBool has_prev)
    /\ r !! "items" = Some (SearchAPI.VItems (Py.slice hits ((page - 1) * P) (page * P)))
    /\ (1 <= P -> is_ceil total_pages (Z.of_nat (length hits)) P)
    /\ (has_next = true <-> page < total_pages)
    /\ (has_prev = true <-> 1 < page).

Definition well_paginated (r : gmap string SearchAPI.Value) : Prop :=
  exists hits page P, paginates r hits page P.

(** Every response held by the cache is a paginated one. *)
Definition cache_paginated (st : SearchAPI.t) : Prop :=
  forall key e, (key, e) ∈ SearchAPI._cache st -> well_paginated (SearchAPI.ce_result e).



(** The fields every response carries. *)
Definition response_fields : list string :=
  ["query"; "total_hits"; "page"; "per_page"; "total_pages"; "has_next"; "has_prev";
   "items"; "search_time"; "cache_hit"; "timestamp"].

Definition structured (r : gmap string SearchAPI.Value) : Prop :=
  forall f, f ∈ response_fields -> is_Some (r !! f).

(** Every response held by the cache is a structured one without an
    error. *)
Definition cache_structured (st : SearchAPI.t) : Prop :=
  forall key e, (key, e) ∈ SearchAPI._cache st ->
    structured (SearchAPI.ce_result e) /\ SearchAPI.ce_result e !! "error" = None.

(** The chunk of window [j] of a list of tokens: the window covers the
    tokens [[j * step, j * step + max_tokens)], cut at the end of the
    list, with [step = max_tokens - overlap]. *)
Definition window_chunk (H : Hashes) (cfg : IndexConfig.t) (words : list string)
    (file_path file_id : string) (file_mtime : Z) (j : Z) : Chunk.t :=
  let step := IndexConfig.max_tokens cfg - IndexConfig.overlap cfg in
  let start := j * step in
  let stop := Z.min (start + IndexConfig.max_tokens cfg) (Z.of_nat (length words)) in
  let text := Py.join " " (Py.slice words start (start + IndexConfig.max_tokens cfg)) in
  Chunk.mk file_path file_id (ids.chunk_id H file_id j) text start stop file_mtime
           (sha256_hex H text) j.

(** A token: a non-empty string that starts with a character that is not
    whitespace. *)
Definition starts_word (w : string) : Prop :=
  exists c r, w = String c r /\ Py.is_space c = false.

(** No queued path is recorded in [seen] with the [(device, inode)] it
    has now. *)
Definition queue_clean (W : BFSIndexer.World) (f : FrontierState.t) : Prop :=
  forall p s,
    p ∈ FrontierState.queue f ->
    BFSIndexer.stat W p = Some s ->
    FrontierState.seen f !! p <> Some (BFSIndexer.st_dev s, BFSIndexer.st_ino s).

(** The frontier files a sequence of slices writes, from no file at all. *)
Inductive reachable (H : Hashes) (W : BFSIndexer.World) (cfg : IndexConfig.t)
    (roots : list string) (max_items : option Z) : option FrontierState.t -> Prop :=
| reach_start : reachable H W cfg roots max_items None
| reach_slice (saved : option FrontierState.t) (st st' : BFSIndexer.t)
    (f : FrontierState.t) :
    reachable H W cfg roots max_items saved ->
    BFSIndexer.run_bfs_slice H W cfg roots max_items saved st = Some (f, st') ->
    reachable H W cfg roots max_items (Some f).

(** The invariant of the specification on the frontier. *)
Definition frontier_claim (H : Hashes) (W : BFSIndexer.World) (cfg : IndexConfig.t)
    (roots : list string) (max_items : option Z) : Prop :=
  forall f, reachable H W cfg roots max_items (Some f) -> queue_clean W f.

(** [p] is recorded in [seen] with the [(device, inode)] it has now. *)
Definition seen_as_is (W : BFSIndexer.World) (f : FrontierState.t) (p : string) : Prop :=
  exists s,
    BFSIndexer.stat W p = Some s
    /\ FrontierState.seen f !! p = Some (BFSIndexer.st_dev s, BFSIndexer.st_ino s).

(** The dictionary [file_best] of [dedupe_by_file]: one entry per
    [file_id], holding chunks of that file only. *)
Definition grouped_by_file (fb : list (string * list ScoredChunk.t)) : Prop :=
  NoDup fb.*1
  /\ forall f cs c, (f, cs) ∈ fb -> c ∈ cs -> ScoredChunk.file_id c = f.

End Spec.

(** ** Shapes used by the further properties of the code *)

Module Shape.

(** Every character of [s] satisfies [p]. *)
Fixpoint all_chars (p : ascii -> bool) (s : string) : bool :=
  match s with
  | EmptyString => true
  | String c s' => p c && all_chars p s'
  end.

(** A whitespace-delimited token: not empty, no whitespace inside. *)
Definition token (w : string) : Prop :=
  w <> EmptyString /\ all_chars (fun c => negb (Py.is_space c)) w = true.

(** A string of the ASCII range: every code is below 128.  On such
    strings [Py.lower] is [str.lower()] and keeps the length ([str.lower()]
    of other code points can change it). *)
Definition is_ascii (c : ascii) : bool := (nat_of_ascii c <? 128)%nat.
Definition ascii_only (s : string) : Prop := all_chars is_ascii s = true.

(** [sub] occurs in [s] at index [pos]. *)
Definition occurs_at (sub s : string) (pos : Z) : Prop :=
  exists pre post, s = pre +:+ sub +:+ post /\ Py.len pre = pos.

(** A list of scored chunks in non-increasing order of score. *)
Fixpoint descending (l : list ScoredChunk.t) : Prop :=
  match l with
  | [] => True
  | x :: l' =>
      (forall y, y ∈ l' -> (ScoredChunk.score y <= ScoredChunk.score x)%Q)
      /\ descending l'
  end.

(** The chunks of file [f] in a list. *)
Definition of_file (f : string) (l : list ScoredChunk.t) : list ScoredChunk.t :=
  filter (fun c => ScoredChunk.file_id c = f) l.

(** A character of a cleaned word: a lower-case letter, a digit or the
    underscore. *)
Definition lower_word (c : ascii) : bool :=
  HybridRetriever.is_word c && Ascii.eqb (Py.lower_char c) c.

(** A bonus that is off, or at least 0.7 and at most 1. *)
Definition off_or_high (q : Q) : Prop :=
  (q == 0)%Q \/ ((7 # 10) <= q /\ q <= 1)%Q.

(** The hits of a response, [[]] when there is none. *)
Definition items_of (r : outcome (gmap string SearchAPI.Value)) : list SearchHit.t :=
  match r with
  | Ok resp =>
      match resp !! "items" with
      | Some (SearchAPI.VItems hits) => hits
      | _ => []
      end
  | _ => []
  end.

(** Counter by counter comparison and sum of statistics. *)
Definition stats_le (a b : IndexStats.t) : Prop :=
  IndexStats.files_processed a <= IndexStats.files_processed b
  /\ IndexStats.chunks_created a <= IndexStats.chunks_created b
  /\ IndexStats.files_skipped a <= IndexStats.files_skipped b
  /\ IndexStats.errors a <= IndexStats.errors b.

Definition stats_add (a b : IndexStats.t) : IndexStats.t :=
  IndexStats.mk (IndexStats.files_processed a + IndexStats.files_processed b)
                (IndexStats.chunks_created a + IndexStats.chunks_created b)
                (IndexStats.files_skipped a + IndexStats.files_skipped b)
                (IndexStats.errors a + IndexStats.errors b).

End Shape.

(** * Properties *)

(** ** Python primitives *)

Example lower_ex : Py.lower "Hello World" = "hello world".
Proof. reflexivity. Qed.

Example split_ex : Py.split "  a bc   d " = ["a"; "bc"; "d"].
Proof. reflexivity. Qed.

Example find_ex : Py.find "hello world" "o w" = 4 /\ Py.find "abc" "x" = -1.
Proof. split; reflexivity. Qed.

Example str_of_int_ex :
  Py.str_of_int 1234567890 = "1234567890" /\ Py.str_of_int 0 = "0"
  /\ Py.str_of_int (-42) = "-42" /\ Py.str_of_int 1024 = "1024".
Proof. repeat split; reflexivity. Qed.

Example slice_ex :
  Py.slice [1; 2; 3; 4; 5] 2 4 = [3; 4] /\ Py.slice [1; 2; 3; 4; 5] 4 6 = [5]
  /\ Py.slice [1; 2; 3; 4; 5] (-2) 0 = [] /\ Py.str_upto "abcdef" (-2) = "abcd".
Proof. repeat split; reflexivity. Qed.

Lemma append_cons (c : ascii) (a s : string) :
  String c a +:+ s = String c (a +:+ s).
Proof. reflexivity. Qed.

Lemma append_nil (s : string) : EmptyString +:+ s = s.
Proof. reflexivity. Qed.

Lemma prefix_spec (a s : string) :
  String.prefix a s = true <-> exists post, s = a +:+ post.
Proof.
  revert s. induction a as [|c a IH]; intros s.
  - split; [intros _; exists s; reflexivity | intros _; destruct s; reflexivity].
  - destruct s as [|d s]; simpl.
    + split; [discriminate | intros [post Hp]; discriminate].
    + destruct (ascii_dec c d) as [->|Hne].
      * rewrite IH. split; intros [post Hp]; exists post.
        -- rewrite append_cons. now rewrite Hp.
        -- rewrite append_cons in Hp. now injection Hp.
      * split; [discriminate|].
        intros [post Hp]. rewrite append_cons in Hp. injection Hp. congruence.
Qed.

Lemma occurs_cons (sub : string) (c : ascii) (s : string) :
  Py.occurs sub (String c s) <->
  (exists post, String c s = sub +:+ post) \/ Py.occurs sub s.
Proof.
  unfold Py.occurs. split.
  - intros [pre [post Hp]]. destruct pre as [|d pre].
    + left. exists post. exact Hp.
    + right. rewrite append_cons in Hp. injection Hp as _ Hp. exists pre, post. exact Hp.
  - intros [[post Hp] | [pre [post Hp]]].
    + exists EmptyString, post. exact Hp.
    + exists (String c pre), post. rewrite append_cons. now rewrite Hp.
Qed.

Lemma find_at_eq (sub s : string) (i : nat) :
  Py.find_at sub s i =
  if String.prefix sub s then Some i
  else match s with
       | EmptyString => None
       | String _ s' => Py.find_at sub s' (S i)
       end.
Proof. destruct s; reflexivity. Qed.

Lemma find_at_none (sub s : string) (i : nat) :
  Py.find_at sub s i = None <-> ~ Py.occurs sub s.
Proof.
  revert i. induction s as [|c s IH]; intros i; rewrite find_at_eq.
  - destruct (String.prefix sub EmptyString) eqn:Hp.
    + apply prefix_spec in Hp. split; [intros Hd; discriminate Hd|].
      intros Hn. exfalso. apply Hn. destruct Hp as [post Hp].
      exists EmptyString, post. exact Hp.
    + split; [|reflexivity]. intros _ [pre [post Ho]].
      assert (String.prefix sub EmptyString = true) as Ht; [|congruence].
      apply prefix_spec. destruct pre; [|discriminate].
      exists post. exact Ho.
  - destruct (String.prefix sub (String c s)) eqn:Hp.
    + apply prefix_spec in Hp. split; [intros Hd; discriminate Hd|].
      intros Hn. exfalso. apply Hn. apply occurs_cons. now left.
    + rewrite IH, occurs_cons. split.
      * intros Hn [Hpre | Ho]; [|tauto].
        apply prefix_spec in Hpre. congruence.
      * tauto.
Qed.

Lemma find_none (s sub : string) : ~ Py.occurs sub s -> Py.find s sub = -1.
Proof.
  intros Hn. unfold Py.find. apply find_at_none with (i := 0%nat) in Hn.
  now rewrite Hn.
Qed.

Lemma find_at_ge (sub s : string) (i j : nat) :
  Py.find_at sub s i = Some j -> (i <= j)%nat.
Proof.
  revert i. induction s as [|c s IH]; intros i; rewrite find_at_eq.
  - destruct (String.prefix sub EmptyString); [|discriminate].
    intros [= ->]. lia.
  - destruct (String.prefix sub (String c s)).
    + intros [= ->]. lia.
    + intros Hf. apply IH in Hf. lia.
Qed.

Lemma find_range (s sub : string) : -1 <= Py.find s sub.
Proof. unfold Py.find. destruct (Py.find_at sub s 0); lia. Qed.

Lemma str_upto_take (s : string) (n : Z) :
  0 <= n ->
  Py.str_upto s n = substring 0 (Z.to_nat (Z.min n (Py.len s))) s.
Proof.
  intros Hn. unfold Py.str_upto, Py.str_slice, Py.clamp.
  assert (0 <= Py.len s) by (unfold Py.len; lia).
  replace (0 <? 0) with false by reflexivity.
  destruct (n <? 0) eqn:Hlt; [lia|].
  rewrite Z.min_l by lia. rewrite Z.sub_0_r. reflexivity.
Qed.

(** ** C10: the fallback of [make_snippet] *)

Lemma find_best_match_none (text query : string) :
  ~ Py.occurs (Py.lower query) (Py.lower text) ->
  (forall w, w ∈ Py.split (Py.lower query) -> ~ Py.occurs w (Py.lower text)) ->
  snippets._find_best_match text query = -1.
Proof.
  intros Hq Hw. unfold snippets._find_best_match.
  rewrite (find_none _ _ Hq). simpl.
  destruct (Py.split (Py.lower query)) as [|w ws] eqn:Hs; [reflexivity|].
  assert (forall (l : list string) (e : Z),
             (forall w', w' ∈ l -> ~ Py.occurs w' (Py.lower text)) ->
             fold_left (fun earliest word =>
                          let pos := Py.find (Py.lower text) word in
                          if negb (pos =? -1) && (pos <? earliest) then pos else earliest)
                       l e = e) as Hfold.
  { induction l as [|x l IH]; intros e Hl; [reflexivity|]. simpl.
    rewrite (find_none _ _ (Hl x ltac:(left))). simpl.
    apply IH. intros w' Hin. apply Hl. now right. }
  rewrite Hfold by exact Hw.
  rewrite Z.ltb_irrefl. reflexivity.
Qed.

(** C10.  For a non-empty text and a radius that is not negative: when
    the query is empty, or neither the lower-cased query nor any of its
    lower-cased words occurs in the lower-cased text, [make_snippet]
    returns the first [2 * radius] characters of the text with the
    positions [(0, min(2 * radius, len(text)))], and these satisfy
    [0 <= start <= end <= len(text)]. *)
Theorem make_snippet_fallback (text query : string) (radius : Z) :
  text <> EmptyString ->
  0 <= radius ->
  (query = EmptyString \/
   (~ Py.occurs (Py.lower query) (Py.lower text) /\
    forall w, w ∈ Py.split (Py.lower query) -> ~ Py.occurs w (Py.lower text))) ->
  let stop := Z.min (2 * radius) (Py.len text) in
  snippets.make_snippet text query radius = (substring 0 (Z.to_nat stop) text, 0, stop)
  /\ 0 <= 0 <= stop /\ stop <= Py.len text.
Proof.
  intros Htext Hr Hq stop.
  assert (0 <= Py.len text) as Hlen by (unfold Py.len; lia).
  split; [|subst stop; lia].
  unfold snippets.make_snippet.
  destruct text as [|c text]; [congruence|]. cbn [Py.truthy negb orb].
  assert (Py.str_upto (String c text) (radius * 2)
          = substring 0 (Z.to_nat stop) (String c text)) as Hs.
  { rewrite str_upto_take by lia. subst stop. now rewrite (Z.mul_comm radius 2). }
  assert (Z.min (radius * 2) (Py.len (String c text)) = stop) as Hm.
  { subst stop. now rewrite (Z.mul_comm radius 2). }
  destruct Hq as [-> | [Hq Hw]].
  - cbn [Py.truthy negb]. now rewrite Hs, Hm.
  - destruct query as [|d query]; cbn [Py.truthy negb].
    + now rewrite Hs, Hm.
    + rewrite (find_best_match_none _ _ Hq Hw). cbn [Z.eqb]. now rewrite Hs, Hm.
Qed.

Lemma make_snippet_fallback_witness :
  snippets.make_snippet "This document has no relevant content." "nonexistent" 20
  = ("This document has no relevant content.", 0, 38).
Proof.
  assert (forall w, ~ Py.occurs w "this document has no relevant content." <->
                    Py.find_at w "this document has no relevant content." 0 = None) as Hno.
  { intros w. symmetry. apply find_at_none. }
  pose proof (make_snippet_fallback
                "This document has no relevant content." "nonexistent" 20) as Hf.
  destruct Hf as [Hf _].
  - discriminate.
  - lia.
  - right. split.
    + apply Hno. reflexivity.
    + intros w Hw. apply Hno.
      change (Py.split (Py.lower "nonexistent")) with ["nonexistent"] in Hw.
      apply list_elem_of_singleton in Hw. subst w. reflexivity.
  - exact Hf.
Defined.

(** ** C9: one file identifier in [ids.py] and in the catalog *)

(** C9.  [Catalog._generate_file_id] and [ids.file_id] are the same
    function, the SHA-1 hex digest of ["path|mtime|size"], so the
    identifier under which [upsert_file] writes the file row, and which
    it returns, is the [fid] the indexer computed beforehand for the
    chunks. *)
Theorem generate_file_id_is_file_id (H : Hashes) (cat : Catalog.t)
    (path sha256 : string) (mtime size : Z) :
  Catalog._generate_file_id H path mtime size = ids.file_id H path mtime size
  /\ ids.file_id H path mtime size
     = sha1_hex H (path +:+ "|" +:+ Py.str_of_int mtime +:+ "|" +:+ Py.str_of_int size)
  /\ (Catalog.upsert_file H cat path size mtime sha256).1 = ids.file_id H path mtime size
  /\ Catalog.file_sha256 (Catalog.upsert_file H cat path size mtime sha256).2
                         (ids.file_id H path mtime size) = Some sha256.
Proof.
  repeat split.
  unfold Catalog.file_sha256, Catalog.upsert_file. cbn [snd Catalog.files].
  unfold Catalog._generate_file_id, ids.file_id.
  now rewrite lookup_insert_eq.
Qed.

Example file_id_ex :
  ids.file_id Fixture.hashes "/r/page.html" 1700000000 9
  = "798d921f48683f32122d6eb7aa10dda5990fd12e".
Proof. reflexivity. Qed.

(** ** C3: scenario S3 of the fuser *)

Lemma perm3_cases {A} (a b c : A) (l : list A) :
  Permutation l [a; b; c] ->
  l = [a; b; c] \/ l = [a; c; b] \/ l = [b; a; c]
  \/ l = [c; a; b] \/ l = [b; c; a] \/ l = [c; b; a].
Proof.
  intros Hp.
  destruct (Permutation_vs_cons_inv Hp) as [l1 [l2 ->]].
  apply (Permutation_app_inv l1 l2 [] [b; c] a) in Hp. simpl in Hp.
  apply Permutation_sym, Permutation_length_2_inv in Hp.
  destruct Hp as [Hp | Hp];
    destruct l1 as [|x [|y [|z l1]]]; simpl in Hp;
    try discriminate; try (injection Hp as -> ->); try (injection Hp as -> Hp);
    subst; simpl; try tauto;
    try (destruct l1; discriminate).
Qed.

(** C3, as the code has it.  On the candidates [vec = {A: 0.9, B: 0.6}]
    and [lex = {B: 10.0, C: 5.0}] the normalised channels are
    [{A: 1, B: 0}] and [{B: 1, C: 0}]; with the default weights and no
    bonus the finals are [B = 0.55], [A = 0.45] and [C = 0], and the
    ranking is [B > A > C], in whatever order the set of candidates is
    iterated. *)
Theorem s3_normalised_and_ranked (order : list string) :
  Permutation order ["A"; "B"; "C"] ->
  Qred <$> HybridRetriever._normalize_scores Fixture.s3_vec
    = <["A" := 1%Q]> (<["B" := 0%Q]> ∅)
  /\ Qred <$> HybridRetriever._normalize_scores Fixture.s3_lex
    = <["B" := 1%Q]> (<["C" := 0%Q]> ∅)
  /\ Fixture.finals
       (HybridRetriever.merge_and_score (Fixture.backends_in order [] [])
          SearchConfig.default Fixture.s3_catalog "zzz"
          Fixture.s3_vec Fixture.s3_lex None None)
     = [("B", Qred (55 # 100)); ("A", Qred (45 # 100)); ("C", 0%Q)]
  /\ (0 < 45 # 100)%Q /\ (45 # 100 < 55 # 100)%Q.
Proof.
  intros Hp. split; [vm_compute; reflexivity|]. split; [vm_compute; reflexivity|].
  split; [|split; reflexivity].
  destruct (perm3_cases _ _ _ _ Hp) as [-> | [-> | [-> | [-> | [-> | ->]]]]];
    vm_compute; reflexivity.
Qed.

Lemma s3_normalised_and_ranked_witness :
  Fixture.finals
    (HybridRetriever.merge_and_score (Fixture.backends_in ["C"; "A"; "B"] [] [])
       SearchConfig.default Fixture.s3_catalog "zzz"
       Fixture.s3_vec Fixture.s3_lex None None)
  = [("B", Qred (55 # 100)); ("A", Qred (45 # 100)); ("C", 0%Q)].
Proof.
  refine (proj1 (proj2 (proj2 (s3_normalised_and_ranked ["C"; "A"; "B"] _)))).
  apply (Permutation_cons_app ["A"; "B"] [] "C"). simpl. apply Permutation_refl.
Defined.

(** C3, against the figure of the specification.  The final 0.55 given
    for [C] in scenario S3 is not what the
    fuser returns: the min-max value of [C] in the lexical channel is 0
    and it is absent from the vector channel, so its final is 0. *)
Lemma s3_final_of_C_is_not_055 :
  snd <$> List.find (fun r => String.eqb r.1 "C")
    (Fixture.finals
       (HybridRetriever.merge_and_score (Fixture.backends [] [])
          SearchConfig.default Fixture.s3_catalog "zzz"
          Fixture.s3_vec Fixture.s3_lex None None))
  = Some 0%Q
  /\ ~ (0 == 55 # 100)%Q.
Proof. split; [vm_compute; reflexivity | intros Hq; discriminate Hq]. Qed.

(** ** C1: score fusion *)

Lemma qlt_true (a b : Q) : HybridRetriever.qlt a b = true -> (a < b)%Q.
Proof.
  unfold HybridRetriever.qlt. intros Hq. apply negb_true_iff in Hq.
  apply Qnot_le_lt. intros Hle. apply Qle_bool_iff in Hle. congruence.
Qed.

Lemma qlt_false (a b : Q) : HybridRetriever.qlt a b = false -> (b <= a)%Q.
Proof.
  unfold HybridRetriever.qlt. intros Hq. apply negb_false_iff in Hq.
  now apply Qle_bool_iff.
Qed.

Lemma py_min_spec (xs : list Q) (x : Q) :
  HybridRetriever.py_min x xs ∈ x :: xs
  /\ forall y, y ∈ x :: xs -> (HybridRetriever.py_min x xs <= y)%Q.
Proof.
  revert x. induction xs as [|z xs IH]; intros x; simpl.
  - split; [left|]. intros y Hy. apply list_elem_of_singleton in Hy. subst. apply Qle_refl.
  - unfold HybridRetriever.py_min in *. simpl.
    destruct (HybridRetriever.qlt z x) eqn:Hq.
    + destruct (IH z) as [Hin Hle]. split; [now right|].
      intros y Hy. apply elem_of_cons in Hy as [-> | Hy].
      * apply Qle_trans with z; [apply Hle; left | apply Qlt_le_weak, qlt_true, Hq].
      * apply Hle, Hy.
    + destruct (IH x) as [Hin Hle]. split.
      * apply elem_of_cons in Hin as [-> | Hin]; [left | right; now right].
      * intros y Hy. apply elem_of_cons in Hy as [-> | Hy]; [apply Hle; left|].
        apply elem_of_cons in Hy as [-> | Hy].
        -- apply Qle_trans with x; [apply Hle; left | apply qlt_false, Hq].
        -- apply Hle. now right.
Qed.

Lemma py_max_spec (xs : list Q) (x : Q) :
  HybridRetriever.py_max x xs ∈ x :: xs
  /\ forall y, y ∈ x :: xs -> (y <= HybridRetriever.py_max x xs)%Q.
Proof.
  revert x. induction xs as [|z xs IH]; intros x; simpl.
  - split; [left|]. intros y Hy. apply list_elem_of_singleton in Hy. subst. apply Qle_refl.
  - unfold HybridRetriever.py_max in *. simpl.
    destruct (HybridRetriever.qlt x z) eqn:Hq.
    + destruct (IH z) as [Hin Hle]. split; [now right|].
      intros y Hy. apply elem_of_cons in Hy as [-> | Hy].
      * apply Qle_trans with z; [apply Qlt_le_weak, qlt_true, Hq | apply Hle; left].
      * apply Hle, Hy.
    + destruct (IH x) as [Hin Hle]. split.
      * apply elem_of_cons in Hin as [-> | Hin]; [left | right; now right].
      * intros y Hy. apply elem_of_cons in Hy as [-> | Hy]; [apply Hle; left|].
        apply elem_of_cons in Hy as [-> | Hy].
        -- apply Qle_trans with x; [apply qlt_false, Hq | apply Hle; left].
        -- apply Hle. now right.
Qed.

Lemma channel_value_listed (m : gmap string Q) (v : Q) :
  v ∈ (map_to_list m).*2 <-> exists k, m !! k = Some v.
Proof.
  rewrite list_elem_of_fmap. split.
  - intros [[k v'] [-> Hin]]. exists k. now apply elem_of_map_to_list in Hin.
  - intros [k Hk]. exists (k, v). split; [reflexivity|]. now apply elem_of_map_to_list.
Qed.

(** [_normalize_scores] computes the min-max value of every candidate. *)
Lemma normalize_scores_spec (m : gmap string Q) (id : string) :
  Spec.min_max_normalised m id (default 0%Q (HybridRetriever._normalize_scores m !! id)).
Proof.
  unfold Spec.min_max_normalised, HybridRetriever._normalize_scores.
  destruct ((map_to_list m).*2) as [|s0 rest] eqn:Hl.
  - destruct (m !! id) as [v|] eqn:Hid; [|now rewrite lookup_empty].
    assert (v ∈ (map_to_list m).*2) as Hin by (apply channel_value_listed; eauto).
    rewrite Hl in Hin. inversion Hin.
  - destruct (py_min_spec rest s0) as [Hmin_in Hmin].
    destruct (py_max_spec rest s0) as [Hmax_in Hmax].
    rewrite <- Hl in Hmin_in, Hmax_in.
    apply channel_value_listed in Hmin_in, Hmax_in.
    assert (forall k v, m !! k = Some v -> v ∈ s0 :: rest) as Hall.
    { intros k v Hk. rewrite <- Hl. apply channel_value_listed. eauto. }
    destruct (Qeq_bool (HybridRetriever.py_max s0 rest) (HybridRetriever.py_min s0 rest))
      eqn:Heq.
    + destruct (m !! id) as [v|] eqn:Hid; [|reflexivity]. simpl.
      exists (HybridRetriever.py_min s0 rest), (HybridRetriever.py_max s0 rest).
      split; [split; [exact Hmin_in | intros k w Hk; apply Hmin; eauto]|].
      split; [split; [exact Hmax_in | intros k w Hk; apply Hmax; eauto]|].
      left. split; [now apply Qeq_bool_iff | reflexivity].
    + rewrite lookup_fmap. destruct (m !! id) as [v|] eqn:Hid; [|reflexivity]. simpl.
      exists (HybridRetriever.py_min s0 rest), (HybridRetriever.py_max s0 rest).
      split; [split; [exact Hmin_in | intros k w Hk; apply Hmin; eauto]|].
      split; [split; [exact Hmax_in | intros k w Hk; apply Hmax; eauto]|].
      right. split; [|reflexivity].
      intros Hq. apply Qeq_bool_iff in Hq. congruence.
Qed.

Lemma min_max_in_unit (v lo hi : Q) :
  (lo <= v)%Q -> (v <= hi)%Q -> ~ (hi == lo)%Q ->
  Spec.in_unit ((v - lo) / (hi - lo))%Q.
Proof.
  intros Hlo Hhi Hne.
  assert (lo < hi)%Q as Hlt.
  { destruct (Qlt_le_dec lo hi) as [Hl | Hl]; [exact Hl|].
    exfalso. apply Hne. apply Qle_antisym; [exact Hl|].
    apply Qle_trans with v; assumption. }
  assert (0 < hi - lo)%Q as Hpos by lra.
  split.
  - apply Qle_shift_div_l; [exact Hpos | lra].
  - apply Qle_shift_div_r; [exact Hpos | lra].
Qed.

(** A channel value lies in [[0,1]] as soon as the channel holds two
    different scores, or only scores of [[0,1]]. *)
Lemma min_max_normalised_in_unit (m : gmap string Q) (id : string) (x : Q) :
  Spec.min_max_normalised m id x ->
  Spec.spread m \/ Spec.unit_scores m ->
  Spec.in_unit x.
Proof.
  unfold Spec.min_max_normalised. intros Hn Hc.
  destruct (m !! id) as [v|] eqn:Hid.
  - destruct Hn as [lo [hi [[_ Hlo] [[_ Hhi] Hx]]]].
    destruct Hx as [[Heq ->] | [Hne ->]].
    + destruct Hc as [[k1 [k2 [v1 [v2 [H1 [H2 Hd]]]]]] | Hu].
      * exfalso. apply Hd.
        pose proof (Hlo _ _ H1). pose proof (Hhi _ _ H1).
        pose proof (Hlo _ _ H2). pose proof (Hhi _ _ H2). lra.
      * apply (Hu _ _ Hid).
    + apply min_max_in_unit; eauto.
  - subst x. split; lra.
Qed.

Lemma ratio_in_unit (a b : Z) :
  0 <= a <= b -> 0 < b -> Spec.in_unit (inject_Z a / inject_Z b)%Q.
Proof.
  intros [Ha Hab] Hb.
  assert (0 < inject_Z b)%Q as Hpos by (change 0%Q with (inject_Z 0); now rewrite <- Zlt_Qlt).
  assert (0 <= inject_Z a)%Q as Ha' by (change 0%Q with (inject_Z 0); now rewrite <- Zle_Qle).
  assert (inject_Z a <= inject_Z b)%Q as Hab' by now rewrite <- Zle_Qle.
  split.
  - apply Qle_shift_div_l; [exact Hpos | lra].
  - apply Qle_shift_div_r; [exact Hpos | lra].
Qed.

Lemma exact_match_in_unit (query text : string) :
  Spec.in_unit (HybridRetriever._calculate_exact_match query text).
Proof.
  unfold HybridRetriever._calculate_exact_match.
  destruct (Py.contains _ _); [split; lra|].
  destruct (decide _) as [He | Hne]; [split; lra|].
  destruct (Qle_bool _ _); [|split; lra].
  apply ratio_in_unit.
  - split; [lia|]. apply Nat2Z.inj_le. apply subseteq_size.
    apply intersection_subseteq_l.
  - match goal with |- 0 < Z.of_nat (size ?X) => assert (size X <> 0%nat) as Hs end.
    { apply size_non_empty_iff. intros Hq. apply Hne. now apply leibniz_equiv. }
    lia.
Qed.

Lemma lower_length (s : string) : String.length (Py.lower s) = String.length s.
Proof. induction s as [|c s IH]; simpl; [reflexivity | now rewrite IH]. Qed.

Lemma position_bonus_in_unit (query text : string) (p : Q) :
  HybridRetriever._calculate_position_bonus query text = Ok p -> Spec.in_unit p.
Proof.
  unfold HybridRetriever._calculate_position_bonus.
  pose proof (find_range (Py.lower text) (Py.strip (Py.lower query))) as Hr.
  destruct (_ =? (-1)) eqn:Hf; [intros [= <-]; split; lra|].
  apply Z.eqb_neq in Hf.
  destruct (Py.len (Py.lower text) =? 0) eqn:Hl; [discriminate|].
  apply Z.eqb_neq in Hl.
  assert (0 < Py.len (Py.lower text)) as Hpos by (unfold Py.len in *; lia).
  set (ratio := Qdiv _ _).
  assert (0 <= ratio)%Q as H0.
  { subst ratio. apply Qle_shift_div_l.
    - change 0%Q with (inject_Z 0). now rewrite <- Zlt_Qlt.
    - rewrite Qmult_0_l. change 0%Q with (inject_Z 0). rewrite <- Zle_Qle. lia. }
  destruct (Qle_bool ratio (3 # 10)) eqn:Hb; intros [= <-]; [|split; lra].
  apply Qle_bool_iff in Hb. split; lra.
Qed.

(** The position bonus raises only on an empty text, which the fusion
    loop has skipped before. *)
Lemma position_bonus_returns (query text : string) :
  text <> EmptyString ->
  exists p, HybridRetriever._calculate_position_bonus query text = Ok p.
Proof.
  intros Ht. unfold HybridRetriever._calculate_position_bonus.
  destruct (_ =? (-1)); [eauto|].
  assert ((Py.len (Py.lower text) =? 0) = false) as ->.
  { apply Z.eqb_neq. unfold Py.len. rewrite lower_length.
    destruct text; [congruence | simpl; lia]. }
  destruct (Qle_bool _ _); eauto.
Qed.

Lemma insert_desc_perm (x : ScoredChunk.t) (l : list ScoredChunk.t) :
  Permutation (HybridRetriever.insert_desc x l) (x :: l).
Proof.
  induction l as [|y l IH]; simpl; [reflexivity|].
  destruct (HybridRetriever.qlt _ _); [|reflexivity].
  rewrite IH. apply perm_swap.
Qed.

Lemma sort_desc_perm (l : list ScoredChunk.t) :
  Permutation (HybridRetriever.sort_desc l) l.
Proof.
  induction l as [|x l IH]; simpl; [reflexivity|].
  unfold HybridRetriever.sort_desc in *. simpl.
  rewrite insert_desc_perm. now rewrite IH.
Qed.

Lemma slice_subseteq {A} (l : list A) (lo hi : Z) : Py.slice l lo hi ⊆ l.
Proof.
  unfold Py.slice. etransitivity; [apply subseteq_take | apply subseteq_drop].
Qed.

Lemma slice_sublist {A} (l : list A) (lo hi : Z) : Py.slice l lo hi `sublist_of` l.
Proof.
  unfold Py.slice. etransitivity; [apply sublist_take | apply sublist_drop].
Qed.

Section Fusion.
Variable B : HybridRetriever.Backends.
Variable cfg : SearchConfig.t.
Variable catalog : Catalog.t.
Variable query : string.
Variables weights : HybridRetriever.Weights.
Variables boosts : HybridRetriever.Boosts.
Variables vn ln : gmap string Q.

Let body := fun (chunk_id : string) (acc : list ScoredChunk.t) =>
  r ← HybridRetriever.score_chunk catalog query weights boosts vn ln chunk_id;
  Ok (match r with Some c => acc ++ [c] | None => acc end).

Lemma score_chunk_returns (id : string) :
  exists r, HybridRetriever.score_chunk catalog query weights boosts vn ln id = Ok r.
Proof.
  unfold HybridRetriever.score_chunk.
  destruct (Catalog.chunk_meta catalog id) as [meta|]; [|eauto].
  destruct (Catalog.get_chunk_text catalog id) as [text|]; [|eauto].
  destruct text as [|ch text]; [simpl; eauto|]. cbn [Py.truthy negb].
  destruct (position_bonus_returns query (String ch text)) as [p ->]; [discriminate|].
  simpl. eauto.
Qed.

Lemma fusion_body_eq (id : string) (acc : list ScoredChunk.t) :
  body id acc =
  match HybridRetriever.score_chunk catalog query weights boosts vn ln id with
  | Ok (Some c) => Ok (acc ++ [c])
  | Ok None => Ok acc
  | Raise e => Raise e
  | Diverge => Diverge
  end.
Proof.
  unfold body.
  destruct (HybridRetriever.score_chunk catalog query weights boosts vn ln id) as [[c|]| |];
    reflexivity.
Qed.

Lemma fusion_loop_returns (ids : list string) (acc : list ScoredChunk.t) :
  exists out, for_each ids body acc = Ok out.
Proof.
  revert acc. induction ids as [|id ids IH]; intros acc; simpl; [eauto|].
  rewrite fusion_body_eq. destruct (score_chunk_returns id) as [r ->].
  destruct r; simpl; apply IH.
Qed.

Lemma fusion_loop_elem (ids : list string) (acc out : list ScoredChunk.t) (sc : ScoredChunk.t) :
  for_each ids body acc = Ok out ->
  sc ∈ out ->
  sc ∈ acc \/
  exists id, id ∈ ids /\
    HybridRetriever.score_chunk catalog query weights boosts vn ln id = Ok (Some sc).
Proof.
  revert acc. induction ids as [|id ids IH]; intros acc; simpl.
  - intros [= <-] Hin. now left.
  - rewrite fusion_body_eq. destruct (score_chunk_returns id) as [r Hr]. rewrite Hr.
    destruct r as [c|]; simpl; intros Hf Hin;
      destruct (IH _ Hf Hin) as [Hacc | [id' [Hid' Hs]]].
    + apply elem_of_app in Hacc as [Hacc | Hc]; [now left|].
      apply list_elem_of_singleton in Hc. subst c.
      right. exists id. split; [left | exact Hr].
    + right. exists id'. split; [now right | exact Hs].
    + now left.
    + right. exists id'. split; [now right | exact Hs].
Qed.


End Fusion.

(** The fusion never raises: every chunk it scores has a non-empty text. *)
Lemma merge_and_score_returns (B : HybridRetriever.Backends) (cfg : SearchConfig.t)
    (cat : Catalog.t) (query : string) (vec lex : gmap string Q)
    (weights : option HybridRetriever.Weights) (boosts : option HybridRetriever.Boosts) :
  exists out, HybridRetriever.merge_and_score B cfg cat query vec lex weights boosts = Ok out.
Proof.
  unfold HybridRetriever.merge_and_score. cbv zeta.
  destruct (decide _); [eauto|].
  destruct (fusion_loop_returns cat query
              (default {| HybridRetriever.w_bm25_weight := SearchConfig.bm25_weight cfg;
                          HybridRetriever.w_cosine_weight := SearchConfig.cosine_weight cfg |}
                       weights)
              (default {| HybridRetriever.b_exact_boost := SearchConfig.exact_boost cfg;
                          HybridRetriever.b_early_pos_boost :=
                            SearchConfig.early_pos_boost cfg |} boosts)
              (HybridRetriever._normalize_scores vec)
              (HybridRetriever._normalize_scores lex)
              (HybridRetriever.set_order B (dom vec ∪ dom lex)) []) as [out Hout].
  rewrite Hout. simpl. eauto.
Qed.




(** ** C6: the option [max_results_per_file] *)

(** C6, on the code.  Two chunks [c1], [c2] of the file [f1] and one
    chunk [c3] of [f2] are candidates, and the fusion ranks [c1] and [c2]
    first.  With [opts = {"max_results_per_file": 2}] the response still
    holds one chunk of [f1]: [HybridRetriever.search] has already
    deduplicated with the fixed limit 1 before [run] applies the option. *)
Theorem max_results_per_file_has_no_effect :
  let vec := HybridRetriever.to_candidates [("c1", 9 # 10); ("c2", 8 # 10); ("c3", 1 # 10)] in
  let lex := HybridRetriever.to_candidates [("c1", 3 # 1); ("c2", 2 # 1)] in
  let opts := Some (<["max_results_per_file" := SearchAPI.OInt 2]> ∅) in
  let response :=
    Fixture.api_run Fixture.two_chunk_backends Fixture.two_chunk_catalog
                    SearchAPI.init "database" (Some 10) 1 10 opts Fixture.times in
  fst <$> Fixture.finals
            (HybridRetriever.merge_and_score Fixture.two_chunk_backends SearchConfig.default
               Fixture.two_chunk_catalog "database" vec lex None None)
    = ["c1"; "c2"; "c3"]
  /\ Fixture.item_chunks response = ["c1"; "c3"]
  /\ Fixture.item_files response = ["f1"; "f2"].
Proof. repeat split; vm_compute; reflexivity. Qed.

(** ** C7 and C8: the response of [SearchAPI.run] *)

Lemma cache_get_elem (key : string) (c : list (string * SearchAPI.CacheEntry))
    (e : SearchAPI.CacheEntry) :
  SearchAPI.cache_get key c = Some e -> (key, e) ∈ c.
Proof.
  induction c as [|[k e'] c IH]; simpl; [discriminate|].
  destruct (String.eqb k key) eqn:Hk.
  - apply String.eqb_eq in Hk. intros [= ->]. subst. left.
  - intros Hg. right. now apply IH.
Qed.

Lemma cache_set_elem (key k : string) (e0 e : SearchAPI.CacheEntry)
    (c : list (string * SearchAPI.CacheEntry)) :
  (k, e) ∈ SearchAPI.cache_set key e0 c -> e = e0 \/ (k, e) ∈ c.
Proof.
  induction c as [|[k' e'] c IH]; simpl.
  - intros Hin. apply list_elem_of_singleton in Hin. injection Hin as -> ->. now left.
  - destruct (String.eqb k' key).
    + intros Hin. apply elem_of_cons in Hin as [Hin | Hin].
      * injection Hin as -> ->. now left.
      * right. now right.
    + intros Hin. apply elem_of_cons in Hin as [Hin | Hin].
      * right. rewrite Hin. left.
      * destruct (IH Hin) as [-> | Hc]; [now left | right; now right].
Qed.

Lemma cache_del_elem (key k : string) (e : SearchAPI.CacheEntry)
    (c : list (string * SearchAPI.CacheEntry)) :
  (k, e) ∈ SearchAPI.cache_del key c -> (k, e) ∈ c.
Proof.
  unfold SearchAPI.cache_del. rewrite !list_elem_of_In, filter_In. tauto.
Qed.

Section Responses.
Variable H : Hashes.
Variable X : SearchAPI.Externals.
Variable cfg : SearchConfig.t.
Variable retriever_search : string -> option Z -> Q -> outcome (list ScoredChunk.t).

Let ranked_hits := SearchAPI.ranked_hits X cfg retriever_search.

(** What the lookup leaves of the cache is part of the cache. *)
Lemma get_cached_result_sub (st : SearchAPI.t) (key : string) (now : Q)
    (k : string) (e : SearchAPI.CacheEntry) :
  (k, e) ∈ SearchAPI._cache (SearchAPI._get_cached_result st key now).2 ->
  (k, e) ∈ SearchAPI._cache st.
Proof.
  unfold SearchAPI._get_cached_result.
  destruct (SearchAPI.cache_get key (SearchAPI._cache st)); [|easy].
  destruct (HybridRetriever.qlt _ _); [|easy].
  simpl. apply cache_del_elem.
Qed.

Lemma get_cached_result_hit (st : SearchAPI.t) (key : string) (now : Q)
    (cached : gmap string SearchAPI.Value) :
  (SearchAPI._get_cached_result st key now).1 = Some cached ->
  (SearchAPI._get_cached_result st key now).2 = st
  /\ exists e, (key, e) ∈ SearchAPI._cache st /\ SearchAPI.ce_result e = cached.
Proof.
  unfold SearchAPI._get_cached_result.
  destruct (SearchAPI.cache_get key (SearchAPI._cache st)) as [e|] eqn:Hg; [|discriminate].
  destruct (HybridRetriever.qlt _ _); [discriminate|].
  simpl. intros [= <-]. split; [reflexivity|].
  exists e. split; [now apply cache_get_elem | reflexivity].
Qed.

Lemma cache_result_sub (st st' : SearchAPI.t) (key : string)
    (result : gmap string SearchAPI.Value) (now : Q) (k : string)
    (e : SearchAPI.CacheEntry) :
  SearchAPI._cache_result cfg st key result now = Ok st' ->
  (k, e) ∈ SearchAPI._cache st' ->
  SearchAPI.ce_result e = result \/ (k, e) ∈ SearchAPI._cache st.
Proof.
  unfold SearchAPI._cache_result.
  destruct (_ <=? _).
  - destruct (SearchAPI.oldest_key (SearchAPI._cache st)) as [old| |]; simpl; try discriminate.
    intros [= <-]. simpl. intros Hin.
    apply cache_set_elem in Hin as [-> | Hin]; [now left|].
    right. eapply cache_del_elem, Hin.
  - simpl. intros [= <-]. simpl. intros Hin.
    apply cache_set_elem in Hin as [-> | Hin]; [now left | now right].
Qed.

Lemma cache_result_no_loop (st : SearchAPI.t) (key : string)
    (result : gmap string SearchAPI.Value) (now : Q) :
  SearchAPI._cache_result cfg st key result now <> Diverge.
Proof.
  unfold SearchAPI._cache_result.
  destruct (_ <=? _); [|easy].
  unfold SearchAPI.oldest_key. destruct (SearchAPI._cache st) as [|[k e] c]; easy.
Qed.

Lemma create_hits_no_loop (chunks : list ScoredChunk.t) (query : string)
    (opts : SearchAPI.SearchOptions) :
  SearchAPI.create_hits X chunks query opts <> Diverge.
Proof.
  induction chunks as [|c chunks IH]; simpl; [easy|].
  unfold SearchAPI._create_search_hit.
  destruct (SearchAPI.truthy _).
  - destruct (SearchAPI.as_int _) as [radius| |] eqn:Ha; simpl; try easy.
    + destruct (snippets.make_snippet _ _ _) as [[snippet s] e]. simpl.
      destruct (SearchAPI.create_hits X chunks query opts); easy.
    + destruct (SearchAPI.snippet_radius opts); discriminate.
  - simpl. destruct (SearchAPI.create_hits X chunks query opts); easy.
Qed.

Lemma ranked_hits_no_loop (query : string) (k : Z) (opts : SearchAPI.SearchOptions) :
  retriever_search query (Some k) (SearchConfig.timeout_sec cfg) <> Diverge ->
  ranked_hits query k opts <> Diverge.
Proof.
  intros Hs. unfold ranked_hits, SearchAPI.ranked_hits.
  destruct (retriever_search _ _ _) as [scored| |]; simpl; try easy.
  destruct (SearchAPI.max_results_per_file opts) as [[|]|n| |]; simpl; try easy;
    try apply create_hits_no_loop.
  destruct (0 <? n); simpl; apply create_hits_no_loop.
Qed.

(** The two ways [search_and_cache] returns. *)
Lemma search_and_cache_cases (st : SearchAPI.t) (key query : string) (k page per_page : Z)
    (opts : SearchAPI.SearchOptions) (tm : SearchAPI.Times) :
  ranked_hits query k opts <> Diverge ->
  (exists hits r st',
      ranked_hits query k opts = Ok hits
      /\ SearchAPI.success_response query page per_page hits tm = Ok r
      /\ SearchAPI._cache_result cfg st key r (SearchAPI.t_store tm) = Ok st'
      /\ SearchAPI.search_and_cache X cfg retriever_search st key query k page per_page opts tm
         = Ok (r, st'))
  \/ (exists e,
         SearchAPI.search_and_cache X cfg retriever_search st key query k page per_page opts tm
         = Ok (SearchAPI.error_response query page per_page e tm, st)
         /\ forall e', ranked_hits query k opts = Raise e' -> e = e').
Proof.
  intros Hn. unfold SearchAPI.search_and_cache. fold ranked_hits.
  destruct (ranked_hits query k opts) as [hits| e |] eqn:Hr; simpl; [| |congruence].
  - destruct (SearchAPI.success_response query page per_page hits tm) as [r| e |] eqn:Hs;
      simpl.
    + pose proof (cache_result_no_loop st key r (SearchAPI.t_store tm)) as Hc.
      destruct (SearchAPI._cache_result cfg st key r (SearchAPI.t_store tm))
        as [st'| e |] eqn:Hcr; simpl; [| |congruence].
      * left. exists hits, r, st'. auto.
      * right. exists e. split; [reflexivity | discriminate].
    + right. exists e. split; [reflexivity | discriminate].
    + unfold SearchAPI.success_response in Hs. destruct (per_page =? 0); discriminate.
  - right. exists e. split; [reflexivity|]. now intros e' [= ->].
Qed.

End Responses.

Lemma ceil_div_spec (T P : Z) : 1 <= P -> Spec.is_ceil ((T + P - 1) / P) T P.
Proof.
  intros HP. unfold Spec.is_ceil.
  pose proof (Z.div_mod (T + P - 1) P ltac:(lia)) as Hd.
  pose proof (Z.mod_pos_bound (T + P - 1) P ltac:(lia)) as Hm.
  split; nia.
Qed.

Lemma success_response_spec (query : string) (page per_page : Z)
    (hits : list SearchHit.t) (tm : SearchAPI.Times) (r : gmap string SearchAPI.Value) :
  SearchAPI.success_response query page per_page hits tm = Ok r ->
  Spec.paginates r hits page per_page
  /\ Spec.structured r
  /\ r !! "error" = None
  /\ r !! "cache_hit" = Some (SearchAPI.VBool false).
Proof.
  unfold SearchAPI.success_response.
  destruct (per_page =? 0) eqn:Hp; [discriminate|]. intros [= <-].
  split; [|split; [|split; reflexivity]].
  - exists ((Z.of_nat (length hits) + per_page - 1) / per_page),
      (page <? (Z.of_nat (length hits) + per_page - 1) / per_page), (1 <? page).
    repeat split; try reflexivity.
    + replace (page * per_page) with ((page - 1) * per_page + per_page) by ring.
      reflexivity.
    + apply ceil_div_spec. assumption.
    + apply ceil_div_spec. assumption.
    + apply Z.ltb_lt.
    + apply Z.ltb_lt.
    + apply Z.ltb_lt.
    + apply Z.ltb_lt.
  - intros f Hf. unfold Spec.response_fields in Hf.
    repeat (apply elem_of_cons in Hf as [-> | Hf]; [eexists; reflexivity|]).
    inversion Hf.
Qed.

Lemma error_response_spec (query : string) (page per_page : Z) (e : string)
    (tm : SearchAPI.Times) :
  let r := SearchAPI.error_response query page per_page e tm in
  Spec.structured r
  /\ r !! "error" = Some (SearchAPI.VStr e)
  /\ r !! "items" = Some (SearchAPI.VItems [])
  /\ r !! "total_hits" = Some (SearchAPI.VInt 0).
Proof.
  split; [|repeat split; reflexivity].
  intros f Hf. unfold Spec.response_fields in Hf.
  repeat (apply elem_of_cons in Hf as [-> | Hf]; [eexists; reflexivity|]).
  inversion Hf.
Qed.


Lemma structured_cache_hit (r : gmap string SearchAPI.Value) (v : SearchAPI.Value) :
  Spec.structured r -> Spec.structured (<["cache_hit" := v]> r).
Proof.
  intros Hs f Hf. destruct (decide (f = "cache_hit")) as [-> | Hne].
  - rewrite lookup_insert_eq. eauto.
  - rewrite lookup_insert_ne by congruence. now apply Hs.
Qed.







Example pagination_ex :
  let out := Fixture.api_run Fixture.two_chunk_backends Fixture.two_chunk_catalog
               SearchAPI.init "database" (Some 10) 2 1 None Fixture.times in
  Fixture.item_chunks out = ["c3"]
  /\ Fixture.response_of out !! "total_pages" = Some (SearchAPI.VInt 2)
  /\ Fixture.response_of out !! "has_next" = Some (SearchAPI.VBool false)
  /\ Fixture.response_of out !! "has_prev" = Some (SearchAPI.VBool true).
Proof. repeat split; vm_compute; reflexivity. Qed.

(** C8.  [run] returns a response and never raises, whatever the query,
    the options and the behaviour of the retriever (as long as its
    search comes back at all): the response carries [query],
    [total_hits], [page], [per_page], [total_pages], [has_next],
    [has_prev], [items], [search_time], [cache_hit] and [timestamp];
    a response with an [error] has [items = []]; and when the retriever
    raises and the cache has no entry for the call, [error] is the
    message of the exception.  The cache keeps holding structured
    responses without an error. *)
Theorem run_never_raises (H : Hashes) (X : SearchAPI.Externals) (cfg : SearchConfig.t)
    (retriever_search : string -> option Z -> Q -> outcome (list ScoredChunk.t))
    (st : SearchAPI.t) (query : string) (k : option Z) (page per_page : Z)
    (opts : option (gmap string SearchAPI.OptValue)) (tm : SearchAPI.Times) :
  Spec.cache_structured st ->
  retriever_search query (Some (SearchAPI.k_or_top_k cfg k)) (SearchConfig.timeout_sec cfg)
    <> Diverge ->
  exists r st',
    SearchAPI.run H X cfg retriever_search st query k page per_page opts tm = Ok (r, st')
    /\ Spec.structured r
    /\ Spec.cache_structured st'
    /\ (forall v, r !! "error" = Some v ->
          r !! "items" = Some (SearchAPI.VItems []) /\ exists e, v = SearchAPI.VStr e)
    /\ (forall e,
          SearchAPI.cache_get
            (SearchAPI._generate_cache_key H X query (SearchAPI.k_or_top_k cfg k)
               page per_page (default ∅ opts)) (SearchAPI._cache st) = None ->
          retriever_search query (Some (SearchAPI.k_or_top_k cfg k))
            (SearchConfig.timeout_sec cfg) = Raise e ->
          r !! "error" = Some (SearchAPI.VStr e)
          /\ r !! "items" = Some (SearchAPI.VItems [])).
Proof.
  intros Hinv Hterm. unfold SearchAPI.run. cbv zeta.
  set (key := SearchAPI._generate_cache_key H X query (SearchAPI.k_or_top_k cfg k)
                page per_page (default ∅ opts)) in *.
  set (sopts := SearchAPI.search_options cfg (default ∅ opts)) in *.
  set (lookup := SearchAPI._get_cached_result st key (SearchAPI.t_lookup tm)) in *.
  assert (Spec.cache_structured lookup.2) as Hinv0.
  { intros k0 e0 Hin. eapply Hinv, get_cached_result_sub, Hin. }
  assert (exists r st',
             SearchAPI.search_and_cache X cfg retriever_search lookup.2 key query
               (SearchAPI.k_or_top_k cfg k) page per_page sopts tm = Ok (r, st')
             /\ Spec.structured r /\ Spec.cache_structured st'
             /\ (forall v, r !! "error" = Some v ->
                   r !! "items" = Some (SearchAPI.VItems [])
                   /\ exists e, v = SearchAPI.VStr e)
             /\ (forall e,
                   retriever_search query (Some (SearchAPI.k_or_top_k cfg k))
                     (SearchConfig.timeout_sec cfg) = Raise e ->
                   r !! "error" = Some (SearchAPI.VStr e)
                   /\ r !! "items" = Some (SearchAPI.VItems []))) as Hfresh.
  { pose proof (ranked_hits_no_loop X cfg retriever_search query
                  (SearchAPI.k_or_top_k cfg k) sopts Hterm) as Hnl.
    destruct (search_and_cache_cases X cfg retriever_search lookup.2 key query
                (SearchAPI.k_or_top_k cfg k) page per_page sopts tm Hnl)
      as [(hits & r & st' & Hh & Hs & Hc & Heq) | (e & Heq & Hraise)].
    - exists r, st'. split; [exact Heq|].
      destruct (success_response_spec _ _ _ _ _ _ Hs) as (_ & Hstr & Herr & _).
      split; [exact Hstr|]. split; [|split].
      + intros k0 e0 Hin.
        destruct (cache_result_sub _ _ _ _ _ _ _ _ Hc Hin) as [-> | Hold];
          [split; assumption | exact (Hinv0 _ _ Hold)].
      + intros v Hv. congruence.
      + intros e He. unfold SearchAPI.ranked_hits in Hh. rewrite He in Hh. discriminate.
    - exists (SearchAPI.error_response query page per_page e tm), lookup.2.
      destruct (error_response_spec query page per_page e tm) as (Hstr & Herr & Hitems & _).
      cbv zeta in Hstr, Herr, Hitems.
      split; [exact Heq|]. split; [exact Hstr|]. split; [exact Hinv0|]. split.
      + intros v Hv. rewrite Herr in Hv. injection Hv as <-. split; [exact Hitems | eauto].
      + intros e' He'. rewrite <- (Hraise e'); [now split|].
        unfold SearchAPI.ranked_hits. now rewrite He'. }
  destruct lookup.1 as [cached|] eqn:Hl.
  - destruct (decide (cached = ∅)) as [He | Hne].
    + destruct Hfresh as (r & st' & Heq & Hstr & Hc & Herr & Hraise).
      exists r, st'. repeat (split; [assumption|]). intros e _. apply Hraise.
    + destruct (get_cached_result_hit _ _ _ _ Hl) as [Hst [e [Hin Hres]]].
      fold lookup in Hst. rewrite Hst in *.
      destruct (Hinv _ _ Hin) as [Hstr Herr]. rewrite Hres in Hstr, Herr.
      eexists _, _. split; [reflexivity|].
      split; [now apply structured_cache_hit|]. split; [|split].
      * intros k0 e0 Hin0. simpl in Hin0.
        apply cache_set_elem in Hin0 as [-> | Hold]; [|exact (Hinv _ _ Hold)].
        simpl. split; [now apply structured_cache_hit|].
        rewrite lookup_insert_ne by discriminate. exact Herr.
      * intros v Hv. rewrite lookup_insert_ne in Hv by discriminate. congruence.
      * intros e' Hnone. exfalso. clear -Hl Hnone. subst lookup.
        unfold SearchAPI._get_cached_result in Hl. rewrite Hnone in Hl. discriminate.
  - destruct Hfresh as (r & st' & Heq & Hstr & Hc & Herr & Hraise).
    exists r, st'. repeat (split; [assumption|]). intros e _. apply Hraise.
Qed.

Lemma run_never_raises_witness :
  Fixture.response_of
    (SearchAPI.run Fixture.hashes Fixture.externals SearchConfig.default
       Fixture.failing_search SearchAPI.init "database" None 1 10 None Fixture.times)
    !! "error" = Some (SearchAPI.VStr "retrieval failed").
Proof.
  destruct (run_never_raises Fixture.hashes Fixture.externals SearchConfig.default
              Fixture.failing_search SearchAPI.init "database" None 1 10 None Fixture.times)
    as (r & st' & Hrun & _ & _ & _ & Hraise).
  - intros key e Hin. inversion Hin.
  - discriminate.
  - rewrite Hrun. simpl. apply (Hraise "retrieval failed"); reflexivity.
Defined.

(** The real retriever always comes back: neither an exception nor a
    loop. *)
Lemma search_returns (B : HybridRetriever.Backends) (cfg : SearchConfig.t)
    (cat : Catalog.t) (query : string) (k : option Z) (timeout : Q) :
  exists out, HybridRetriever.search B cfg cat query k timeout = Ok out.
Proof.
  unfold HybridRetriever.search.
  destruct (HybridRetriever.embed_query B query) as [emb|]; [|eauto].
  destruct (merge_and_score_returns B cfg cat query
              (HybridRetriever.vector_candidates B cfg emb timeout)
              (HybridRetriever.lexical_candidates B cfg query) None None) as [out ->].
  simpl. eauto.
Qed.

(** ** C5: the chunker *)

Lemma split_from_words (s cur : string) :
  cur = EmptyString \/ Spec.starts_word cur ->
  forall w, w ∈ Py.split_from s cur -> Spec.starts_word w.
Proof.
  revert cur. induction s as [|c s IH]; intros cur Hcur w; simpl.
  - destruct cur as [|d cur].
    + intros Hin. inversion Hin.
    + intros Hin. apply list_elem_of_singleton in Hin. subst w.
      destruct Hcur as [Hc | Hc]; [discriminate | exact Hc].
  - destruct (Py.is_space c) eqn:Hsp.
    + destruct cur as [|d cur].
      * apply IH. now left.
      * intros Hin. apply elem_of_cons in Hin as [-> | Hin].
        -- destruct Hcur as [Hc | Hc]; [discriminate | exact Hc].
        -- revert Hin. apply IH. now left.
    + apply IH. right. destruct cur as [|d cur].
      * exists c, EmptyString. split; [reflexivity | exact Hsp].
      * destruct Hcur as [Hc | (d' & r & Hc & Hd)]; [discriminate|].
        injection Hc as -> ->. exists d', (r +:+ String c EmptyString).
        split; [reflexivity | exact Hd].
Qed.

Lemma split_words (text w : string) : w ∈ Py.split text -> Spec.starts_word w.
Proof. apply split_from_words. now left. Qed.

Lemma strip_starts_word (s : string) :
  Spec.starts_word s -> Py.truthy (Py.strip s) = true.
Proof.
  intros (c & r & -> & Hc). unfold Py.strip. simpl.
  destruct (Py.rstrip r); rewrite ?Hc; simpl; rewrite Hc; reflexivity.
Qed.

Lemma join_starts_word (w : string) (ws : list string) :
  Spec.starts_word w -> Spec.starts_word (Py.join " " (w :: ws)).
Proof.
  intros (c & r & -> & Hc). destruct ws as [|w' ws]; simpl.
  - exists c, r. auto.
  - exists c, (r +:+ " " +:+ Py.join " " (w' :: ws)). auto.
Qed.

Lemma slice_window {A} (l : list A) (i m : Z) :
  0 <= i < Z.of_nat (length l) -> 0 < m ->
  Z.of_nat (length (Py.slice l i (i + m))) = Z.min (i + m) (Z.of_nat (length l)) - i
  /\ exists x rest, Py.slice l i (i + m) = x :: rest /\ x ∈ l.
Proof.
  intros Hi Hm. unfold Py.slice, Py.clamp.
  destruct (i <? 0) eqn:Hlt; [lia|]. destruct (i + m <? 0) eqn:Hlt'; [lia|].
  rewrite (Z.min_l i) by lia.
  assert (length (take (Z.to_nat (Z.min (i + m) (Z.of_nat (length l)) - i))
                       (drop (Z.to_nat i) l))
          = Z.to_nat (Z.min (i + m) (Z.of_nat (length l)) - i)) as Hlen.
  { rewrite length_take, length_drop. lia. }
  split; [rewrite Hlen; lia|].
  destruct (take _ (drop (Z.to_nat i) l)) as [|x rest] eqn:Ht.
  - simpl in Hlen. lia.
  - exists x, rest. split; [reflexivity|].
    assert (x ∈ take (Z.to_nat (Z.min (i + m) (Z.of_nat (length l)) - i))
                     (drop (Z.to_nat i) l)) as Hin by (rewrite Ht; left).
    now apply subseteq_take, subseteq_drop in Hin.
Qed.

Section Chunker.
Variable H : Hashes.
Variable W : BFSIndexer.World.
Variable cfg : IndexConfig.t.
Variables text file_path file_id : string.
Variable s : BFSIndexer.Stat.
Hypothesis stat_ok : BFSIndexer.stat W file_path = Some s.
Hypothesis overlap_lt : IndexConfig.overlap cfg < IndexConfig.max_tokens cfg.
Hypothesis max_pos : 0 < IndexConfig.max_tokens cfg.

Let words := Py.split text.
Let len := Z.of_nat (length words).
Let step := IndexConfig.max_tokens cfg - IndexConfig.overlap cfg.
Let window := fun j : nat =>
  Spec.window_chunk H cfg words file_path file_id (BFSIndexer.st_mtime s) (Z.of_nat j).

Lemma chunk_loop_windows (fuel j : nat) (acc : list Chunk.t) :
  Z.max 0 (len - Z.of_nat j * step) < Z.of_nat fuel ->
  exists m : nat,
    BFSIndexer.chunk_loop H W cfg fuel words file_path file_id
      (Z.of_nat j * step) (Z.of_nat j) acc
    = Ok (acc ++ (window <$> seq j m))
    /\ len <= Z.of_nat (j + m) * step
    /\ (forall i : nat, (j <= i < j + m)%nat -> Z.of_nat i * step < len).
Proof.
  revert j acc. induction fuel as [|fuel IH]; intros j acc Hfuel.
  - exfalso. lia.
  - assert (0 < step) as Hstep by (subst step; lia).
    simpl. fold len.
    destruct (Z.of_nat j * step <? len) eqn:Hlt.
    + apply Z.ltb_lt in Hlt.
      destruct (slice_window words (Z.of_nat j * step) (IndexConfig.max_tokens cfg))
        as [Hlen (x & rest & Hsl & Hx)]; [subst len; lia | lia |].
      assert (Py.truthy (Py.strip (Py.join " " (Py.slice words (Z.of_nat j * step)
                (Z.of_nat j * step + IndexConfig.max_tokens cfg)))) = true) as ->.
      { rewrite Hsl. apply strip_starts_word, join_starts_word.
        apply (split_words text). exact Hx. }
      simpl. rewrite stat_ok.
      replace (Z.of_nat j * step + (IndexConfig.max_tokens cfg - IndexConfig.overlap cfg))
        with (Z.of_nat (S j) * step) by (subst step; lia).
      replace (Z.of_nat j + 1) with (Z.of_nat (S j)) by lia.
      destruct (IH (S j) (acc ++ [window j])) as (m & Hm & Hcover & Hin); [lia|].
      exists (S m). split; [|split].
      * rewrite Hlen in *. fold len.
        replace (Z.of_nat j * step
                 + (Z.min (Z.of_nat j * step + IndexConfig.max_tokens cfg) len
                    - Z.of_nat j * step))
          with (Z.min (Z.of_nat j * step + IndexConfig.max_tokens cfg) len) by lia.
        unfold window, Spec.window_chunk in Hm. fold step len in Hm. cbv zeta in Hm.
        rewrite Hm. unfold window, Spec.window_chunk. fold step len. cbv zeta.
        simpl. now rewrite <- app_assoc.
      * replace (j + S m)%nat with (S j + m)%nat by lia. exact Hcover.
      * intros i Hi. destruct (decide (i = j)) as [-> | Hne]; [exact Hlt|].
        apply Hin. lia.
    + apply Z.ltb_ge in Hlt. exists 0%nat. simpl. rewrite app_nil_r.
      split; [reflexivity|]. split; [|lia].
      replace (j + 0)%nat with j by lia. exact Hlt.
Qed.

Lemma window_count (m : nat) :
  len <= Z.of_nat m * step ->
  (forall i : nat, (i < m)%nat -> Z.of_nat i * step < len) ->
  m = Z.to_nat ((len + step - 1) / step).
Proof.
  intros Hcover Hin.
  assert (0 < step) as Hstep by (subst step; lia).
  assert (0 <= len) as Hlen by (subst len; lia).
  destruct (ceil_div_spec len step ltac:(lia)) as [Hlo Hhi].
  set (n := (len + step - 1) / step) in *.
  assert (0 <= n) as Hn by nia.
  apply Nat2Z.inj. rewrite Z2Nat.id by exact Hn.
  destruct m as [|m'].
  - simpl in Hcover. assert (len = 0) by lia. nia.
  - specialize (Hin m' ltac:(lia)). nia.
Qed.

End Chunker.

(** C5.  For a file that can be stat'ed, [overlap < max_tokens] and a
    positive [max_tokens], the chunker returns, for the whitespace
    tokens of the text, the chunks of the windows [0 .. n-1], where [n]
    is the number of windows that start inside the token list (the
    ceiling of [len / (max_tokens - overlap)]): chunk [i] has [idx = i],
    [token_start = i * (max_tokens - overlap)] and
    [token_end = min(token_start + max_tokens, len)], so a window that
    reaches past the end is cut to the remaining tokens, and every chunk
    emitted is non-empty. *)
Theorem chunk_text_windows (H : Hashes) (W : BFSIndexer.World) (cfg : IndexConfig.t)
    (text file_path file_id : string) (s : BFSIndexer.Stat) :
  BFSIndexer.stat W file_path = Some s ->
  IndexConfig.overlap cfg < IndexConfig.max_tokens cfg ->
  0 < IndexConfig.max_tokens cfg ->
  let words := Py.split text in
  let len := Z.of_nat (length words) in
  let step := IndexConfig.max_tokens cfg - IndexConfig.overlap cfg in
  let n := (len + step - 1) / step in
  let window := fun j : nat =>
    Spec.window_chunk H cfg words file_path file_id (BFSIndexer.st_mtime s) (Z.of_nat j) in
  BFSIndexer._chunk_text H W cfg text file_path file_id = Ok (window <$> seq 0 (Z.to_nat n))
  /\ Spec.is_ceil n len step
  /\ forall j : nat,
       Z.of_nat j < n ->
       Chunk.idx (window j) = Z.of_nat j
       /\ Chunk.token_start (window j) = Z.of_nat j * step
       /\ Chunk.token_end (window j)
          = Z.min (Z.of_nat j * step + IndexConfig.max_tokens cfg) len
       /\ Chunk.token_start (window j) < Chunk.token_end (window j)
       /\ Chunk.text (window j)
          = Py.join " " (Py.slice words (Chunk.token_start (window j))
                                  (Chunk.token_end (window j))).
Proof.
  intros Hstat Hov Hmax words len step n window.
  assert (0 < step) as Hstep by (subst step; lia).
  destruct (ceil_div_spec len step ltac:(lia)) as [Hlo Hhi]. fold n in Hlo, Hhi.
  split; [|split; [split; assumption|]].
  - unfold BFSIndexer._chunk_text. fold words.
    destruct (chunk_loop_windows H W cfg text file_path file_id s Hstat Hov Hmax
                (length words + Z.to_nat (IndexConfig.max_tokens cfg) + 2) 0 [])
      as (m & Hm & Hcover & Hin).
    { fold words. lia. }
    etransitivity; [exact Hm|]. simpl. f_equal.
    rewrite (window_count cfg text Hov m).
    + reflexivity.
    + exact Hcover.
    + intros i Hi. apply Hin. lia.
  - intros j Hj. unfold window, Spec.window_chunk. cbv zeta. cbn [Chunk.idx Chunk.token_start
      Chunk.token_end Chunk.text]. fold step len.
    assert (Z.of_nat j * step < len) as Hstart by nia.
    repeat split; try reflexivity; [lia|].
    unfold Py.slice, Py.clamp. fold len.
    destruct (Z.of_nat j * step <? 0) eqn:H1; [lia|].
    destruct (Z.of_nat j * step + IndexConfig.max_tokens cfg <? 0) eqn:H2; [lia|].
    destruct (Z.min (Z.of_nat j * step + IndexConfig.max_tokens cfg) len <? 0) eqn:H3; [lia|].
    rewrite (Z.min_l (Z.min _ _) len) by lia. reflexivity.
Qed.

Lemma chunk_text_windows_witness :
  Fixture.windows_of
    (BFSIndexer._chunk_text Fixture.hashes Fixture.html_world Fixture.small_windows
       "a b c  d e" "/r/page.html" "fid")
  = [(0, 0, 3, "a b c"); (1, 2, 5, "c d e"); (2, 4, 5, "e")].
Proof.
  destruct (chunk_text_windows Fixture.hashes Fixture.html_world Fixture.small_windows
              "a b c  d e" "/r/page.html" "fid"
              {| BFSIndexer.st_dev := 1; BFSIndexer.st_ino := 3;
                 BFSIndexer.st_kind := BFSIndexer.KFile;
                 BFSIndexer.st_size := 9; BFSIndexer.st_mtime := 1700000000 |})
    as [Heq _].
  - reflexivity.
  - reflexivity.
  - reflexivity.
  - rewrite Heq. vm_compute. reflexivity.
Defined.

(** ** C2: a second index over unchanged files *)

(** The skip of [_process_file] compares the hash of the bytes of the
    file with the stored hash; it is taken exactly when the two agree. *)
Lemma process_file_skips_on_byte_hash (H : Hashes) (W : BFSIndexer.World)
    (cfg : IndexConfig.t) (file_path stored : string) (s : BFSIndexer.Stat)
    (st : BFSIndexer.t) :
  BFSIndexer.suffix W file_path ∈ IndexConfig.allow_exts cfg ->
  BFSIndexer._should_exclude W cfg file_path = false ->
  BFSIndexer.stat W file_path = Some s ->
  Catalog.file_sha256 (BFSIndexer.catalog st)
    (ids.file_id H file_path (BFSIndexer.st_mtime s) (BFSIndexer.st_size s)) = Some stored ->
  stored <> EmptyString ->
  BFSIndexer.generate_file_sha256 H W file_path = Some stored ->
  BFSIndexer._process_file H W cfg file_path st
  = BFSIndexer.Done (BFSIndexer.skipped st).
Proof.
  intros Hext Hexcl Hstat Hrow Hne Hsha. unfold BFSIndexer._process_file.
  rewrite bool_decide_eq_true_2 by exact Hext. simpl. rewrite Hexcl.
  unfold BFSIndexer.get_file_stats. rewrite Hstat. simpl. rewrite Hrow.
  rewrite bool_decide_eq_true_2 by exact Hsha.
  destruct stored; [congruence | reflexivity].
Qed.

(** The hash stored by the ingestion is the hash of the extracted text.
    When it differs from the hash of the bytes of the file, a second
    [_process_file] of the file, unchanged, extracts, chunks and embeds
    again. *)
Lemma process_file_rechunks (H : Hashes) (W : BFSIndexer.World) (cfg : IndexConfig.t)
    (file_path text raw : string) (s : BFSIndexer.Stat) (st : BFSIndexer.t)
    (chunks : list Chunk.t) :
  BFSIndexer.suffix W file_path ∈ IndexConfig.allow_exts cfg ->
  BFSIndexer._should_exclude W cfg file_path = false ->
  BFSIndexer.stat W file_path = Some s ->
  BFSIndexer.read_bytes W file_path = Some raw ->
  BFSIndexer.extract_text W file_path = Some text ->
  text <> EmptyString ->
  BFSIndexer.embed W (Chunk.text <$> chunks) = true ->
  Catalog.file_sha256 (BFSIndexer.catalog st)
    (ids.file_id H file_path (BFSIndexer.st_mtime s) (BFSIndexer.st_size s))
    = Some (sha256_hex H text) ->
  sha256_hex H raw <> sha256_hex H text ->
  BFSIndexer._chunk_text H W cfg text file_path
    (ids.file_id H file_path (BFSIndexer.st_mtime s) (BFSIndexer.st_size s)) = Ok chunks ->
  exists st',
    BFSIndexer._process_file H W cfg file_path st = BFSIndexer.Done st'
    /\ IndexStats.chunks_created (BFSIndexer.stats st')
       = IndexStats.chunks_created (BFSIndexer.stats st) + Z.of_nat (length chunks)
    /\ IndexStats.files_skipped (BFSIndexer.stats st')
       = IndexStats.files_skipped (BFSIndexer.stats st)
    /\ BFSIndexer.upserted st' = BFSIndexer.upserted st ++ (Chunk.chunk_id <$> chunks).
Proof.
  intros Hext Hexcl Hstat Hraw Htext Hne Hembed Hrow Hdiff Hchunks.
  unfold BFSIndexer._process_file.
  rewrite bool_decide_eq_true_2 by exact Hext. simpl. rewrite Hexcl.
  unfold BFSIndexer.get_file_stats. rewrite Hstat. simpl. rewrite Hrow.
  unfold BFSIndexer.generate_file_sha256. rewrite Hraw. simpl.
  rewrite bool_decide_eq_false_2 by congruence. rewrite andb_false_r.
  rewrite Htext. destruct text as [|c text]; [congruence|]. cbn [Py.truthy negb].
  rewrite Hchunks. unfold BFSIndexer._embed_and_upsert. cbn [BFSIndexer.catalog
    BFSIndexer.upserted BFSIndexer.stats]. rewrite Hembed.
  eexists. split; [reflexivity|]. simpl. auto.
Qed.

(** C2, on the code.  The root [/r] holds the HTML page [page.html] with
    the bytes ["<p>hi</p>"], from which the extractor returns ["hi"].
    The first complete index stores the SHA-256 of the text ["hi"]; the
    second one, over the unchanged file, compares it with the SHA-256 of
    the bytes, finds them different, and chunks and embeds the file
    again: one chunk created, nothing skipped, the same point sent to the
    vector store a second time. *)
Theorem second_index_rechunks_unchanged_file :
  (fun r => Catalog.file_sha256 (BFSIndexer.catalog r.2)
              "798d921f48683f32122d6eb7aa10dda5990fd12e") <$> Fixture.first_index
    = Some (Some "8f434346648f6b96df89dda901c5176b10a6d83961dd3c1ac88b59b2dc327aa4")
  /\ BFSIndexer.generate_file_sha256 Fixture.hashes Fixture.html_world "/r/page.html"
     = Some "0a4735281db700223af63abc387c351f64ea6961a1ef955631df08d96169e772"
  /\ (fun r => BFSIndexer.upserted r.2) <$> Fixture.first_index
     = Some ["7a8a514a-df7d-5d6b-aeaa-752174ab1c80"]
  /\ (fun r => IndexStats.chunks_created r.1.1) <$> Fixture.second_index = Some 1
  /\ (fun r => IndexStats.files_skipped r.1.1) <$> Fixture.second_index = Some 0
  /\ (fun r => BFSIndexer.upserted r.2) <$> Fixture.second_index
     = Some ["7a8a514a-df7d-5d6b-aeaa-752174ab1c80"; "7a8a514a-df7d-5d6b-aeaa-752174ab1c80"].
Proof. repeat split; vm_compute; reflexivity. Qed.

(** ** C4: the frontier *)

(** C4, against the invariant of the specification.  The queue is not
    kept free of seen paths.  With the roots [/a] and
    [/b] and slices of one item, the third slice finds the queue empty,
    seeds both roots again and pops [/a]: the frontier it writes queues
    [/b], which [seen] records with the [(device, inode)] it still has. *)
Lemma reseeded_root_is_queued_and_seen :
  ~ Spec.frontier_claim Fixture.hashes Fixture.two_roots_world Fixture.index_config
      ["/a"; "/b"] (Some 1).
Proof.
  intros Hclaim.
  assert (Spec.reachable Fixture.hashes Fixture.two_roots_world Fixture.index_config
            ["/a"; "/b"] (Some 1) (Some Fixture.frontier3)) as Hreach.
  { apply (Spec.reach_slice _ _ _ _ _ (Some Fixture.frontier2) BFSIndexer.init
             (Fixture.indexer_of (Fixture.slice (Some Fixture.frontier2)))).
    - apply (Spec.reach_slice _ _ _ _ _ (Some Fixture.frontier1) BFSIndexer.init
               (Fixture.indexer_of (Fixture.slice (Some Fixture.frontier1)))).
      + apply (Spec.reach_slice _ _ _ _ _ None BFSIndexer.init
                 (Fixture.indexer_of (Fixture.slice None))).
        * constructor.
        * vm_compute. reflexivity.
      + vm_compute. reflexivity.
    - vm_compute. reflexivity. }
  apply Hclaim in Hreach.
  apply (Hreach "/b" {| BFSIndexer.st_dev := 1; BFSIndexer.st_ino := 3;
                        BFSIndexer.st_kind := BFSIndexer.KDir;
                        BFSIndexer.st_size := 64; BFSIndexer.st_mtime := 1700000000 |}).
  - vm_compute. left.
  - reflexivity.
  - vm_compute. reflexivity.
Qed.

Lemma process_item_skips_seen (H : Hashes) (W : BFSIndexer.World) (cfg : IndexConfig.t)
    (item_path : string) (frontier : FrontierState.t) (st : BFSIndexer.t) :
  Spec.seen_as_is W frontier item_path ->
  BFSIndexer._process_item H W cfg item_path (frontier, st) = BFSIndexer.Done (frontier, st).
Proof.
  intros (s & Hstat & Hseen). unfold BFSIndexer._process_item.
  rewrite Hstat. now rewrite bool_decide_eq_true_2 by exact Hseen.
Qed.

(** C4, as the code has it.  The check against [seen] is made when a
    path is taken off the queue: a path recorded in [seen] with the
    [(device, inode)] it has now is skipped, and processing it, or a
    whole level of such paths, changes neither the frontier (queue, seen
    map, counters, error list) nor the catalog, the vector store and the
    statistics. *)
Theorem seen_paths_are_skipped (H : Hashes) (W : BFSIndexer.World) (cfg : IndexConfig.t)
    (items : list string) (frontier : FrontierState.t) (st : BFSIndexer.t) :
  (forall p, p ∈ items -> Spec.seen_as_is W frontier p) ->
  (forall p, p ∈ items ->
     BFSIndexer._process_item H W cfg p (frontier, st) = BFSIndexer.Done (frontier, st))
  /\ BFSIndexer.process_level H W cfg items (frontier, st) = Some (frontier, st).
Proof.
  intros Hseen. split.
  - intros p Hp. apply process_item_skips_seen. now apply Hseen.
  - induction items as [|p items IH]; [reflexivity|]. cbn [BFSIndexer.process_level].
    rewrite process_item_skips_seen by (apply Hseen; left).
    apply IH. intros q Hq. apply Hseen. now right.
Qed.

Lemma seen_paths_are_skipped_witness :
  BFSIndexer.process_level Fixture.hashes Fixture.two_roots_world Fixture.index_config
    ["/b"; "/a"] (Fixture.frontier3, BFSIndexer.init)
  = Some (Fixture.frontier3, BFSIndexer.init).
Proof.
  refine (proj2 (seen_paths_are_skipped Fixture.hashes Fixture.two_roots_world
                   Fixture.index_config ["/b"; "/a"] Fixture.frontier3 BFSIndexer.init _)).
  intros p Hp.
  apply elem_of_cons in Hp as [-> | Hp]; [|apply list_elem_of_singleton in Hp; subst p].
  - exists {| BFSIndexer.st_dev := 1; BFSIndexer.st_ino := 3;
              BFSIndexer.st_kind := BFSIndexer.KDir;
              BFSIndexer.st_size := 64; BFSIndexer.st_mtime := 1700000000 |}.
    split; [reflexivity | vm_compute; reflexivity].
  - exists {| BFSIndexer.st_dev := 1; BFSIndexer.st_ino := 2;
              BFSIndexer.st_kind := BFSIndexer.KDir;
              BFSIndexer.st_size := 64; BFSIndexer.st_mtime := 1700000000 |}.
    split; [reflexivity | vm_compute; reflexivity].
Defined.

(** ** C6, for every limit: one chunk per file *)

Lemma add_to_file_keys (c : ScoredChunk.t) (fb : list (string * list ScoredChunk.t))
    (k : string) :
  k ∈ (HybridRetriever.add_to_file c fb).*1 -> k ∈ fb.*1 \/ k = ScoredChunk.file_id c.
Proof.
  induction fb as [|[f cs] fb IH]; simpl.
  - intros Hk. apply list_elem_of_singleton in Hk. now right.
  - destruct (String.eqb f (ScoredChunk.file_id c)); simpl.
    + intros Hk. now left.
    + intros Hk. apply elem_of_cons in Hk as [-> | Hk]; [left; left|].
      destruct (IH Hk) as [Hin | ->]; [left; now right | now right].
Qed.

Lemma add_to_file_grouped (c : ScoredChunk.t) (fb : list (string * list ScoredChunk.t)) :
  Spec.grouped_by_file fb -> Spec.grouped_by_file (HybridRetriever.add_to_file c fb).
Proof.
  induction fb as [|[f cs] fb IH]; intros [Hnd Hmem]; simpl.
  - split; [apply NoDup_singleton|].
    intros f cs c' Hin Hc. apply list_elem_of_singleton in Hin. injection Hin as -> ->.
    apply list_elem_of_singleton in Hc. now subst.
  - simpl in Hnd. apply NoDup_cons in Hnd as [Hf Hnd].
    assert (Spec.grouped_by_file fb) as Hfb.
    { split; [exact Hnd|]. intros f' cs' c' Hin. apply (Hmem f' cs' c'). now right. }
    destruct (String.eqb f (ScoredChunk.file_id c)) eqn:Heq.
    + apply String.eqb_eq in Heq. split; [simpl; apply NoDup_cons; now split|].
      intros f' cs' c' Hin Hc. apply elem_of_cons in Hin as [Hin | Hin].
      * injection Hin as -> ->. apply elem_of_app in Hc as [Hc | Hc].
        -- apply (Hmem f cs c'); [left | exact Hc].
        -- apply list_elem_of_singleton in Hc. now subst.
      * apply (Hmem f' cs' c'); [now right | exact Hc].
    + apply String.eqb_neq in Heq. destruct (IH Hfb) as [Hnd' Hmem'].
      split.
      * simpl. apply NoDup_cons. split; [|exact Hnd'].
        intros Hk. apply add_to_file_keys in Hk as [Hk | Hk]; [now apply Hf | congruence].
      * intros f' cs' c' Hin Hc. apply elem_of_cons in Hin as [Hin | Hin].
        -- injection Hin as -> ->. apply (Hmem f cs c'); [left | exact Hc].
        -- apply (Hmem' f' cs' c'); assumption.
Qed.

Lemma file_best_grouped (l : list ScoredChunk.t) (fb : list (string * list ScoredChunk.t)) :
  Spec.grouped_by_file fb ->
  Spec.grouped_by_file (foldl (fun fb c => HybridRetriever.add_to_file c fb) fb l).
Proof.
  revert fb. induction l as [|c l IH]; intros fb Hfb; simpl; [exact Hfb|].
  apply IH, add_to_file_grouped, Hfb.
Qed.

Lemma add_to_file_chunks (c : ScoredChunk.t) (fb : list (string * list ScoredChunk.t)) :
  Permutation (flat_map snd (HybridRetriever.add_to_file c fb)) (flat_map snd fb ++ [c]).
Proof.
  induction fb as [|[f cs] fb IH]; simpl; [reflexivity|].
  destruct (String.eqb f (ScoredChunk.file_id c)); simpl.
  - rewrite <- !app_assoc. apply Permutation_app_head. apply Permutation_app_comm.
  - rewrite IH. now rewrite app_assoc.
Qed.

Lemma file_best_chunks (l : list ScoredChunk.t) (fb : list (string * list ScoredChunk.t)) :
  Permutation (flat_map snd (foldl (fun fb c => HybridRetriever.add_to_file c fb) fb l))
              (flat_map snd fb ++ l).
Proof.
  revert fb. induction l as [|c l IH]; intros fb; simpl; [now rewrite app_nil_r|].
  rewrite IH, add_to_file_chunks. now rewrite <- app_assoc.
Qed.

(** Whatever the limit, [dedupe_by_file] returns chunks of its input,
    each at most as often as the input holds it. *)
Lemma dedupe_by_file_submseteq (l : list ScoredChunk.t) (n : Z) :
  HybridRetriever.dedupe_by_file l n ⊆+ l.
Proof.
  unfold HybridRetriever.dedupe_by_file. rewrite sort_desc_perm.
  pose proof (file_best_chunks l []) as Hp. simpl in Hp.
  etransitivity; [|apply Permutation_submseteq, Hp]. clear Hp.
  generalize (foldl (fun fb c => HybridRetriever.add_to_file c fb) [] l).
  intros fb. induction fb as [|[f cs] fb IH]; simpl; [reflexivity|].
  apply submseteq_app; [|exact IH].
  etransitivity; [apply sublist_submseteq, slice_sublist|].
  apply Permutation_submseteq, sort_desc_perm.
Qed.

Lemma submseteq_NoDup_fmap {A B} (f : A -> B) (l1 l2 : list A) :
  l1 ⊆+ l2 -> NoDup (f <$> l2) -> NoDup (f <$> l1).
Proof.
  intros Hsub Hnd. apply submseteq_Permutation in Hsub as [k Hk].
  rewrite Hk, fmap_app in Hnd. now apply NoDup_app in Hnd as [Hnd _].
Qed.

Lemma slice_first {A} (l : list A) : (length (Py.slice l 0 1) <= 1)%nat.
Proof.
  unfold Py.slice, Py.clamp. cbn [Z.ltb Z.compare].
  rewrite length_take. lia.
Qed.

(** With the limit 1 the result holds one chunk per [file_id]. *)
Lemma dedupe_by_file_one (l : list ScoredChunk.t) :
  NoDup (ScoredChunk.file_id <$> HybridRetriever.dedupe_by_file l 1).
Proof.
  unfold HybridRetriever.dedupe_by_file. rewrite sort_desc_perm.
  pose proof (file_best_grouped l []) as Hg.
  assert (Spec.grouped_by_file []) as Hnil.
  { split; [apply NoDup_nil_2 | intros f cs c Hin; inversion Hin]. }
  specialize (Hg Hnil). revert Hg.
  generalize (foldl (fun fb c => HybridRetriever.add_to_file c fb) [] l).
  intros fb. induction fb as [|[f cs] fb IH]; intros [Hnd Hmem]; [apply NoDup_nil_2|].
  simpl in Hnd. apply NoDup_cons in Hnd as [Hf Hnd].
  assert (Spec.grouped_by_file fb) as Hfb.
  { split; [exact Hnd|]. intros f' cs' c' Hin. apply (Hmem f' cs' c'). now right. }
  simpl. rewrite fmap_app. apply NoDup_app. split; [|split; [|apply IH, Hfb]].
  - pose proof (slice_first (HybridRetriever.sort_desc cs)) as Hlen.
    destruct (Py.slice (HybridRetriever.sort_desc cs) 0 1) as [|x [|y rest]];
      simpl in *; [apply NoDup_nil_2 | apply NoDup_singleton | lia].
  - intros k Hk Hk'.
    apply list_elem_of_fmap in Hk as [c [-> Hc]].
    apply slice_subseteq in Hc. rewrite sort_desc_perm in Hc.
    rewrite (Hmem f cs c ltac:(left) Hc) in Hk'.
    apply list_elem_of_fmap in Hk' as [c' [Hfc Hc']].
    apply list_elem_of_In, in_flat_map in Hc' as [[f' cs'] [Hin Hc']].
    apply list_elem_of_In in Hin, Hc'. simpl in Hc'.
    apply slice_subseteq in Hc'. rewrite sort_desc_perm in Hc'.
    apply Hf. rewrite Hfc, (proj2 Hfb f' cs' c' Hin Hc').
    apply list_elem_of_fmap. exists (f', cs'). split; [reflexivity | exact Hin].
Qed.

Lemma create_hits_files (X : SearchAPI.Externals) (chunks : list ScoredChunk.t)
    (query : string) (opts : SearchAPI.SearchOptions) (hits : list SearchHit.t) :
  SearchAPI.create_hits X chunks query opts = Ok hits ->
  SearchHit.file_id <$> hits = ScoredChunk.file_id <$> chunks.
Proof.
  revert hits. induction chunks as [|c chunks IH]; intros hits; simpl.
  - now intros [= <-].
  - destruct (SearchAPI._create_search_hit X c query opts) as [hit| |] eqn:Hh;
      simpl; try discriminate.
    destruct (SearchAPI.create_hits X chunks query opts) as [rest| |];
      simpl; try discriminate.
    intros [= <-]. rewrite !fmap_cons, (IH rest eq_refl). f_equal.
    unfold SearchAPI._create_search_hit in Hh.
    destruct (SearchAPI.truthy _) in Hh.
    + destruct (SearchAPI.as_int _) in Hh; simpl in Hh; try discriminate.
      destruct (snippets.make_snippet _ _ _) as [[? ?] ?] in Hh. simpl in Hh.
      now injection Hh as <-.
    + simpl in Hh. now injection Hh as <-.
Qed.

(** Whatever [max_results_per_file] is, the ranked hits the API builds
    over the hybrid retriever hold at most one chunk per file. *)
Lemma ranked_hits_one_per_file (X : SearchAPI.Externals) (B : HybridRetriever.Backends)
    (cfg : SearchConfig.t) (cat : Catalog.t) (query : string) (k : Z)
    (opts : SearchAPI.SearchOptions) (hits : list SearchHit.t) :
  SearchAPI.ranked_hits X cfg (HybridRetriever.search B cfg cat) query k opts = Ok hits ->
  NoDup (SearchHit.file_id <$> hits).
Proof.
  unfold SearchAPI.ranked_hits.
  destruct (HybridRetriever.search B cfg cat query (Some k) (SearchConfig.timeout_sec cfg))
    as [scored| |] eqn:Hs; simpl; try discriminate.
  assert (NoDup (ScoredChunk.file_id <$> scored)) as Hnd.
  { unfold HybridRetriever.search in Hs.
    destruct (HybridRetriever.embed_query B query); [|injection Hs as <-; apply NoDup_nil_2].
    destruct (HybridRetriever.merge_and_score _ _ _ _ _ _ _ _) as [ms| |];
      simpl in Hs; try discriminate.
    injection Hs as <-.
    eapply sublist_NoDup; [apply dedupe_by_file_one|].
    apply fmap_sublist, slice_sublist. }
  destruct (SearchAPI.gt_zero _) as [b| |]; simpl; try discriminate.
  destruct b.
  - destruct (SearchAPI.as_int _) as [n| |]; simpl; try discriminate.
    intros Hc. rewrite (create_hits_files _ _ _ _ _ Hc).
    eapply submseteq_NoDup_fmap; [apply dedupe_by_file_submseteq | exact Hnd].
  - intros Hc. now rewrite (create_hits_files _ _ _ _ _ Hc).
Qed.

(** * Further properties of the code *)

(** ** Strings: [find], [split], [join] *)

Lemma append_len (a b : string) : Py.len (a +:+ b) = Py.len a + Py.len b.
Proof.
  unfold Py.len. induction a as [|c a IH]; [rewrite append_nil; simpl; lia|].
  rewrite append_cons. simpl String.length. lia.
Qed.

Lemma len_nonneg (s : string) : 0 <= Py.len s.
Proof. unfold Py.len. lia. Qed.

Lemma find_at_some (sub s : string) (i j : nat) :
  Py.find_at sub s i = Some j ->
  exists pre post, s = pre +:+ sub +:+ post /\ (j = i + String.length pre)%nat.
Proof.
  revert i. induction s as [|c s IH]; intros i; rewrite find_at_eq.
  - destruct (String.prefix sub EmptyString) eqn:Hp; [|discriminate].
    intros [= <-]. apply prefix_spec in Hp as [post Hp].
    exists EmptyString, post. split; [exact Hp | simpl; lia].
  - destruct (String.prefix sub (String c s)) eqn:Hp.
    + intros [= <-]. apply prefix_spec in Hp as [post Hp].
      exists EmptyString, post. split; [exact Hp | simpl; lia].
    + intros Hf. apply IH in Hf as (pre & post & -> & ->).
      exists (String c pre), post. split; [now rewrite append_cons | simpl; lia].
Qed.

(** [s.find(sub)] is -1 exactly when [sub] does not occur in [s];
    otherwise it is an index at which [sub] occurs. *)
Lemma find_spec (s sub : string) :
  (Py.find s sub = -1 <-> ~ Py.occurs sub s)
  /\ (Py.find s sub <> -1 -> Shape.occurs_at sub s (Py.find s sub)).
Proof.
  unfold Py.find. destruct (Py.find_at sub s 0) as [j|] eqn:Hf.
  - split.
    + split; [lia|]. intros Hn. apply (find_at_none sub s 0) in Hn. congruence.
    + intros _. apply find_at_some in Hf as (pre & post & -> & ->).
      exists pre, post. split; [reflexivity | unfold Py.len; lia].
  - split; [|congruence]. split; [|reflexivity].
    intros _. now apply (find_at_none sub s 0).
Qed.

Lemma occurs_at_range (sub s : string) (pos : Z) :
  Shape.occurs_at sub s pos -> 0 <= pos /\ pos + Py.len sub <= Py.len s.
Proof.
  intros (pre & post & -> & <-). rewrite !append_len.
  pose proof (len_nonneg pre). pose proof (len_nonneg post). lia.
Qed.

Lemma lower_len (s : string) :
  Shape.ascii_only s -> Py.len (Py.lower s) = Py.len s.
Proof.
  unfold Shape.ascii_only, Py.len. intros Hs. f_equal.
  induction s as [|c s IH]; [reflexivity|].
  simpl in Hs. apply andb_prop in Hs as [_ Hs]. simpl. now rewrite IH.
Qed.

Lemma all_chars_app (p : ascii -> bool) (a b : string) :
  Shape.all_chars p (a +:+ b) = Shape.all_chars p a && Shape.all_chars p b.
Proof.
  induction a as [|c a IH]; [reflexivity|].
  rewrite append_cons. simpl. rewrite IH. now rewrite andb_assoc.
Qed.

Lemma split_from_tokens (s cur : string) :
  Shape.all_chars (fun c => negb (Py.is_space c)) cur = true ->
  forall w, w ∈ Py.split_from s cur -> Shape.token w.
Proof.
  revert cur. induction s as [|c s IH]; intros cur Hcur w; simpl.
  - destruct cur as [|d cur]; [intros Hin; inversion Hin|].
    intros Hin. apply list_elem_of_singleton in Hin. subst w. split; [discriminate | exact Hcur].
  - destruct (Py.is_space c) eqn:Hsp.
    + destruct cur as [|d cur]; [now apply IH|].
      intros Hin. apply elem_of_cons in Hin as [-> | Hin].
      * split; [discriminate | exact Hcur].
      * revert Hin. now apply IH.
    + apply IH. rewrite all_chars_app, Hcur. simpl. now rewrite Hsp.
Qed.

(** The words of [s.split()] are tokens. *)
Lemma split_tokens (s w : string) : w ∈ Py.split s -> Shape.token w.
Proof. now apply split_from_tokens. Qed.

Lemma append_assoc (a b c : string) : (a +:+ b) +:+ c = a +:+ (b +:+ c).
Proof.
  induction a as [|x a IH]; [reflexivity|]. rewrite !append_cons. now rewrite IH.
Qed.

Lemma append_empty_r (a : string) : a +:+ EmptyString = a.
Proof. induction a as [|x a IH]; [reflexivity|]. rewrite append_cons. now rewrite IH. Qed.

Lemma split_from_word (w rest cur : string) :
  Shape.all_chars (fun c => negb (Py.is_space c)) w = true ->
  Py.split_from (w +:+ rest) cur = Py.split_from rest (cur +:+ w).
Proof.
  revert cur. induction w as [|c w IH]; intros cur Hw.
  - now rewrite append_nil, append_empty_r.
  - simpl in Hw. apply andb_prop in Hw as [Hc Hw]. apply negb_true_iff in Hc.
    rewrite append_cons. simpl. rewrite Hc. rewrite (IH _ Hw).
    now rewrite append_assoc.
Qed.

(** Round trip: splitting the blank-joined tokens gives the tokens back. *)
Lemma split_join (ws : list string) :
  Forall Shape.token ws -> Py.split (Py.join " " ws) = ws.
Proof.
  unfold Py.split. induction ws as [|w ws IH]; intros Hws; [reflexivity|].
  apply Forall_cons in Hws as [[Hne Hw] Hws].
  destruct ws as [|w' ws].
  - simpl. rewrite <- (append_empty_r w) at 1. rewrite (split_from_word _ _ _ Hw).
    rewrite append_nil. simpl. destruct w; [congruence | reflexivity].
  - change (Py.join " " (w :: w' :: ws)) with (w +:+ " " +:+ Py.join " " (w' :: ws)).
    rewrite (split_from_word _ _ _ Hw). rewrite append_nil. rewrite append_cons, append_nil.
    simpl Py.split_from at 1. destruct w as [|c w]; [congruence|].
    f_equal. now apply IH.
Qed.

(** ** snippets.py *)

Lemma find_nonneg (s sub : string) : Py.find s sub <> -1 -> 0 <= Py.find s sub.
Proof. intros Hn. pose proof (find_range s sub). lia. Qed.

Lemma token_len (w : string) : Shape.token w -> 1 <= Py.len w.
Proof. intros [Hne _]. destruct w; [congruence|]. unfold Py.len. simpl. lia. Qed.

Lemma earliest_fold (text_lower : string) (l : list string) (e : Z) :
  let step := fun earliest word =>
    let pos := Py.find text_lower word in
    if negb (pos =? -1) && (pos <? earliest) then pos else earliest in
  let r := fold_left step l e in
  r <= e
  /\ (r = e \/ exists w, w ∈ l /\ Py.find text_lower w <> -1 /\ r = Py.find text_lower w)
  /\ (forall w, w ∈ l -> Py.find text_lower w <> -1 -> r <= Py.find text_lower w).
Proof.
  cbv zeta. revert e. induction l as [|x l IH]; intros e; simpl.
  - split; [lia|]. split; [now left|]. intros w Hw. inversion Hw.
  - destruct (IH (if negb (Py.find text_lower x =? -1) && (Py.find text_lower x <? e)
                  then Py.find text_lower x else e)) as (Hle & Hor & Hall).
    destruct (Py.find text_lower x =? -1) eqn:Hx; simpl in *.
    + apply Z.eqb_eq in Hx. split; [exact Hle|]. split.
      * destruct Hor as [-> | (w & Hw & Hf & ->)]; [now left|].
        right. exists w. split; [now right | now split].
      * intros w Hw Hf. apply elem_of_cons in Hw as [-> | Hw]; [congruence|]. now apply Hall.
    + apply Z.eqb_neq in Hx. destruct (Py.find text_lower x <? e) eqn:Hlt.
      * apply Z.ltb_lt in Hlt. split; [lia|]. split.
        -- right. destruct Hor as [-> | (w & Hw & Hf & ->)].
           ++ exists x. split; [left | now split].
           ++ exists w. split; [now right | now split].
        -- intros w Hw Hf. apply elem_of_cons in Hw as [-> | Hw]; [exact Hle | now apply Hall].
      * apply Z.ltb_ge in Hlt. split; [exact Hle|]. split.
        -- destruct Hor as [-> | (w & Hw & Hf & ->)]; [now left|].
           right. exists w. split; [now right | now split].
        -- intros w Hw Hf. apply elem_of_cons in Hw as [-> | Hw]; [lia | now apply Hall].
Qed.

Lemma find_best_match_cases (text query : string) :
  Shape.ascii_only text -> Shape.ascii_only query ->
  let r := snippets._find_best_match text query in
  let text_lower := Py.lower text in
  let query_lower := Py.lower query in
  (r = -1 <->
   ~ Py.occurs query_lower text_lower
   /\ forall w, w ∈ Py.split query_lower -> ~ Py.occurs w text_lower)
  /\ (r <> -1 ->
      0 <= r <= Py.len text
      /\ (Shape.occurs_at query_lower text_lower r
          \/ exists w, w ∈ Py.split query_lower /\ Shape.occurs_at w text_lower r)).
Proof.
  intros Htext Hquery. cbv zeta. unfold snippets._find_best_match.
  destruct (find_spec (Py.lower text) (Py.lower query)) as [Hnone Hsome].
  destruct (Py.find (Py.lower text) (Py.lower query) =? -1) eqn:Hq; simpl.
  - apply Z.eqb_eq in Hq. pose proof (proj1 Hnone Hq) as Hno.
    destruct (Py.split (Py.lower query)) as [|w0 ws] eqn:Hs.
    + split; [|congruence]. split; [|reflexivity].
      intros _. split; [exact Hno|]. intros w Hw. inversion Hw.
    + pose proof (earliest_fold (Py.lower text) (w0 :: ws) (Py.len text)) as Hf.
      cbv zeta in Hf. destruct Hf as (Hle & Hor & Hall).
      assert (forall w, w ∈ w0 :: ws -> Py.find (Py.lower text) w <> -1 ->
                        0 <= Py.find (Py.lower text) w < Py.len text
                        /\ Shape.occurs_at w (Py.lower text) (Py.find (Py.lower text) w))
        as Hword.
      { intros w Hw Hfw. pose proof (proj2 (find_spec (Py.lower text) w) Hfw) as Hat.
        split; [|exact Hat]. apply occurs_at_range in Hat.
        rewrite (lower_len text Htext) in Hat.
        assert (Shape.token w) as Ht by (apply (split_tokens (Py.lower query)); now rewrite Hs).
        apply token_len in Ht. lia. }
      match goal with |- context [fold_left ?f ?l ?e] => set (r := fold_left f l e) in * end.
      destruct (r <? Py.len text) eqn:Hlt.
      * apply Z.ltb_lt in Hlt.
        destruct Hor as [Heq | (w & Hw & Hfw & Heq)]; [lia|].
        destruct (Hword w Hw Hfw) as [Hrange Hat]. rewrite <- Heq in Hrange, Hat.
        split.
        -- split; [lia|]. intros [_ Hnw]. exfalso. apply (Hnw w Hw).
           apply find_spec in Hfw. destruct Hfw as (pre & post & Hp & _).
           exists pre, post. exact Hp.
        -- intros _. split; [lia|]. right. exists w. now split.
      * apply Z.ltb_ge in Hlt. split; [|congruence]. split; [|reflexivity].
        intros _. split; [exact Hno|]. intros w Hw Hocc.
        assert (Py.find (Py.lower text) w <> -1) as Hfw.
        { intros Hm. now apply (proj1 (find_spec (Py.lower text) w)) in Hm. }
        destruct (Hword w Hw Hfw) as [Hrange _]. specialize (Hall w Hw Hfw). lia.
  - apply Z.eqb_neq in Hq. pose proof (Hsome Hq) as Hat.
    pose proof (occurs_at_range _ _ _ Hat) as Hr.
    rewrite (lower_len text Htext) in Hr.
    pose proof (len_nonneg (Py.lower query)).
    split.
    + split; [congruence|]. intros [Hno _]. apply Hnone in Hno. congruence.
    + intros _. split; [lia | now left].
Qed.

(** On a text and a query of the ASCII range, [_find_best_match] returns
    -1 exactly when neither the lower-cased query nor any of its words
    occurs in the lower-cased text; any other result is an index of the
    text at which the query, or one of its words, occurs.  (The position
    is found in [text.lower()] and compared with [len(text)]: outside
    the ASCII range lowering can lengthen the text.) *)
Theorem find_best_match_spec (text query : string) :
  Shape.ascii_only text -> Shape.ascii_only query ->
  let r := snippets._find_best_match text query in
  let text_lower := Py.lower text in
  let query_lower := Py.lower query in
  (r = -1 <->
   ~ Py.occurs query_lower text_lower
   /\ forall w, w ∈ Py.split query_lower -> ~ Py.occurs w text_lower)
  /\ (r <> -1 ->
      0 <= r <= Py.len text
      /\ (Shape.occurs_at query_lower text_lower r
          \/ exists w, w ∈ Py.split query_lower /\ Shape.occurs_at w text_lower r)).
Proof.
  exact (find_best_match_cases text query).
Qed.

Lemma find_best_match_spec_witness :
  Shape.occurs_at "zzz world" "hello world" (snippets._find_best_match "Hello World" "zzz World")
  \/ exists w, w ∈ Py.split "zzz world"
               /\ Shape.occurs_at w "hello world"
                    (snippets._find_best_match "Hello World" "zzz World").
Proof.
  destruct (find_best_match_spec "Hello World" "zzz World") as [_ Hpos];
    [reflexivity | reflexivity |].
  apply Hpos. vm_compute. discriminate.
Defined.

(** For a radius that is not negative and a text and a query of the
    ASCII range, the positions [make_snippet] returns satisfy
    [0 <= start <= end <= len(text)]; when a match is found the window
    holds its position, and the snippet is [text[start:end]] with ["..."]
    on each side that was cut. *)
Theorem make_snippet_bounds (text query : string) (radius : Z) :
  Shape.ascii_only text -> Shape.ascii_only query ->
  0 <= radius ->
  let r := snippets.make_snippet text query radius in
  let pos := snippets._find_best_match text query in
  0 <= r.1.2 <= r.2
  /\ r.2 <= Py.len text
  /\ (text <> EmptyString -> query <> EmptyString -> pos <> -1 ->
      r.1.2 <= pos <= r.2
      /\ r.1.1 = (if 0 <? r.1.2 then "..." else EmptyString)
                 +:+ Py.str_slice text r.1.2 r.2
                 +:+ (if r.2 <? Py.len text then "..." else EmptyString)).
Proof.
  intros Htext Hquery Hr. cbv zeta. pose proof (len_nonneg text) as Hlen.
  pose proof (len_nonneg query) as Hqlen.
  destruct (find_best_match_cases text query Htext Hquery) as [_ Hpos]. cbv zeta in Hpos.
  clear Htext Hquery.
  unfold snippets.make_snippet.
  destruct text as [|c text]; [simpl; split; [lia|]; split; [lia | congruence]|].
  destruct query as [|d query]; [simpl; split; [lia|]; split; [lia | congruence]|].
  cbn [Py.truthy negb orb].
  destruct (snippets._find_best_match (String c text) (String d query) =? -1) eqn:Hm.
  - apply Z.eqb_eq in Hm. simpl. split; [lia|]. split; [lia | congruence].
  - apply Z.eqb_neq in Hm. destruct (Hpos Hm) as [Hrange _]. cbn [fst snd].
    split; [lia|]. split; [lia|]. intros _ _ _. split; [lia|].
    destruct (0 <? _); destruct (_ <? Py.len _); rewrite ?append_nil, ?append_empty_r;
      reflexivity.
Qed.

Lemma make_snippet_bounds_witness :
  let r := snippets.make_snippet
             "This is a long document about artificial intelligence and machine learning."
             "artificial intelligence" 20 in
  0 <= r.1.2 <= r.2 /\ r.2 <= 76.
Proof.
  cbv zeta.
  destruct (make_snippet_bounds
              "This is a long document about artificial intelligence and machine learning."
              "artificial intelligence" 20) as (H1 & H2 & _);
    [reflexivity | reflexivity | lia |].
  split; [exact H1 | exact H2].
Defined.

Lemma substring0_length (k : nat) (s : string) :
  String.length (substring 0 k s) = Nat.min k (String.length s).
Proof.
  revert k. induction s as [|c s IH]; intros [|k]; simpl; try reflexivity.
  now rewrite IH.
Qed.

Lemma substring0_prefix (k : nat) (s : string) :
  exists rest, s = substring 0 k s +:+ rest.
Proof.
  revert k. induction s as [|c s IH]; intros [|k]; simpl.
  - exists EmptyString. reflexivity.
  - exists EmptyString. reflexivity.
  - exists (String c s). reflexivity.
  - destruct (IH k) as [rest Hr]. exists rest. rewrite append_cons. now rewrite <- Hr.
Qed.

Lemma str_upto_eq (s : string) (n : Z) :
  Py.str_upto s n = substring 0 (Z.to_nat (Py.clamp (Py.len s) n)) s.
Proof.
  unfold Py.str_upto, Py.str_slice. pose proof (len_nonneg s).
  assert (Py.clamp (Py.len s) 0 = 0) as -> by (unfold Py.clamp; simpl; lia).
  now rewrite Z.sub_0_r.
Qed.

Lemma str_upto_len (s : string) (n : Z) :
  Py.len (Py.str_upto s n) <= Py.len s /\ (0 <= n -> Py.len (Py.str_upto s n) <= n).
Proof.
  rewrite str_upto_eq.
  set (k := Z.to_nat (Py.clamp (Py.len s) n)).
  assert (Py.len (substring 0 k s) = Z.of_nat (Nat.min k (String.length s))) as ->
    by (unfold Py.len; now rewrite substring0_length).
  subst k. unfold Py.clamp, Py.len.
  destruct (Z.ltb_spec n 0); lia.
Qed.

(** [truncate_snippet] leaves a snippet of at most [max_length]
    characters as it is; a longer one becomes a prefix of it followed by
    ["..."], of at most [max_length + 3] characters. *)
Theorem truncate_snippet_bound (snippet : string) (max_length : Z) :
  0 <= max_length ->
  (Py.len snippet <= max_length -> snippets.truncate_snippet snippet max_length = snippet)
  /\ (max_length < Py.len snippet ->
      exists kept rest,
        snippets.truncate_snippet snippet max_length = kept +:+ "..."
        /\ snippet = kept +:+ rest
        /\ Py.len kept <= max_length)
  /\ Py.len (snippets.truncate_snippet snippet max_length) <= max_length + 3.
Proof.
  intros Hm. unfold snippets.truncate_snippet.
  destruct (Py.len snippet <=? max_length) eqn:Hle.
  - apply Z.leb_le in Hle. split; [reflexivity|]. split; [lia | lia].
  - apply Z.leb_gt in Hle.
    set (truncated := Py.str_upto snippet max_length).
    set (last_space := snippets.rfind_space_at truncated 0 (-1)).
    assert (exists kept rest,
               (if 8 * max_length <? 10 * last_space
                then Py.str_upto truncated last_space else truncated) = kept
               /\ snippet = kept +:+ rest /\ Py.len kept <= max_length)
      as (kept & rest & Hk & Hs & Hl).
    { destruct (substring0_prefix (Z.to_nat (Py.clamp (Py.len snippet) max_length)) snippet)
        as [rest1 Hr1].
      rewrite <- str_upto_eq in Hr1. fold truncated in Hr1.
      pose proof (proj2 (str_upto_len snippet max_length) Hm) as Hl1. fold truncated in Hl1.
      destruct (8 * max_length <? 10 * last_space).
      - destruct (substring0_prefix (Z.to_nat (Py.clamp (Py.len truncated) last_space))
                    truncated) as [rest2 Hr2].
        rewrite <- str_upto_eq in Hr2.
        exists (Py.str_upto truncated last_space), (rest2 +:+ rest1).
        split; [reflexivity|]. split.
        + rewrite <- append_assoc, <- Hr2. exact Hr1.
        + pose proof (proj1 (str_upto_len truncated last_space)). lia.
      - exists truncated, rest1. auto. }
    rewrite Hk. split; [lia|]. split.
    + intros _. exists kept, rest. auto.
    + rewrite append_len. change (Py.len "...") with 3. lia.
Qed.

Lemma truncate_snippet_bound_witness :
  Py.len (snippets.truncate_snippet "one two three four five six" 10) <= 10 + 3.
Proof.
  destruct (truncate_snippet_bound "one two three four five six" 10) as (_ & _ & Hb);
    [lia|].
  exact Hb.
Defined.

(** [clean_snippet] keeps the words of the snippet and is idempotent. *)
Theorem clean_snippet_idempotent (snippet : string) :
  Py.split (snippets.clean_snippet snippet) = Py.split snippet
  /\ snippets.clean_snippet (snippets.clean_snippet snippet) = snippets.clean_snippet snippet.
Proof.
  assert (Py.split (snippets.clean_snippet snippet) = Py.split snippet) as Hs.
  { unfold snippets.clean_snippet. apply split_join.
    apply Forall_forall. intros w Hw. now apply (split_tokens snippet). }
  split; [exact Hs|]. unfold snippets.clean_snippet at 1. now rewrite Hs.
Qed.

(** ** retriever.py *)

(** When a channel holds two different scores, [_normalize_scores] keeps
    its candidates, maps a best one to 1 and a worst one to 0, and every
    value lies in [[0,1]]. *)
Theorem normalize_scores_extremes (m : gmap string Q) :
  Spec.spread m ->
  let norm := HybridRetriever._normalize_scores m in
  dom norm = dom m
  /\ (exists k v, norm !! k = Some v /\ (v == 1)%Q)
  /\ (exists k v, norm !! k = Some v /\ (v == 0)%Q)
  /\ (forall k v, norm !! k = Some v -> Spec.in_unit v).
Proof.
  intros Hspread. cbv zeta.
  assert (forall k v, HybridRetriever._normalize_scores m !! k = Some v -> Spec.in_unit v)
    as Hunit.
  { intros k v Hk. pose proof (normalize_scores_spec m k) as Hn. rewrite Hk in Hn.
    eapply min_max_normalised_in_unit; [exact Hn | now left]. }
  assert (exists lo hi kmin kmax,
             m !! kmin = Some lo /\ m !! kmax = Some hi /\ ~ (hi == lo)%Q
             /\ HybridRetriever._normalize_scores m
                = (fun score => (score - lo) / (hi - lo))%Q <$> m)
    as (lo & hi & kmin & kmax & Hkmin & Hkmax & Hne & Heq).
  { unfold HybridRetriever._normalize_scores.
    destruct Hspread as (k1 & k2 & v1 & v2 & H1 & H2 & Hd).
    destruct ((map_to_list m).*2) as [|s0 rest] eqn:Hl.
    { assert (v1 ∈ (map_to_list m).*2) as Hin by (apply channel_value_listed; eauto).
      rewrite Hl in Hin. inversion Hin. }
    destruct (py_min_spec rest s0) as [Hmin_in Hmin].
    destruct (py_max_spec rest s0) as [Hmax_in Hmax].
    rewrite <- Hl in Hmin_in, Hmax_in.
    apply channel_value_listed in Hmin_in as [kmin Hkmin].
    apply channel_value_listed in Hmax_in as [kmax Hkmax].
    assert (v1 ∈ s0 :: rest) as Hv1 by (rewrite <- Hl; apply channel_value_listed; eauto).
    assert (v2 ∈ s0 :: rest) as Hv2 by (rewrite <- Hl; apply channel_value_listed; eauto).
    assert (~ (HybridRetriever.py_max s0 rest == HybridRetriever.py_min s0 rest)%Q) as Hne.
    { intros Heq. apply Hd.
      pose proof (Hmin v1 Hv1). pose proof (Hmax v1 Hv1).
      pose proof (Hmin v2 Hv2). pose proof (Hmax v2 Hv2). lra. }
    exists (HybridRetriever.py_min s0 rest), (HybridRetriever.py_max s0 rest), kmin, kmax.
    split; [exact Hkmin|]. split; [exact Hkmax|]. split; [exact Hne|].
    destruct (Qeq_bool _ _) eqn:Hb; [apply Qeq_bool_iff in Hb; contradiction | reflexivity]. }
  split; [|split; [|split; [|exact Hunit]]].
  - rewrite Heq. apply dom_fmap_L.
  - exists kmax. eexists. rewrite Heq, lookup_fmap, Hkmax. split; [reflexivity|].
    field. intros H0. apply Hne. lra.
  - exists kmin. eexists. rewrite Heq, lookup_fmap, Hkmin. split; [reflexivity|].
    field. intros H0. apply Hne. lra.
Qed.

Lemma normalize_scores_extremes_witness :
  dom (HybridRetriever._normalize_scores Fixture.s3_vec) = dom Fixture.s3_vec.
Proof.
  refine (proj1 (normalize_scores_extremes Fixture.s3_vec _)).
  exists "A", "B", (9 # 10), (6 # 10).
  split; [reflexivity|]. split; [reflexivity|]. intros Hq. discriminate Hq.
Defined.

Lemma insert_desc_descending (x : ScoredChunk.t) (l : list ScoredChunk.t) :
  Shape.descending l -> Shape.descending (HybridRetriever.insert_desc x l).
Proof.
  induction l as [|y l IH]; intros Hd; simpl.
  - split; [|exact I]. intros z Hz. inversion Hz.
  - destruct Hd as [Hy Hd].
    destruct (HybridRetriever.qlt (ScoredChunk.score x) (ScoredChunk.score y)) eqn:Hq.
    + apply qlt_true in Hq. split; [|now apply IH].
      intros z Hz. rewrite insert_desc_perm in Hz.
      apply elem_of_cons in Hz as [-> | Hz]; [now apply Qlt_le_weak | now apply Hy].
    + apply qlt_false in Hq. split; [|now split].
      intros z Hz. apply elem_of_cons in Hz as [-> | Hz]; [exact Hq|].
      eapply Qle_trans; [apply Hy, Hz | exact Hq].
Qed.

Lemma sort_desc_descending (l : list ScoredChunk.t) :
  Shape.descending (HybridRetriever.sort_desc l).
Proof.
  induction l as [|x l IH]; [exact I|].
  unfold HybridRetriever.sort_desc in *. simpl. now apply insert_desc_descending.
Qed.

Lemma descending_sublist (l1 l2 : list ScoredChunk.t) :
  l1 `sublist_of` l2 -> Shape.descending l2 -> Shape.descending l1.
Proof.
  induction 1 as [|x l1 l2 Hs IH|x l1 l2 Hs IH]; intros Hd.
  - exact I.
  - destruct Hd as [Hx Hd]. split; [|now apply IH].
    intros y Hy. apply Hx. eapply elem_of_sublist; eauto.
  - destruct Hd as [_ Hd]. now apply IH.
Qed.

Lemma slice_length_le {A} (l : list A) (n : Z) :
  0 <= n -> Z.of_nat (length (Py.slice l 0 n)) <= n.
Proof.
  intros Hn. unfold Py.slice, Py.clamp. cbn [Z.ltb Z.compare].
  rewrite length_take. destruct (Z.ltb_spec n 0); lia.
Qed.

Lemma score_chunk_catalog (cat : Catalog.t) (query : string)
    (weights : HybridRetriever.Weights) (boosts : HybridRetriever.Boosts)
    (vn ln : gmap string Q) (id : string) (sc : ScoredChunk.t) :
  HybridRetriever.score_chunk cat query weights boosts vn ln id = Ok (Some sc) ->
  ScoredChunk.text sc <> EmptyString
  /\ Catalog.get_chunk_text cat (ScoredChunk.chunk_id sc) = Some (ScoredChunk.text sc)
  /\ exists meta,
       Catalog.chunk_meta cat (ScoredChunk.chunk_id sc) = Some meta
       /\ ScoredChunk.file_id sc = Catalog.m_file_id meta
       /\ ScoredChunk.path sc = Catalog.m_path meta
       /\ ScoredChunk.chunk_idx sc = Catalog.m_idx meta.
Proof.
  unfold HybridRetriever.score_chunk.
  destruct (Catalog.chunk_meta cat id) as [meta|] eqn:Hm; [|discriminate].
  destruct (Catalog.get_chunk_text cat id) as [text|] eqn:Ht; [|discriminate].
  destruct text as [|ch text]; [discriminate|]. cbn [Py.truthy negb].
  destruct (HybridRetriever._calculate_position_bonus query (String ch text)) as [p| |];
    simpl; try discriminate.
  intros [= <-]. simpl. split; [discriminate|]. split; [exact Ht|].
  exists meta. auto.
Qed.

(** The fusion returns its chunks in non-increasing order of score, at
    most [merge_k] of them, and never an orphan: every chunk returned has
    its metadata and a non-empty text in the catalog, and carries them. *)
Theorem merge_and_score_ranked (B : HybridRetriever.Backends) (cfg : SearchConfig.t)
    (cat : Catalog.t) (query : string) (vec lex : gmap string Q)
    (weights : option HybridRetriever.Weights) (boosts : option HybridRetriever.Boosts)
    (out : list ScoredChunk.t) :
  HybridRetriever.merge_and_score B cfg cat query vec lex weights boosts = Ok out ->
  Shape.descending out
  /\ (0 <= SearchConfig.merge_k cfg -> Z.of_nat (length out) <= SearchConfig.merge_k cfg)
  /\ forall sc, sc ∈ out ->
       ScoredChunk.text sc <> EmptyString
       /\ Catalog.get_chunk_text cat (ScoredChunk.chunk_id sc) = Some (ScoredChunk.text sc)
       /\ exists meta,
            Catalog.chunk_meta cat (ScoredChunk.chunk_id sc) = Some meta
            /\ ScoredChunk.file_id sc = Catalog.m_file_id meta
            /\ ScoredChunk.path sc = Catalog.m_path meta
            /\ ScoredChunk.chunk_idx sc = Catalog.m_idx meta.
Proof.
  unfold HybridRetriever.merge_and_score. cbv zeta.
  destruct (decide _) as [He | Hne].
  - intros [= <-]. split; [exact I|]. split; [simpl; lia|]. intros sc Hin. inversion Hin.
  - match goal with
    | |- context [for_each ?ids ?body ?acc] =>
        destruct (for_each ids body acc) as [scored| |] eqn:Hloop
    end; simpl; try discriminate.
    intros [= <-]. split; [|split].
    + eapply descending_sublist; [apply slice_sublist | apply sort_desc_descending].
    + apply slice_length_le.
    + intros sc Hin. apply slice_subseteq in Hin. rewrite sort_desc_perm in Hin.
      destruct (fusion_loop_elem cat query _ _ _ _ _ _ _ _ Hloop Hin)
        as [Hnil | [id [_ Hs]]]; [inversion Hnil|].
      eapply score_chunk_catalog, Hs.
Qed.

Lemma merge_and_score_ranked_witness :
  Shape.descending
    (match HybridRetriever.merge_and_score (Fixture.backends [] []) SearchConfig.default
             Fixture.s3_catalog "zzz" Fixture.s3_vec Fixture.s3_lex None None with
     | Ok out => out
     | _ => []
     end).
Proof.
  set (r := HybridRetriever.merge_and_score (Fixture.backends [] []) SearchConfig.default
              Fixture.s3_catalog "zzz" Fixture.s3_vec Fixture.s3_lex None None).
  assert (r = Ok (match r with Ok out => out | _ => [] end)) as Hm
    by (vm_compute; reflexivity).
  exact (proj1 (merge_and_score_ranked _ _ _ _ _ _ _ _ _ Hm)).
Defined.

Lemma filter_none {A} (P : A -> Prop) `{forall x, Decision (P x)} (l : list A) :
  (forall x, x ∈ l -> ~ P x) -> filter P l = [].
Proof.
  induction l as [|x l IH]; intros Hl; [reflexivity|].
  rewrite filter_cons_False by (apply Hl; left).
  apply IH. intros y Hy. apply Hl. now right.
Qed.

Lemma grouped_tail (g : string * list ScoredChunk.t) (fb : list (string * list ScoredChunk.t)) :
  Spec.grouped_by_file (g :: fb) -> (g.1 ∉ fb.*1) /\ Spec.grouped_by_file fb.
Proof.
  intros [Hnd Hmem]. simpl in Hnd. apply NoDup_cons in Hnd as [Hf Hnd].
  split; [exact Hf|]. split; [exact Hnd|].
  intros f cs c Hin. apply (Hmem f cs c). now right.
Qed.

Lemma dedupe_groups_other (fb : list (string * list ScoredChunk.t)) (n : Z) (f : string) :
  Spec.grouped_by_file fb -> f ∉ fb.*1 ->
  Shape.of_file f
    (flat_map (fun fc => Py.slice (HybridRetriever.sort_desc fc.2) 0 n) fb) = [].
Proof.
  intros Hg Hf. apply filter_none. intros c Hc Hfile.
  apply list_elem_of_In, in_flat_map in Hc as [[g cs] [Hin Hc]].
  apply list_elem_of_In in Hin, Hc. simpl in Hc.
  apply slice_subseteq in Hc. rewrite sort_desc_perm in Hc.
  apply Hf. rewrite <- Hfile, (proj2 Hg g cs c Hin Hc).
  apply list_elem_of_fmap. exists (g, cs). split; [reflexivity | exact Hin].
Qed.

Lemma dedupe_groups_limit (fb : list (string * list ScoredChunk.t)) (n : Z) (f : string) :
  0 <= n -> Spec.grouped_by_file fb ->
  Z.of_nat (length (Shape.of_file f
    (flat_map (fun fc => Py.slice (HybridRetriever.sort_desc fc.2) 0 n) fb))) <= n.
Proof.
  intros Hn. induction fb as [|[g cs] fb IH]; intros Hg; [simpl; lia|].
  destruct (grouped_tail _ _ Hg) as [Hnot Hfb]. simpl in Hnot.
  simpl. unfold Shape.of_file in *. rewrite filter_app, length_app.
  destruct (decide (g = f)) as [-> | Hne].
  - pose proof (dedupe_groups_other fb n f Hfb Hnot) as Hrest.
    unfold Shape.of_file in Hrest. rewrite Hrest. simpl.
    pose proof (length_filter (fun c => ScoredChunk.file_id c = f)
                  (Py.slice (HybridRetriever.sort_desc cs) 0 n)).
    pose proof (slice_length_le (HybridRetriever.sort_desc cs) n Hn). lia.
  - rewrite (filter_none _ (Py.slice (HybridRetriever.sort_desc cs) 0 n)).
    + simpl. now apply IH.
    + intros c Hc Hfile. apply slice_subseteq in Hc. rewrite sort_desc_perm in Hc.
      apply Hne. rewrite <- Hfile. symmetry. apply (proj2 Hg g cs c); [left | exact Hc].
Qed.

Lemma slice_keeps_head {A} (x : A) (rest : list A) (n : Z) :
  1 <= n -> x ∈ Py.slice (x :: rest) 0 n.
Proof.
  intros Hn. unfold Py.slice, Py.clamp. cbn [Z.ltb Z.compare].
  destruct (Z.ltb_spec n 0); [lia|].
  rewrite (Z.min_l 0) by lia. rewrite Z.sub_0_r. simpl drop.
  destruct (Z.to_nat (Z.min n (Z.of_nat (length (x :: rest))))) as [|k] eqn:Hk.
  - assert (length (x :: rest) = S (length rest)) as Hl by reflexivity. lia.
  - left.
Qed.

Lemma sort_desc_head (cs : list ScoredChunk.t) (c : ScoredChunk.t) :
  c ∈ cs ->
  exists x rest,
    HybridRetriever.sort_desc cs = x :: rest
    /\ (ScoredChunk.score c <= ScoredChunk.score x)%Q.
Proof.
  intros Hc. pose proof (sort_desc_descending cs) as Hd.
  rewrite <- sort_desc_perm in Hc.
  destruct (HybridRetriever.sort_desc cs) as [|x rest]; [inversion Hc|].
  exists x, rest. split; [reflexivity|]. destruct Hd as [Hx _].
  apply elem_of_cons in Hc as [-> | Hc]; [apply Qle_refl | now apply Hx].
Qed.

(** [dedupe_by_file] with a limit [n >= 0] returns chunks of its input
    in non-increasing order of score, at most [n] of them for any file;
    with [n >= 1] every file of the input keeps a chunk that scores at
    least as high as each of its chunks. *)
Theorem dedupe_by_file_limit (l : list ScoredChunk.t) (n : Z) :
  0 <= n ->
  let kept := HybridRetriever.dedupe_by_file l n in
  Shape.descending kept
  /\ kept ⊆+ l
  /\ (forall f, Z.of_nat (length (Shape.of_file f kept)) <= n)
  /\ (1 <= n ->
      forall c, c ∈ l ->
        exists c', c' ∈ kept
                   /\ ScoredChunk.file_id c' = ScoredChunk.file_id c
                   /\ (ScoredChunk.score c <= ScoredChunk.score c')%Q).
Proof.
  intros Hn. cbv zeta.
  split; [apply sort_desc_descending|]. split; [apply dedupe_by_file_submseteq|].
  unfold HybridRetriever.dedupe_by_file.
  assert (Spec.grouped_by_file (foldl (fun fb c => HybridRetriever.add_to_file c fb) [] l))
    as Hg.
  { apply file_best_grouped. split; [apply NoDup_nil_2 | intros f cs c Hin; inversion Hin]. }
  pose proof (file_best_chunks l []) as Hp. simpl in Hp.
  set (fb := foldl (fun fb c => HybridRetriever.add_to_file c fb) [] l) in *.
  split.
  - intros f. unfold Shape.of_file. rewrite sort_desc_perm.
    now apply dedupe_groups_limit.
  - intros Hn1 c Hc. rewrite <- Hp in Hc.
    apply list_elem_of_In, in_flat_map in Hc as [[g cs] [Hin Hc]].
    apply list_elem_of_In in Hin, Hc. simpl in Hc.
    destruct (sort_desc_head cs c Hc) as (x & rest & Hs & Hle).
    exists x. split; [|split; [|exact Hle]].
    + rewrite sort_desc_perm. apply list_elem_of_In, in_flat_map.
      exists (g, cs). split; [now apply list_elem_of_In|]. simpl. rewrite Hs.
      apply list_elem_of_In. now apply slice_keeps_head.
    + assert (x ∈ cs) as Hx by (rewrite <- sort_desc_perm, Hs; left).
      rewrite (proj2 Hg g cs x Hin Hx). symmetry. apply (proj2 Hg g cs c Hin Hc).
Qed.

Lemma dedupe_by_file_limit_witness :
  let kept := HybridRetriever.dedupe_by_file Fixture.ranked_three 1 in
  ScoredChunk.chunk_id <$> Fixture.ranked_three = ["c1"; "c2"; "c3"]
  /\ ScoredChunk.chunk_id <$> kept = ["c1"; "c3"]
  /\ Shape.descending kept
  /\ kept ⊆+ Fixture.ranked_three
  /\ (forall f, Z.of_nat (length (Shape.of_file f kept)) <= 1).
Proof.
  cbv zeta.
  split; [vm_compute; reflexivity|]. split; [vm_compute; reflexivity|].
  destruct (dedupe_by_file_limit Fixture.ranked_three 1) as (Hd & Hs & Hl & _); [lia|].
  split; [exact Hd|]. split; [exact Hs | exact Hl].
Defined.

(** [search] returns its chunks in non-increasing order of score, one
    chunk per file at most, and no more than [k] of them ([top_k] when
    [k] is [None] or 0). *)
Theorem search_results (B : HybridRetriever.Backends) (cfg : SearchConfig.t)
    (cat : Catalog.t) (query : string) (k : option Z) (timeout : Q)
    (out : list ScoredChunk.t) :
  HybridRetriever.search B cfg cat query k timeout = Ok out ->
  let k' := match k with
            | Some k' => if k' =? 0 then SearchConfig.top_k cfg else k'
            | None => SearchConfig.top_k cfg
            end in
  Shape.descending out
  /\ NoDup (ScoredChunk.file_id <$> out)
  /\ (0 <= k' -> Z.of_nat (length out) <= k').
Proof.
  unfold HybridRetriever.search. cbv zeta.
  destruct (HybridRetriever.embed_query B query) as [emb|].
  - destruct (HybridRetriever.merge_and_score _ _ _ _ _ _ _ _) as [ms| |];
      simpl; try discriminate.
    intros [= <-]. split; [|split].
    + eapply descending_sublist; [apply slice_sublist | apply sort_desc_descending].
    + eapply sublist_NoDup; [apply dedupe_by_file_one|].
      apply fmap_sublist, slice_sublist.
    + apply slice_length_le.
  - intros [= <-]. split; [exact I|]. split; [apply NoDup_nil_2 | simpl; lia].
Qed.

Lemma search_results_witness :
  NoDup (ScoredChunk.file_id <$>
           Fixture.chunks_of
             (HybridRetriever.search Fixture.two_chunk_backends SearchConfig.default
                Fixture.two_chunk_catalog "database" (Some 10) (5 # 2))).
Proof.
  set (r := HybridRetriever.search Fixture.two_chunk_backends SearchConfig.default
              Fixture.two_chunk_catalog "database" (Some 10) (5 # 2)).
  assert (r = Ok (Fixture.chunks_of r)) as Hr by (vm_compute; reflexivity).
  exact (proj1 (proj2 (search_results _ _ _ _ _ _ _ Hr))).
Defined.

(** ** api.py: the cache *)

Lemma cache_get_set (key : string) (e : SearchAPI.CacheEntry)
    (c : list (string * SearchAPI.CacheEntry)) :
  SearchAPI.cache_get key (SearchAPI.cache_set key e c) = Some e.
Proof.
  induction c as [|[k e'] c IH]; simpl.
  - now rewrite String.eqb_refl.
  - destruct (String.eqb k key) eqn:Hk; simpl; rewrite Hk; [reflexivity | exact IH].
Qed.

Lemma cache_set_keys (key : string) (e : SearchAPI.CacheEntry)
    (c : list (string * SearchAPI.CacheEntry)) :
  (key ∈ c.*1 -> (SearchAPI.cache_set key e c).*1 = c.*1)
  /\ (key ∉ c.*1 -> (SearchAPI.cache_set key e c).*1 = c.*1 ++ [key]).
Proof.
  induction c as [|[k e'] c [IHin IHout]].
  - split; [intros Hin; inversion Hin | reflexivity].
  - cbn [SearchAPI.cache_set]. rewrite !fmap_cons. cbn [fst].
    destruct (String.eqb k key) eqn:Hk.
    + apply String.eqb_eq in Hk. subst k. rewrite fmap_cons. cbn [fst].
      split; [reflexivity | intros Hn; exfalso; apply Hn; left].
    + apply String.eqb_neq in Hk. rewrite fmap_cons. cbn [fst]. split.
      * intros Hin. apply elem_of_cons in Hin as [-> | Hin]; [congruence|].
        now rewrite IHin.
      * intros Hn. rewrite IHout; [reflexivity|].
        intros Hin. apply Hn. now right.
Qed.

Lemma cache_del_keys (key : string) (c : list (string * SearchAPI.CacheEntry)) :
  (SearchAPI.cache_del key c).*1 `sublist_of` c.*1
  /\ (key ∈ c.*1 -> (length (SearchAPI.cache_del key c) < length c)%nat).
Proof.
  unfold SearchAPI.cache_del.
  induction c as [|[k e] c [IHs IHl]].
  - split; [constructor | intros Hin; inversion Hin].
  - pose proof (sublist_length _ _ IHs) as Hlen. rewrite !length_fmap in Hlen.
    cbn [List.filter fst]. rewrite fmap_cons. cbn [fst].
    destruct (String.eqb k key) eqn:Hk; cbn [negb].
    + split; [now constructor|]. intros _. cbn [length]. lia.
    + rewrite fmap_cons. cbn [fst]. split; [now constructor|]. intros Hin.
      apply String.eqb_neq in Hk.
      apply elem_of_cons in Hin as [-> | Hin]; [congruence|].
      specialize (IHl Hin). cbn [length]. lia.
Qed.

Lemma oldest_key_listed (c : list (string * SearchAPI.CacheEntry)) (k : string) :
  SearchAPI.oldest_key c = Ok k -> k ∈ c.*1.
Proof.
  unfold SearchAPI.oldest_key. destruct c as [|[k0 e0] c]; [discriminate|].
  intros [= <-].
  assert (forall (l : list (string * SearchAPI.CacheEntry)) best,
             (fold_left (fun best ke =>
                           if HybridRetriever.qlt (SearchAPI.ce_timestamp ke.2)
                                                  (SearchAPI.ce_timestamp best.2)
                           then ke else best) l best).1 ∈ best.1 :: l.*1) as Hfold.
  { induction l as [|ke l IH]; intros best; simpl; [left|].
    destruct (HybridRetriever.qlt _ _).
    - specialize (IH ke). apply elem_of_cons in IH as [-> | IH];
        [right; left | right; now right].
    - specialize (IH best). apply elem_of_cons in IH as [-> | IH];
        [left | right; now right]. }
  apply (Hfold c (k0, e0)).
Qed.

Lemma cache_result_bounded (cfg : SearchConfig.t) (st st' : SearchAPI.t) (key : string)
    (result : gmap string SearchAPI.Value) (now : Q) :
  SearchAPI._cache_result cfg st key result now = Ok st' ->
  NoDup (SearchAPI._cache st).*1 ->
  Z.of_nat (length (SearchAPI._cache st)) <= SearchConfig.cache_size cfg ->
  NoDup (SearchAPI._cache st').*1
  /\ Z.of_nat (length (SearchAPI._cache st')) <= SearchConfig.cache_size cfg
  /\ SearchAPI.cache_get key (SearchAPI._cache st')
     = Some {| SearchAPI.ce_result := result; SearchAPI.ce_timestamp := now |}.
Proof.
  unfold SearchAPI._cache_result. intros Hr Hnd Hlen.
  assert (forall c : list (string * SearchAPI.CacheEntry),
             NoDup c.*1 ->
             forall e, NoDup (SearchAPI.cache_set key e c).*1
                       /\ (length (SearchAPI.cache_set key e c) <= S (length c))%nat)
    as Hset.
  { intros c Hc e. destruct (cache_set_keys key e c) as [Hkin Hkout].
    assert (length (SearchAPI.cache_set key e c) = length (SearchAPI.cache_set key e c).*1)
      as -> by now rewrite length_fmap.
    destruct (decide (key ∈ c.*1)) as [Hin | Hn].
    - rewrite (Hkin Hin). split; [exact Hc | rewrite length_fmap; lia].
    - rewrite (Hkout Hn). split.
      + apply NoDup_app. split; [exact Hc|]. split; [|apply NoDup_singleton].
        intros x Hx Hx'. apply list_elem_of_singleton in Hx'. now subst.
      + rewrite length_app, length_fmap. simpl. lia. }
  destruct (SearchConfig.cache_size cfg <=? Z.of_nat (length (SearchAPI._cache st))) eqn:Hfull.
  - destruct (SearchAPI.oldest_key (SearchAPI._cache st)) as [old| |] eqn:Ho;
      simpl in Hr; try discriminate.
    injection Hr as <-. simpl.
    destruct (cache_del_keys old (SearchAPI._cache st)) as [Hsub Hless].
    specialize (Hless (oldest_key_listed _ _ Ho)).
    destruct (Hset (SearchAPI.cache_del old (SearchAPI._cache st))
                (sublist_NoDup _ _ Hnd Hsub)
                {| SearchAPI.ce_result := result; SearchAPI.ce_timestamp := now |})
      as [Hnd' Hlen'].
    split; [exact Hnd'|]. split; [lia | apply cache_get_set].
  - apply Z.leb_gt in Hfull. simpl in Hr. injection Hr as <-. simpl.
    destruct (Hset (SearchAPI._cache st) Hnd
                {| SearchAPI.ce_result := result; SearchAPI.ce_timestamp := now |})
      as [Hnd' Hlen'].
    split; [exact Hnd'|]. split; [lia | apply cache_get_set].
Qed.

Lemma lookup_bounded (st : SearchAPI.t) (key : string) (now : Q) :
  NoDup (SearchAPI._cache st).*1 ->
  NoDup (SearchAPI._cache (SearchAPI._get_cached_result st key now).2).*1
  /\ (length (SearchAPI._cache (SearchAPI._get_cached_result st key now).2)
      <= length (SearchAPI._cache st))%nat.
Proof.
  intros Hnd. unfold SearchAPI._get_cached_result.
  destruct (SearchAPI.cache_get key (SearchAPI._cache st));
    [|cbn [snd]; split; [exact Hnd | lia]].
  destruct (HybridRetriever.qlt _ _); [|cbn [snd]; split; [exact Hnd | lia]].
  cbn [snd SearchAPI._cache]. destruct (cache_del_keys key (SearchAPI._cache st)) as [Hsub _].
  split; [eapply sublist_NoDup; eauto|].
  pose proof (sublist_length _ _ Hsub) as Hlen. now rewrite !length_fmap in Hlen.
Qed.

(** The cache keeps one entry per key and never grows beyond
    [cache_size]: both hold after [run] when they held before. *)
Theorem run_keeps_cache_bounded (H : Hashes) (X : SearchAPI.Externals)
    (cfg : SearchConfig.t)
    (retriever_search : string -> option Z -> Q -> outcome (list ScoredChunk.t))
    (st st' : SearchAPI.t) (query : string) (k : option Z) (page per_page : Z)
    (opts : option (gmap string SearchAPI.OptValue)) (tm : SearchAPI.Times)
    (r : gmap string SearchAPI.Value) :
  NoDup (SearchAPI._cache st).*1 ->
  Z.of_nat (length (SearchAPI._cache st)) <= SearchConfig.cache_size cfg ->
  SearchAPI.run H X cfg retriever_search st query k page per_page opts tm = Ok (r, st') ->
  NoDup (SearchAPI._cache st').*1
  /\ Z.of_nat (length (SearchAPI._cache st')) <= SearchConfig.cache_size cfg.
Proof.
  intros Hnd Hlen Hrun. unfold SearchAPI.run in Hrun. cbv zeta in Hrun.
  set (key := SearchAPI._generate_cache_key H X query (SearchAPI.k_or_top_k cfg k)
                page per_page (default ∅ opts)) in *.
  set (sopts := SearchAPI.search_options cfg (default ∅ opts)) in *.
  destruct (lookup_bounded st key (SearchAPI.t_lookup tm) Hnd) as [Hnd0 Hlen0].
  set (lookup := SearchAPI._get_cached_result st key (SearchAPI.t_lookup tm)) in *.
  assert (SearchAPI.search_and_cache X cfg retriever_search lookup.2 key query
            (SearchAPI.k_or_top_k cfg k) page per_page sopts tm = Ok (r, st') ->
          NoDup (SearchAPI._cache st').*1
          /\ Z.of_nat (length (SearchAPI._cache st')) <= SearchConfig.cache_size cfg)
    as Hfresh.
  { unfold SearchAPI.search_and_cache.
    destruct (SearchAPI.ranked_hits X cfg retriever_search query
                (SearchAPI.k_or_top_k cfg k) sopts) as [hits| e |]; simpl;
      [| intros [= <- <-]; split; [exact Hnd0 | lia] | discriminate].
    destruct (SearchAPI.success_response query page per_page hits tm) as [res| e |];
      simpl; [| intros [= <- <-]; split; [exact Hnd0 | lia] | discriminate].
    destruct (SearchAPI._cache_result cfg lookup.2 key res (SearchAPI.t_store tm))
      as [st1| e |] eqn:Hc; simpl;
      [| intros [= <- <-]; split; [exact Hnd0 | lia] | discriminate].
    intros [= <- <-].
    destruct (cache_result_bounded _ _ _ _ _ _ Hc Hnd0 ltac:(lia)) as (Ha & Hb & _).
    now split. }
  destruct lookup.1 as [cached|] eqn:Hl; [|now apply Hfresh].
  destruct (decide (cached = ∅)); [now apply Hfresh|].
  injection Hrun as <- <-. cbn [SearchAPI._cache].
  destruct (get_cached_result_hit _ _ _ _ Hl) as [Hst [e [Hin _]]].
  fold lookup in Hst. rewrite Hst in *.
  assert (key ∈ (SearchAPI._cache st).*1) as Hkey.
  { apply list_elem_of_fmap. exists (key, e). split; [reflexivity | exact Hin]. }
  pose proof (proj1 (cache_set_keys key
                {| SearchAPI.ce_result := <["cache_hit" := SearchAPI.VBool true]> cached;
                   SearchAPI.ce_timestamp :=
                     default 0%Q (SearchAPI.ce_timestamp <$>
                                    SearchAPI.cache_get key (SearchAPI._cache st)) |}
                (SearchAPI._cache st)) Hkey) as Hk.
  split; [now rewrite Hk|].
  match goal with |- Z.of_nat (length ?c) <= _ =>
    assert (length c = length c.*1) as -> by now rewrite length_fmap end.
  rewrite Hk, length_fmap. exact Hlen.
Qed.

Lemma run_keeps_cache_bounded_witness :
  Z.of_nat (length (SearchAPI._cache
    (Fixture.cache_of
       (Fixture.api_run Fixture.two_chunk_backends Fixture.two_chunk_catalog
          SearchAPI.init "database" (Some 10) 1 10 None Fixture.times)))) <= 128.
Proof.
  set (out := Fixture.api_run Fixture.two_chunk_backends Fixture.two_chunk_catalog
                SearchAPI.init "database" (Some 10) 1 10 None Fixture.times).
  refine (proj2 (run_keeps_cache_bounded Fixture.hashes Fixture.externals
                   SearchConfig.default
                   (HybridRetriever.search Fixture.two_chunk_backends SearchConfig.default
                      Fixture.two_chunk_catalog)
                   SearchAPI.init (Fixture.cache_of out) "database" (Some 10) 1 10 None
                   Fixture.times (Fixture.response_of out) _ _ _)).
  - apply NoDup_nil_2.
  - simpl. lia.
  - vm_compute. reflexivity.
Defined.

Lemma fresh_response_flags (X : SearchAPI.Externals) (cfg : SearchConfig.t)
    (retriever_search : string -> option Z -> Q -> outcome (list ScoredChunk.t))
    (st st' : SearchAPI.t) (key query : string) (k page per_page : Z)
    (sopts : SearchAPI.SearchOptions) (tm : SearchAPI.Times)
    (r : gmap string SearchAPI.Value) :
  SearchAPI.search_and_cache X cfg retriever_search st key query k page per_page sopts tm
  = Ok (r, st') ->
  r !! "cache_hit" = Some (SearchAPI.VBool false)
  /\ (r !! "error" = None ->
      SearchAPI.cache_get key (SearchAPI._cache st')
      = Some {| SearchAPI.ce_result := r; SearchAPI.ce_timestamp := SearchAPI.t_store tm |})
  /\ (r !! "error" <> None -> st' = st).
Proof.
  unfold SearchAPI.search_and_cache.
  assert (forall e, let r := SearchAPI.error_response query page per_page e tm in
                    r !! "cache_hit" = Some (SearchAPI.VBool false)
                    /\ r !! "error" <> None) as Herr.
  { intros e. split; [reflexivity | discriminate]. }
  destruct (SearchAPI.ranked_hits X cfg retriever_search query k sopts) as [hits| e |];
    simpl; [| intros [= <- <-]; destruct (Herr e) as [Ha Hb];
              split; [exact Ha | split; [intros; contradiction | reflexivity]]
           | discriminate].
  destruct (SearchAPI.success_response query page per_page hits tm) as [res| e |] eqn:Hs;
    simpl; [| intros [= <- <-]; destruct (Herr e) as [Ha Hb];
              split; [exact Ha | split; [intros; contradiction | reflexivity]]
           | discriminate].
  destruct (SearchAPI._cache_result cfg st key res (SearchAPI.t_store tm))
    as [st1| e |] eqn:Hc; simpl;
    [| intros [= <- <-]; destruct (Herr e) as [Ha Hb];
       split; [exact Ha | split; [intros; contradiction | reflexivity]]
     | discriminate].
  intros [= <- <-].
  destruct (success_response_spec _ _ _ _ _ _ Hs) as (_ & _ & Herror & Hflag).
  split; [exact Hflag|]. split; [|intros Hne; contradiction].
  intros _. unfold SearchAPI._cache_result in Hc.
  destruct (if SearchConfig.cache_size cfg <=? Z.of_nat (length (SearchAPI._cache st))
            then _ else _) as [c| |]; simpl in Hc; try discriminate.
  injection Hc as <-. apply cache_get_set.
Qed.

(** A response flagged [cache_hit] is the stored response of an entry of
    the cache under the key of the call, and that entry was stored at
    most [_cache_ttl] = 3600 seconds before the lookup: an expired entry
    is never served. *)
Theorem cache_hit_is_within_ttl (H : Hashes) (X : SearchAPI.Externals)
    (cfg : SearchConfig.t)
    (retriever_search : string -> option Z -> Q -> outcome (list ScoredChunk.t))
    (st st' : SearchAPI.t) (query : string) (k : option Z) (page per_page : Z)
    (opts : option (gmap string SearchAPI.OptValue)) (tm : SearchAPI.Times)
    (r : gmap string SearchAPI.Value) :
  SearchAPI.run H X cfg retriever_search st query k page per_page opts tm = Ok (r, st') ->
  r !! "cache_hit" = Some (SearchAPI.VBool true) ->
  exists e,
    SearchAPI.cache_get
      (SearchAPI._generate_cache_key H X query (SearchAPI.k_or_top_k cfg k) page per_page
         (default ∅ opts)) (SearchAPI._cache st) = Some e
    /\ (SearchAPI.t_lookup tm - SearchAPI.ce_timestamp e <= 3600)%Q
    /\ r = <["cache_hit" := SearchAPI.VBool true]> (SearchAPI.ce_result e).
Proof.
  intros Hrun Hflag. unfold SearchAPI.run in Hrun. cbv zeta in Hrun.
  set (key := SearchAPI._generate_cache_key H X query (SearchAPI.k_or_top_k cfg k)
                page per_page (default ∅ opts)) in *.
  assert (forall s, SearchAPI.search_and_cache X cfg retriever_search s key query
                      (SearchAPI.k_or_top_k cfg k) page per_page
                      (SearchAPI.search_options cfg (default ∅ opts)) tm = Ok (r, st') ->
                    False) as Hfresh.
  { intros s Hs. destruct (fresh_response_flags _ _ _ _ _ _ _ _ _ _ _ _ _ Hs) as [Hf _].
    congruence. }
  unfold SearchAPI._get_cached_result in Hrun.
  destruct (SearchAPI.cache_get key (SearchAPI._cache st)) as [e|] eqn:Hg;
    [|exfalso; exact (Hfresh _ Hrun)].
  destruct (HybridRetriever.qlt SearchAPI._cache_ttl
              (SearchAPI.t_lookup tm - SearchAPI.ce_timestamp e)) eqn:Hq;
    [exfalso; exact (Hfresh _ Hrun)|].
  cbn [fst snd] in Hrun.
  destruct (decide (SearchAPI.ce_result e = ∅)); [exfalso; exact (Hfresh _ Hrun)|].
  injection Hrun as <- _. exists e. split; [reflexivity|].
  split; [exact (qlt_false _ _ Hq) | reflexivity].
Qed.

(** A fresh successful response is stored: the same call made again,
    looked up at most 3600 seconds after the store, is answered with the
    same dictionary, its [cache_hit] set to [True]. *)
Theorem run_again_is_served_from_cache (H : Hashes) (X : SearchAPI.Externals)
    (cfg : SearchConfig.t)
    (retriever_search retriever_search' : string -> option Z -> Q
                                          -> outcome (list ScoredChunk.t))
    (st st' : SearchAPI.t) (query : string) (k : option Z) (page per_page : Z)
    (opts : option (gmap string SearchAPI.OptValue)) (tm tm' : SearchAPI.Times)
    (r : gmap string SearchAPI.Value) :
  SearchAPI.run H X cfg retriever_search st query k page per_page opts tm = Ok (r, st') ->
  r !! "error" = None ->
  r !! "cache_hit" = Some (SearchAPI.VBool false) ->
  (SearchAPI.t_lookup tm' - SearchAPI.t_store tm <= 3600)%Q ->
  exists st'',
    SearchAPI.run H X cfg retriever_search' st' query k page per_page opts tm'
    = Ok (<["cache_hit" := SearchAPI.VBool true]> r, st'').
Proof.
  intros Hrun Herror Hflag Hage.
  assert (SearchAPI.cache_get
            (SearchAPI._generate_cache_key H X query (SearchAPI.k_or_top_k cfg k)
               page per_page (default ∅ opts)) (SearchAPI._cache st')
          = Some {| SearchAPI.ce_result := r;
                    SearchAPI.ce_timestamp := SearchAPI.t_store tm |}) as Hstored.
  { unfold SearchAPI.run in Hrun. cbv zeta in Hrun.
    destruct (SearchAPI._get_cached_result st _ (SearchAPI.t_lookup tm)).1 as [cached|];
      [|exact (proj1 (proj2 (fresh_response_flags _ _ _ _ _ _ _ _ _ _ _ _ _ Hrun)) Herror)].
    destruct (decide (cached = ∅));
      [exact (proj1 (proj2 (fresh_response_flags _ _ _ _ _ _ _ _ _ _ _ _ _ Hrun)) Herror)|].
    injection Hrun as <- _. rewrite lookup_insert_eq in Hflag. discriminate. }
  unfold SearchAPI.run. cbv zeta. unfold SearchAPI._get_cached_result.
  rewrite Hstored. cbn [SearchAPI.ce_timestamp SearchAPI.ce_result].
  assert (HybridRetriever.qlt SearchAPI._cache_ttl
            (SearchAPI.t_lookup tm' - SearchAPI.t_store tm) = false) as ->.
  { unfold HybridRetriever.qlt. apply negb_false_iff, Qle_bool_iff. exact Hage. }
  cbn [fst snd].
  destruct (decide (r = ∅)) as [-> | _]; [rewrite lookup_empty in Hflag; discriminate|].
  eexists. reflexivity.
Qed.

Lemma run_again_is_served_from_cache_witness :
  exists st'',
    Fixture.api_run Fixture.two_chunk_backends Fixture.two_chunk_catalog
      (Fixture.cache_of
         (Fixture.api_run Fixture.two_chunk_backends Fixture.two_chunk_catalog
            SearchAPI.init "database" (Some 10) 1 10 None Fixture.times))
      "database" (Some 10) 1 10 None Fixture.times
    = Ok (<["cache_hit" := SearchAPI.VBool true]>
            (Fixture.response_of
               (Fixture.api_run Fixture.two_chunk_backends Fixture.two_chunk_catalog
                  SearchAPI.init "database" (Some 10) 1 10 None Fixture.times)), st'').
Proof.
  apply (run_again_is_served_from_cache Fixture.hashes Fixture.externals
           SearchConfig.default
           (HybridRetriever.search Fixture.two_chunk_backends SearchConfig.default
              Fixture.two_chunk_catalog)
           (HybridRetriever.search Fixture.two_chunk_backends SearchConfig.default
              Fixture.two_chunk_catalog)
           SearchAPI.init _ "database" (Some 10) 1 10 None Fixture.times Fixture.times).
  - vm_compute. reflexivity.
  - vm_compute. reflexivity.
  - vm_compute. reflexivity.
  - vm_compute. discriminate.
Defined.

Lemma cache_hit_is_within_ttl_witness :
  exists e,
    SearchAPI.cache_get
      (SearchAPI._generate_cache_key Fixture.hashes Fixture.externals "database"
         (SearchAPI.k_or_top_k SearchConfig.default (Some 10)) 1 10 (default ∅ None))
      (SearchAPI._cache
         (Fixture.cache_of
            (Fixture.api_run Fixture.two_chunk_backends Fixture.two_chunk_catalog
               SearchAPI.init "database" (Some 10) 1 10 None Fixture.times))) = Some e
    /\ (SearchAPI.t_lookup Fixture.times - SearchAPI.ce_timestamp e <= 3600)%Q
    /\ Fixture.response_of
         (Fixture.api_run Fixture.two_chunk_backends Fixture.two_chunk_catalog
            (Fixture.cache_of
               (Fixture.api_run Fixture.two_chunk_backends Fixture.two_chunk_catalog
                  SearchAPI.init "database" (Some 10) 1 10 None Fixture.times))
            "database" (Some 10) 1 10 None Fixture.times)
       = <["cache_hit" := SearchAPI.VBool true]> (SearchAPI.ce_result e).
Proof.
  apply (cache_hit_is_within_ttl Fixture.hashes Fixture.externals SearchConfig.default
           (HybridRetriever.search Fixture.two_chunk_backends SearchConfig.default
              Fixture.two_chunk_catalog)
           _ (Fixture.cache_of
                (Fixture.api_run Fixture.two_chunk_backends Fixture.two_chunk_catalog
                   (Fixture.cache_of
                      (Fixture.api_run Fixture.two_chunk_backends Fixture.two_chunk_catalog
                         SearchAPI.init "database" (Some 10) 1 10 None Fixture.times))
                   "database" (Some 10) 1 10 None Fixture.times))
           "database" (Some 10) 1 10 None Fixture.times).
  - vm_compute. reflexivity.
  - vm_compute. reflexivity.
Defined.

Lemma search_and_cache_error (X : SearchAPI.Externals) (cfg : SearchConfig.t)
    (retriever_search : string -> option Z -> Q -> outcome (list ScoredChunk.t))
    (st st' : SearchAPI.t) (key query : string) (k page per_page : Z)
    (sopts : SearchAPI.SearchOptions) (tm : SearchAPI.Times)
    (r : gmap string SearchAPI.Value) :
  SearchAPI.search_and_cache X cfg retriever_search st key query k page per_page sopts tm
  = Ok (r, st') ->
  (forall hits res,
      SearchAPI.success_response query page per_page hits tm = Ok res ->
      exists e, SearchAPI._cache_result cfg st key res (SearchAPI.t_store tm) = Raise e) ->
  st' = st /\ exists e, r = SearchAPI.error_response query page per_page e tm.
Proof.
  unfold SearchAPI.search_and_cache. intros Hrun Hfail.
  destruct (SearchAPI.ranked_hits X cfg retriever_search query k sopts) as [hits| e |];
    simpl in Hrun; [| injection Hrun as <- <-; eauto | discriminate].
  destruct (SearchAPI.success_response query page per_page hits tm) as [res| e |] eqn:Hs;
    simpl in Hrun; [| injection Hrun as <- <-; eauto | discriminate].
  destruct (Hfail hits res Hs) as [e He]. rewrite He in Hrun. simpl in Hrun.
  injection Hrun as <- <-. eauto.
Qed.

(** With [cache_size] 0 (or negative) no search succeeds: on the empty
    cache every call of [run] ends in the error response, because storing
    the result evicts from an empty dictionary, and the cache stays
    empty. *)
Theorem zero_cache_size_fails_every_search (H : Hashes) (X : SearchAPI.Externals)
    (cfg : SearchConfig.t)
    (retriever_search : string -> option Z -> Q -> outcome (list ScoredChunk.t))
    (st' : SearchAPI.t) (query : string) (k : option Z) (page per_page : Z)
    (opts : option (gmap string SearchAPI.OptValue)) (tm : SearchAPI.Times)
    (r : gmap string SearchAPI.Value) :
  SearchConfig.cache_size cfg <= 0 ->
  SearchAPI.run H X cfg retriever_search SearchAPI.init query k page per_page opts tm
  = Ok (r, st') ->
  st' = SearchAPI.init
  /\ exists e, r = SearchAPI.error_response query page per_page e tm.
Proof.
  intros Hsize Hrun. unfold SearchAPI.run in Hrun. cbv zeta in Hrun.
  unfold SearchAPI._get_cached_result in Hrun. cbn in Hrun.
  apply search_and_cache_error in Hrun; [exact Hrun|].
  intros hits res _. exists "ValueError". unfold SearchAPI._cache_result.
  cbn [SearchAPI._cache SearchAPI.init length SearchAPI.oldest_key].
  assert ((SearchConfig.cache_size cfg <=? Z.of_nat 0) = true) as ->
      by (apply Z.leb_le; simpl; lia).
  reflexivity.
Qed.

Lemma zero_cache_size_fails_every_search_witness :
  Fixture.cache_of
    (SearchAPI.run Fixture.hashes Fixture.externals Fixture.no_cache_config
       (HybridRetriever.search Fixture.two_chunk_backends Fixture.no_cache_config
          Fixture.two_chunk_catalog)
       SearchAPI.init "database" (Some 10) 1 10 None Fixture.times) = SearchAPI.init
  /\ exists e,
      Fixture.response_of
        (SearchAPI.run Fixture.hashes Fixture.externals Fixture.no_cache_config
           (HybridRetriever.search Fixture.two_chunk_backends Fixture.no_cache_config
              Fixture.two_chunk_catalog)
           SearchAPI.init "database" (Some 10) 1 10 None Fixture.times)
      = SearchAPI.error_response "database" 1 10 e Fixture.times.
Proof.
  apply (zero_cache_size_fails_every_search Fixture.hashes Fixture.externals
           Fixture.no_cache_config
           (HybridRetriever.search Fixture.two_chunk_backends Fixture.no_cache_config
              Fixture.two_chunk_catalog)
           _ "database" (Some 10) 1 10 None Fixture.times).
  - vm_compute. discriminate.
  - vm_compute. reflexivity.
Defined.

(** [per_page = 0] is answered with the error response (the page count
    divides by it) and nothing is stored, when the cache holds no entry
    under the key of the call. *)
Theorem per_page_zero_is_an_error (H : Hashes) (X : SearchAPI.Externals)
    (cfg : SearchConfig.t)
    (retriever_search : string -> option Z -> Q -> outcome (list ScoredChunk.t))
    (st st' : SearchAPI.t) (query : string) (k : option Z) (page : Z)
    (opts : option (gmap string SearchAPI.OptValue)) (tm : SearchAPI.Times)
    (r : gmap string SearchAPI.Value) :
  SearchAPI.cache_get
    (SearchAPI._generate_cache_key H X query (SearchAPI.k_or_top_k cfg k) page 0
       (default ∅ opts)) (SearchAPI._cache st) = None ->
  SearchAPI.run H X cfg retriever_search st query k page 0 opts tm = Ok (r, st') ->
  st' = st /\ exists e, r = SearchAPI.error_response query page 0 e tm.
Proof.
  intros Hnone Hrun. unfold SearchAPI.run in Hrun. cbv zeta in Hrun.
  unfold SearchAPI._get_cached_result in Hrun. rewrite Hnone in Hrun.
  cbn [fst snd] in Hrun.
  apply search_and_cache_error in Hrun; [exact Hrun|].
  intros hits res Hres. unfold SearchAPI.success_response in Hres.
  rewrite Z.eqb_refl in Hres. discriminate.
Qed.

Lemma per_page_zero_is_an_error_witness :
  Fixture.cache_of
    (Fixture.api_run Fixture.two_chunk_backends Fixture.two_chunk_catalog
       SearchAPI.init "database" (Some 10) 1 0 None Fixture.times) = SearchAPI.init
  /\ exists e,
      Fixture.response_of
        (Fixture.api_run Fixture.two_chunk_backends Fixture.two_chunk_catalog
           SearchAPI.init "database" (Some 10) 1 0 None Fixture.times)
      = SearchAPI.error_response "database" 1 0 e Fixture.times.
Proof.
  apply (per_page_zero_is_an_error Fixture.hashes Fixture.externals SearchConfig.default
           (HybridRetriever.search Fixture.two_chunk_backends SearchConfig.default
              Fixture.two_chunk_catalog)
           SearchAPI.init _ "database" (Some 10) 1 None Fixture.times).
  - reflexivity.
  - vm_compute. reflexivity.
Defined.

(** ** indexer.py: items, slices and statistics *)

(** [_process_item] records what it processed and is idempotent: after
    an item that exists was processed to the end, [seen] holds its
    [(device, inode)], and processing it again (the file system
    unchanged) changes nothing: no second extraction, no second count.
    An item that does not exist leaves everything as it was. *)
Theorem process_item_twice (H : Hashes) (W : BFSIndexer.World) (cfg : IndexConfig.t)
    (item_path : string) (fs fs' : FrontierState.t * BFSIndexer.t) :
  BFSIndexer._process_item H W cfg item_path fs = BFSIndexer.Done fs' ->
  match BFSIndexer.stat W item_path with
  | Some s =>
      FrontierState.seen fs'.1 !! item_path
      = Some (BFSIndexer.st_dev s, BFSIndexer.st_ino s)
  | None => fs' = fs
  end
  /\ BFSIndexer._process_item H W cfg item_path fs' = BFSIndexer.Done fs'.
Proof.
  destruct fs as [frontier st]. unfold BFSIndexer._process_item at 1.
  destruct (BFSIndexer.stat W item_path) as [s|] eqn:Hstat.
  - destruct (bool_decide (FrontierState.seen frontier !! item_path
                           = Some (BFSIndexer.st_dev s, BFSIndexer.st_ino s))) eqn:Hseen.
    + intros [= <-]. split; [now apply bool_decide_eq_true_1 in Hseen|].
      unfold BFSIndexer._process_item. now rewrite Hstat, Hseen.
    + assert (forall q seen pf pd er st',
                 let f := FrontierState.mk q
                            (<[item_path := (BFSIndexer.st_dev s, BFSIndexer.st_ino s)]> seen)
                            pf pd er in
                 FrontierState.seen (f, st').1 !! item_path
                 = Some (BFSIndexer.st_dev s, BFSIndexer.st_ino s)
                 /\ BFSIndexer._process_item H W cfg item_path (f, st')
                    = BFSIndexer.Done (f, st')) as Hagain.
      { intros q seen pf pd er st' f. subst f. cbn [fst FrontierState.seen].
        split; [apply lookup_insert_eq|].
        unfold BFSIndexer._process_item. rewrite Hstat.
        cbn [FrontierState.seen]. rewrite lookup_insert_eq.
        now rewrite bool_decide_eq_true_2. }
      cbv zeta in Hagain.
      destruct (BFSIndexer.st_kind s).
      * destruct (BFSIndexer._process_file H W cfg item_path st) as [st'| |];
          [|discriminate..].
        intros [= <-]. apply Hagain.
      * intros [= <-]. apply Hagain.
      * intros [= <-]. apply Hagain.
  - intros [= <-]. split; [reflexivity|].
    unfold BFSIndexer._process_item. now rewrite Hstat.
Qed.

Lemma process_item_twice_witness :
  FrontierState.seen Fixture.after_page.1 !! "/r/page.html" = Some (1, 3)
  /\ BFSIndexer._process_item Fixture.hashes Fixture.html_world Fixture.index_config
       "/r/page.html" Fixture.after_page
     = BFSIndexer.Done Fixture.after_page.
Proof.
  apply (process_item_twice Fixture.hashes Fixture.html_world Fixture.index_config
           "/r/page.html" (FrontierState.empty, BFSIndexer.init)).
  vm_compute. reflexivity.
Defined.

Lemma stats_le_refl (a : IndexStats.t) : Shape.stats_le a a.
Proof. unfold Shape.stats_le. lia. Qed.

Lemma stats_le_trans (a b c : IndexStats.t) :
  Shape.stats_le a b -> Shape.stats_le b c -> Shape.stats_le a c.
Proof. unfold Shape.stats_le. lia. Qed.

Lemma process_file_stats (H : Hashes) (W : BFSIndexer.World) (cfg : IndexConfig.t)
    (file_path : string) (st : BFSIndexer.t) :
  match BFSIndexer._process_file H W cfg file_path st with
  | BFSIndexer.Done st' | BFSIndexer.Failed _ st' =>
      Shape.stats_le (BFSIndexer.stats st) (BFSIndexer.stats st')
  | BFSIndexer.Loops => True
  end.
Proof.
  assert (Shape.stats_le (BFSIndexer.stats st) (BFSIndexer.stats (BFSIndexer.skipped st)))
    as Hskip by (unfold Shape.stats_le; simpl; lia).
  unfold BFSIndexer._process_file.
  destruct (negb _); [exact Hskip|].
  destruct (BFSIndexer._should_exclude W cfg file_path); [exact Hskip|].
  destruct (BFSIndexer.get_file_stats W file_path) as [[size mtime]|];
    [|apply stats_le_refl].
  match goal with |- context [if ?b then _ else _] => destruct b end; [exact Hskip|].
  destruct (BFSIndexer.extract_text W file_path) as [text|]; [|exact Hskip].
  destruct (negb (Py.truthy text)); [exact Hskip|].
  destruct (BFSIndexer._chunk_text H W cfg text file_path _) as [chunks| e |];
    [|apply stats_le_refl | exact I].
  unfold BFSIndexer._embed_and_upsert.
  destruct (BFSIndexer.embed W _); unfold Shape.stats_le; simpl; lia.
Qed.

Lemma process_item_stats (H : Hashes) (W : BFSIndexer.World) (cfg : IndexConfig.t)
    (item_path : string) (fs : FrontierState.t * BFSIndexer.t) :
  match BFSIndexer._process_item H W cfg item_path fs with
  | BFSIndexer.Done fs' | BFSIndexer.Failed _ fs' =>
      Shape.stats_le (BFSIndexer.stats fs.2) (BFSIndexer.stats fs'.2)
  | BFSIndexer.Loops => True
  end.
Proof.
  destruct fs as [frontier st]. unfold BFSIndexer._process_item.
  destruct (BFSIndexer.stat W item_path) as [s|]; [|apply stats_le_refl].
  destruct (bool_decide _); [apply stats_le_refl|].
  destruct (BFSIndexer.st_kind s); try apply stats_le_refl.
  pose proof (process_file_stats H W cfg item_path st) as Hf.
  destruct (BFSIndexer._process_file H W cfg item_path st) as [st'| e st' |];
    [| exact Hf | exact I].
  cbn [snd]. revert Hf. unfold Shape.stats_le. simpl. lia.
Qed.

Lemma process_level_stats (H : Hashes) (W : BFSIndexer.World) (cfg : IndexConfig.t)
    (items : list string) (fs fs' : FrontierState.t * BFSIndexer.t) :
  BFSIndexer.process_level H W cfg items fs = Some fs' ->
  Shape.stats_le (BFSIndexer.stats fs.2) (BFSIndexer.stats fs'.2).
Proof.
  revert fs. induction items as [|p items IH]; intros fs.
  - intros [= <-]. apply stats_le_refl.
  - cbn [BFSIndexer.process_level].
    pose proof (process_item_stats H W cfg p fs) as Hi.
    destruct (BFSIndexer._process_item H W cfg p fs) as [fs1| e [f1 st1] |];
      [| |discriminate].
    + intros Hrest. eapply stats_le_trans; [exact Hi | exact (IH _ Hrest)].
    + intros Hrest. apply IH in Hrest. cbn [snd] in *.
      eapply stats_le_trans; [exact Hi|]. eapply stats_le_trans; [|exact Hrest].
      unfold Shape.stats_le. simpl. lia.
Qed.

Lemma run_bfs_slice_stats (H : Hashes) (W : BFSIndexer.World) (cfg : IndexConfig.t)
    (roots : list string) (max_items : option Z) (saved : option FrontierState.t)
    (st : BFSIndexer.t) (fs' : FrontierState.t * BFSIndexer.t) :
  BFSIndexer.run_bfs_slice H W cfg roots max_items saved st = Some fs' ->
  Shape.stats_le (BFSIndexer.stats st) (BFSIndexer.stats fs'.2).
Proof.
  unfold BFSIndexer.run_bfs_slice. cbv zeta.
  destruct (BFSIndexer.dequeue _ _) as [level frontier].
  intros Hl. exact (process_level_stats _ _ _ _ _ _ Hl).
Qed.

Lemma complete_loop_total (H : Hashes) (W : BFSIndexer.World) (cfg : IndexConfig.t)
    (fuel : nat) (roots : list string) (m : Z) (saved : option FrontierState.t)
    (st st' : BFSIndexer.t) (total total' : IndexStats.t) (frontier : FrontierState.t) :
  Shape.stats_le IndexStats.zero (BFSIndexer.stats st) ->
  BFSIndexer.complete_loop H W cfg fuel roots m saved st total
  = Some (total', frontier, st') ->
  Shape.stats_le (BFSIndexer.stats st) (BFSIndexer.stats st')
  /\ Shape.stats_le (Shape.stats_add total (BFSIndexer.stats st')) total'
  /\ FrontierState.queue frontier = [].
Proof.
  revert saved st total. induction fuel as [|fuel IH]; intros saved st total Hpos;
    [discriminate|].
  cbn [BFSIndexer.complete_loop].
  destruct (BFSIndexer.run_bfs_slice H W cfg roots (Some m) saved st) as [[f1 st1]|] eqn:Hs;
    [|discriminate].
  pose proof (run_bfs_slice_stats _ _ _ _ _ _ _ _ Hs) as Hle. cbn [snd] in Hle.
  destruct (FrontierState.queue f1) as [|q0 qs] eqn:Hq.
  - intros [= <- <- <-]. split; [exact Hle|]. split; [|exact Hq].
    unfold Shape.stats_le, Shape.stats_add. simpl. lia.
  - intros Hrest. apply IH in Hrest as (Hle' & Htot & Hempty);
      [|eapply stats_le_trans; eauto].
    split; [eapply stats_le_trans; eauto|]. split; [|exact Hempty].
    revert Hpos Hle Hle' Htot. unfold Shape.stats_le, Shape.stats_add. simpl. lia.
Qed.

(** [run_complete_index] adds the indexer's running statistics to the
    total after every slice.  So the total is never below the indexer's
    own final count, and when the first slice leaves paths in the queue,
    whatever that slice counted is counted again: the total is at least
    the statistics after the first slice plus the final statistics. *)
Theorem complete_index_counts_slices_cumulatively (H : Hashes) (W : BFSIndexer.World)
    (cfg : IndexConfig.t) (fuel : nat) (roots : list string) (m : Z) (cat : Catalog.t)
    (sent : list string) (total : IndexStats.t) (frontier : FrontierState.t)
    (st' : BFSIndexer.t) :
  BFSIndexer.run_complete_index H W cfg fuel roots m cat sent = Some (total, frontier, st') ->
  FrontierState.queue frontier = []
  /\ Shape.stats_le (BFSIndexer.stats st') total
  /\ forall f1 st1,
       BFSIndexer.run_bfs_slice H W cfg roots (Some m) None
         (BFSIndexer.mk cat sent IndexStats.zero) = Some (f1, st1) ->
       FrontierState.queue f1 <> [] ->
       Shape.stats_le (Shape.stats_add (BFSIndexer.stats st1) (BFSIndexer.stats st')) total.
Proof.
  unfold BFSIndexer.run_complete_index. intros Hrun.
  pose proof Hrun as Hall.
  apply complete_loop_total in Hall as (_ & Htot & Hq); [|apply stats_le_refl].
  split; [exact Hq|]. split.
  { revert Htot. unfold Shape.stats_le, Shape.stats_add. simpl. lia. }
  intros f1 st1 Hs Hne. destruct fuel as [|fuel]; [discriminate|].
  cbn [BFSIndexer.complete_loop] in Hrun. rewrite Hs in Hrun.
  pose proof (run_bfs_slice_stats _ _ _ _ _ _ _ _ Hs) as Hle. cbn [snd BFSIndexer.stats] in Hle.
  destruct (FrontierState.queue f1) as [|q0 qs]; [contradiction|].
  apply complete_loop_total in Hrun as (_ & Htot' & _); [|exact Hle].
  revert Htot'. unfold Shape.stats_le, Shape.stats_add. simpl. lia.
Qed.

Lemma complete_index_counts_slices_cumulatively_witness :
  match BFSIndexer.run_complete_index Fixture.hashes Fixture.html_world
          Fixture.index_config 10 ["/r/page.html"; "/r"] 1 Catalog.empty [] with
  | Some (total, frontier, st') =>
      IndexStats.files_processed (BFSIndexer.stats st') = 1
      /\ 2 <= IndexStats.files_processed total
  | None => False
  end.
Proof.
  destruct (BFSIndexer.run_complete_index Fixture.hashes Fixture.html_world
              Fixture.index_config 10 ["/r/page.html"; "/r"] 1 Catalog.empty [])
    as [[[total frontier] st']|] eqn:Hrun; [|vm_compute in Hrun; discriminate].
  assert (IndexStats.files_processed (BFSIndexer.stats st') = 1) as Hone.
  { pose proof Hrun as Hc. vm_compute in Hc. injection Hc as _ _ <-. reflexivity. }
  split; [exact Hone|].
  destruct (complete_index_counts_slices_cumulatively _ _ _ _ _ _ _ _ _ _ _ Hrun)
    as (_ & _ & Htwice).
  specialize (Htwice (Fixture.frontier_of Fixture.page_then_root)
                     (Fixture.indexer_of Fixture.page_then_root)).
  destruct Htwice as (Hfp & _); [vm_compute; reflexivity | vm_compute; discriminate |].
  cbn [Shape.stats_add IndexStats.files_processed] in Hfp.
  rewrite Hone in Hfp.
  assert (IndexStats.files_processed
            (BFSIndexer.stats (Fixture.indexer_of Fixture.page_then_root)) = 1) as Hp
      by (vm_compute; reflexivity).
  rewrite Hp in Hfp. lia.
Defined.

(** ** indexer.py: the chunker *)

Lemma chunk_loop_stuck (H : Hashes) (W : BFSIndexer.World) (cfg : IndexConfig.t)
    (text file_path file_id : string) (s : BFSIndexer.Stat) :
  BFSIndexer.stat W file_path = Some s ->
  0 < IndexConfig.max_tokens cfg ->
  IndexConfig.overlap cfg = IndexConfig.max_tokens cfg ->
  Py.split text <> [] ->
  forall (fuel : nat) (chunk_idx : Z) (chunks : list Chunk.t),
    BFSIndexer.chunk_loop H W cfg fuel (Py.split text) file_path file_id 0 chunk_idx chunks
    = Diverge.
Proof.
  intros Hstat Hmax Hov Hne fuel.
  induction fuel as [|fuel IH]; intros chunk_idx chunks; [reflexivity|].
  cbn [BFSIndexer.chunk_loop].
  assert (0 < Z.of_nat (length (Py.split text))) as Hlen
      by (destruct (Py.split text); [congruence | simpl; lia]).
  assert ((0 <? Z.of_nat (length (Py.split text))) = true) as -> by now apply Z.ltb_lt.
  destruct (slice_window (Py.split text) 0 (IndexConfig.max_tokens cfg))
    as [_ (x & rest & Hsl & Hx)]; [lia | lia |].
  rewrite Hsl.
  assert (Py.truthy (Py.strip (Py.join " " (x :: rest))) = true) as ->.
  { apply strip_starts_word, join_starts_word. apply (split_words text). exact Hx. }
  cbn [negb]. rewrite Hstat. rewrite Hov, Z.sub_diag, Z.add_0_r. apply IH.
Qed.

(** With [overlap = max_tokens] the chunker makes no progress: on a text
    that holds a token its loop never ends (it is [Diverge] for every
    bound on the number of iterations), and so neither does
    [_chunk_text]. *)
Theorem chunker_loops_without_progress (H : Hashes) (W : BFSIndexer.World)
    (cfg : IndexConfig.t) (text file_path file_id : string) (s : BFSIndexer.Stat) :
  BFSIndexer.stat W file_path = Some s ->
  0 < IndexConfig.max_tokens cfg ->
  IndexConfig.overlap cfg = IndexConfig.max_tokens cfg ->
  Py.split text <> [] ->
  (forall fuel : nat,
      BFSIndexer.chunk_loop H W cfg fuel (Py.split text) file_path file_id 0 0 [] = Diverge)
  /\ BFSIndexer._chunk_text H W cfg text file_path file_id = Diverge.
Proof.
  intros Hstat Hmax Hov Hne. split.
  - intros fuel. now apply (chunk_loop_stuck H W cfg text file_path file_id s).
  - unfold BFSIndexer._chunk_text.
    now apply (chunk_loop_stuck H W cfg text file_path file_id s).
Qed.

Lemma chunker_loops_without_progress_witness :
  BFSIndexer._chunk_text Fixture.hashes Fixture.html_world
    (IndexConfig.mk 3 3 [".html"] [] 1000) "a b c d" "/r/page.html" "fid" = Diverge.
Proof.
  refine (proj2 (chunker_loops_without_progress Fixture.hashes Fixture.html_world
                   (IndexConfig.mk 3 3 [".html"] [] 1000) "a b c d" "/r/page.html" "fid"
                   {| BFSIndexer.st_dev := 1; BFSIndexer.st_ino := 3;
                      BFSIndexer.st_kind := BFSIndexer.KFile;
                      BFSIndexer.st_size := 9; BFSIndexer.st_mtime := 1700000000 |}
                   _ _ _ _)).
  - reflexivity.
  - simpl. lia.
  - reflexivity.
  - vm_compute. discriminate.
Defined.

Lemma slice_lookup {A} (l : list A) (a b : Z) (t : nat) :
  0 <= a <= Z.of_nat t -> Z.of_nat t < b <= Z.of_nat (length l) ->
  Py.slice l a b !! (t - Z.to_nat a)%nat = l !! t.
Proof.
  intros Ha Hb. unfold Py.slice, Py.clamp.
  destruct (Z.ltb_spec a 0); [lia|]. destruct (Z.ltb_spec b 0); [lia|].
  rewrite (Z.min_l a) by lia. rewrite (Z.min_l b) by lia.
  rewrite lookup_take_lt by lia. rewrite lookup_drop. f_equal. lia.
Qed.

Lemma slice_clip {A} (l : list A) (a m : Z) :
  0 <= a -> 0 <= m ->
  Py.slice l a (a + m) = Py.slice l a (Z.min (a + m) (Z.of_nat (length l))).
Proof.
  intros Ha Hm. unfold Py.slice, Py.clamp.
  destruct (Z.ltb_spec a 0); [lia|]. destruct (Z.ltb_spec (a + m) 0); [lia|].
  destruct (Z.ltb_spec (Z.min (a + m) (Z.of_nat (length l))) 0); [lia|].
  now rewrite (Z.min_l (Z.min _ _) (Z.of_nat (length l))) by lia.
Qed.

(** For [0 <= overlap < max_tokens] no word is lost by the chunker:
    every chunk holds, joined by single blanks, the tokens of the text
    from [token_start] up to [token_end], and every token of the text
    lies in the range of some chunk, where splitting the chunk's text
    gives it back at its offset. *)
Theorem chunks_cover_every_token (H : Hashes) (W : BFSIndexer.World) (cfg : IndexConfig.t)
    (text file_path file_id : string) (s : BFSIndexer.Stat) :
  BFSIndexer.stat W file_path = Some s ->
  0 <= IndexConfig.overlap cfg < IndexConfig.max_tokens cfg ->
  exists chunks,
    BFSIndexer._chunk_text H W cfg text file_path file_id = Ok chunks
    /\ (forall c, c ∈ chunks ->
          0 <= Chunk.token_start c < Chunk.token_end c
          /\ Chunk.token_end c <= Z.of_nat (length (Py.split text))
          /\ Py.split (Chunk.text c)
             = Py.slice (Py.split text) (Chunk.token_start c) (Chunk.token_end c))
    /\ (forall (t : nat) (w : string),
          Py.split text !! t = Some w ->
          exists c, c ∈ chunks
                    /\ Chunk.token_start c <= Z.of_nat t < Chunk.token_end c
                    /\ Py.split (Chunk.text c) !! (t - Z.to_nat (Chunk.token_start c))%nat
                       = Some w).
Proof.
  intros Hstat [Hov0 Hov].
  assert (0 < IndexConfig.max_tokens cfg) as Hmax by lia.
  set (words := Py.split text). set (len := Z.of_nat (length words)).
  set (step := IndexConfig.max_tokens cfg - IndexConfig.overlap cfg).
  assert (0 < step <= IndexConfig.max_tokens cfg) as Hstep by (subst step; lia).
  destruct (chunk_loop_windows H W cfg text file_path file_id s Hstat Hov Hmax
              (length words + Z.to_nat (IndexConfig.max_tokens cfg) + 2) 0 [])
    as (m & Hm & Hcover & Hin).
  { fold words. lia. }
  fold words len step in Hm, Hcover, Hin. simpl in Hm, Hcover, Hin.
  set (window := fun j : nat =>
         Spec.window_chunk H cfg words file_path file_id (BFSIndexer.st_mtime s)
                           (Z.of_nat j)) in *.
  assert (forall j : nat, (j < m)%nat ->
            Chunk.token_start (window j) = Z.of_nat j * step
            /\ Chunk.token_end (window j)
               = Z.min (Z.of_nat j * step + IndexConfig.max_tokens cfg) len
            /\ Z.of_nat j * step < len
            /\ Py.split (Chunk.text (window j))
               = Py.slice words (Chunk.token_start (window j))
                          (Chunk.token_end (window j))) as Hwin.
  { intros j Hj. specialize (Hin j ltac:(lia)).
    unfold window, Spec.window_chunk. cbv zeta.
    cbn [Chunk.token_start Chunk.token_end Chunk.text]. fold step len.
    split; [reflexivity|]. split; [reflexivity|]. split; [exact Hin|].
    rewrite split_join.
    - apply slice_clip; lia.
    - apply Forall_forall. intros w Hw. apply slice_subseteq in Hw.
      exact (split_tokens text w Hw). }
  exists (window <$> seq 0 m). split; [exact Hm|]. split.
  - intros c Hc. apply list_elem_of_fmap in Hc as (j & -> & Hj).
    apply elem_of_seq in Hj. destruct (Hwin j ltac:(lia)) as (Hs & He & Hlt & Htxt).
    fold words len. split; [rewrite Hs, He; lia|]. split; [rewrite He; lia|].
    exact Htxt.
  - intros t w Ht.
    assert (Z.of_nat t < len) as Htl.
    { apply lookup_lt_Some in Ht. subst len. lia. }
    set (j := Z.to_nat (Z.of_nat t / step)).
    assert (Z.of_nat j * step <= Z.of_nat t < Z.of_nat j * step + step) as Hj.
    { subst j. rewrite Z2Nat.id by (apply Z.div_pos; lia).
      pose proof (Z.mul_div_le (Z.of_nat t) step ltac:(lia)).
      pose proof (Z.mul_succ_div_gt (Z.of_nat t) step ltac:(lia)). lia. }
    assert (j < m)%nat as Hjm by nia.
    destruct (Hwin j Hjm) as (Hs & He & Hlt & Htxt).
    exists (window j). split.
    { apply list_elem_of_fmap. exists j. split; [reflexivity|]. apply elem_of_seq. lia. }
    split; [rewrite Hs, He; lia|].
    rewrite Htxt, Hs, He. rewrite slice_lookup; [exact Ht | lia | fold len; lia].
Qed.

Lemma chunks_cover_every_token_witness :
  exists chunks,
    BFSIndexer._chunk_text Fixture.hashes Fixture.html_world Fixture.small_windows
      "a b c  d e" "/r/page.html" "fid" = Ok chunks
    /\ exists c, c ∈ chunks
                 /\ Chunk.token_start c <= 3 < Chunk.token_end c
                 /\ Py.split (Chunk.text c) !! (3 - Z.to_nat (Chunk.token_start c))%nat
                    = Some "d".
Proof.
  destruct (chunks_cover_every_token Fixture.hashes Fixture.html_world
              Fixture.small_windows "a b c  d e" "/r/page.html" "fid"
              {| BFSIndexer.st_dev := 1; BFSIndexer.st_ino := 3;
                 BFSIndexer.st_kind := BFSIndexer.KFile;
                 BFSIndexer.st_size := 9; BFSIndexer.st_mtime := 1700000000 |})
    as (chunks & Hc & _ & Hcover).
  - reflexivity.
  - simpl. lia.
  - exists chunks. split; [exact Hc|]. apply (Hcover 3%nat "d"). reflexivity.
Defined.

(** ** indexer.py: the frontier *)

Section Frontier.
Variable H : Hashes.
Variable W : BFSIndexer.World.
Variable cfg : IndexConfig.t.

(** What one item may add to the queue: children of the item, a
    directory that is not excluded, that are neither hidden nor
    excluded. *)
Let found_under (d c : string) : Prop :=
  exists children,
    BFSIndexer.iterdir W d = Ok children
    /\ c ∈ children
    /\ BFSIndexer._should_exclude W cfg d = false
    /\ BFSIndexer.starts_with_dot (BFSIndexer.name c) = false
    /\ BFSIndexer._should_exclude W cfg c = false.

Lemma process_directory_appends (d : string) (queue : list string) :
  exists added,
    BFSIndexer._process_directory W cfg d queue = queue ++ added
    /\ forall c, c ∈ added -> found_under d c.
Proof.
  unfold BFSIndexer._process_directory.
  destruct (BFSIndexer._should_exclude W cfg d) eqn:Hex.
  - exists []. split; [now rewrite app_nil_r | intros c Hc; inversion Hc].
  - destruct (BFSIndexer.iterdir W d) as [children| e |] eqn:Hit.
    + eexists. split; [reflexivity|]. intros c Hc.
      apply list_elem_of_In, filter_In in Hc as [Hin Hok].
      apply andb_prop in Hok as [Hdot Hexc].
      exists children. split; [exact Hit|].
      split; [now apply list_elem_of_In|]. split; [exact Hex|].
      split; now apply negb_true_iff.
    + exists []. split; [now rewrite app_nil_r | intros c Hc; inversion Hc].
    + exists []. split; [now rewrite app_nil_r | intros c Hc; inversion Hc].
Qed.

Lemma process_item_frontier (p : string) (f f' : FrontierState.t) (st st' : BFSIndexer.t) :
  (BFSIndexer._process_item H W cfg p (f, st) = BFSIndexer.Done (f', st')
   \/ exists e, BFSIndexer._process_item H W cfg p (f, st) = BFSIndexer.Failed e (f', st')) ->
  (exists added,
      FrontierState.queue f' = FrontierState.queue f ++ added
      /\ forall c, c ∈ added -> found_under p c)
  /\ (forall q, is_Some (FrontierState.seen f !! q) -> is_Some (FrontierState.seen f' !! q))
  /\ (forall q, is_Some (FrontierState.seen f' !! q) ->
        is_Some (FrontierState.seen f !! q) \/ q = p)
  /\ FrontierState.errors f' = FrontierState.errors f.
Proof.
  assert (forall g : FrontierState.t,
             (exists added : list string,
                 FrontierState.queue g = FrontierState.queue g ++ added
                 /\ forall c, c ∈ added -> found_under p c)) as Hnone.
  { intros g. exists []. split; [now rewrite app_nil_r | intros c Hc; inversion Hc]. }
  assert (forall (m : gmap string (Z * Z)) v q,
             is_Some (m !! q) -> is_Some (<[p := v]> m !! q)) as Hgrow.
  { intros m v q Hq. destruct (decide (q = p)) as [-> | Hne].
    - rewrite lookup_insert_eq. eauto.
    - now rewrite lookup_insert_ne by congruence. }
  assert (forall (m : gmap string (Z * Z)) v q,
             is_Some (<[p := v]> m !! q) -> is_Some (m !! q) \/ q = p) as Hnew.
  { intros m v q Hq. destruct (decide (q = p)) as [-> | Hne]; [now right|].
    left. now rewrite lookup_insert_ne in Hq by congruence. }
  unfold BFSIndexer._process_item.
  destruct (BFSIndexer.stat W p) as [s|].
  2:{ intros [[= <- <-] | [e [=]]]. split; [apply Hnone|]. tauto. }
  destruct (bool_decide _).
  { intros [[= <- <-] | [e [=]]]. split; [apply Hnone|]. tauto. }
  destruct (BFSIndexer.st_kind s).
  - destruct (BFSIndexer._process_file H W cfg p st) as [st1| e1 st1 |].
    + intros [[= <- <-] | [e [=]]]. cbn [FrontierState.queue FrontierState.seen
        FrontierState.errors]. split; [apply Hnone|]. split; [apply Hgrow|].
      split; [apply Hnew | reflexivity].
    + intros [[=] | [e [= _ <- <-]]]. split; [apply Hnone|]. tauto.
    + intros [[=] | [e [=]]].
  - intros [[= <- <-] | [e [=]]]. cbn [FrontierState.queue FrontierState.seen
      FrontierState.errors]. split; [apply process_directory_appends|].
    split; [apply Hgrow|]. split; [apply Hnew | reflexivity].
  - intros [[= <- <-] | [e [=]]]. cbn [FrontierState.queue FrontierState.seen
      FrontierState.errors]. split; [apply Hnone|]. split; [apply Hgrow|].
    split; [apply Hnew | reflexivity].
Qed.

Lemma process_level_frontier (items : list string) (f f' : FrontierState.t)
    (st st' : BFSIndexer.t) :
  BFSIndexer.process_level H W cfg items (f, st) = Some (f', st') ->
  (exists added,
      FrontierState.queue f' = FrontierState.queue f ++ added
      /\ forall c, c ∈ added -> exists d, d ∈ items /\ found_under d c)
  /\ (forall q, is_Some (FrontierState.seen f !! q) -> is_Some (FrontierState.seen f' !! q))
  /\ (forall q, is_Some (FrontierState.seen f' !! q) ->
        is_Some (FrontierState.seen f !! q) \/ q ∈ items)
  /\ exists failures,
       FrontierState.errors f' = FrontierState.errors f ++ failures
       /\ (length failures <= length items)%nat.
Proof.
  revert f st. induction items as [|p items IH]; intros f st.
  - intros [= <- <-]. split.
    { exists []. split; [now rewrite app_nil_r | intros c Hc; inversion Hc]. }
    split; [tauto|]. split; [tauto|].
    exists []. split; [now rewrite app_nil_r | simpl; lia].
  - cbn [BFSIndexer.process_level].
    destruct (BFSIndexer._process_item H W cfg p (f, st)) as [[f1 st1]| e [f1 st1] |] eqn:Hp;
      [| |discriminate].
    + intros Hrest.
      destruct (process_item_frontier p f f1 st st1 (or_introl Hp))
        as ((a1 & Hq1 & Ha1) & Hs1 & Hn1 & He1).
      destruct (IH _ _ Hrest) as ((a2 & Hq2 & Ha2) & Hs2 & Hn2 & (fl & He2 & Hl2)).
      split.
      { exists (a1 ++ a2). split; [now rewrite Hq2, Hq1, app_assoc|].
        intros c Hc. apply elem_of_app in Hc as [Hc | Hc].
        - exists p. split; [left | now apply Ha1].
        - destruct (Ha2 c Hc) as (d & Hd & Hf). exists d. split; [now right | exact Hf]. }
      split; [intros q Hq; apply Hs2, Hs1, Hq|]. split.
      { intros q Hq. destruct (Hn2 q Hq) as [Hq1' | Hin]; [|right; now right].
        destruct (Hn1 q Hq1') as [Hq0 | ->]; [now left | right; left]. }
      exists fl. split; [now rewrite He2, He1 | simpl; lia].
    + intros Hrest.
      destruct (process_item_frontier p f f1 st st1 (or_intror (ex_intro _ e Hp)))
        as ((a1 & Hq1 & Ha1) & Hs1 & Hn1 & He1).
      destruct (IH _ _ Hrest) as ((a2 & Hq2 & Ha2) & Hs2 & Hn2 & (fl & He2 & Hl2)).
      cbn [FrontierState.queue FrontierState.seen FrontierState.errors] in *.
      split.
      { exists (a1 ++ a2). split; [now rewrite Hq2, Hq1, app_assoc|].
        intros c Hc. apply elem_of_app in Hc as [Hc | Hc].
        - exists p. split; [left | now apply Ha1].
        - destruct (Ha2 c Hc) as (d & Hd & Hf). exists d. split; [now right | exact Hf]. }
      split; [intros q Hq; apply Hs2, Hs1, Hq|]. split.
      { intros q Hq. destruct (Hn2 q Hq) as [Hq1' | Hin]; [|right; now right].
        destruct (Hn1 q Hq1') as [Hq0 | ->]; [now left | right; left]. }
      exists ((p +:+ ": " +:+ e) :: fl). split.
      * rewrite He2, He1. now rewrite <- app_assoc.
      * simpl. lia.
Qed.

End Frontier.

(** A slice works breadth first and forgets nothing.  The queue it
    writes is the queue it started from (the roots, when that was empty)
    without the paths it took off the front, followed by what it found:
    children of a dequeued directory that is not excluded, none of them
    hidden or excluded.  Every path recorded in [seen] stays recorded,
    and only dequeued paths are added. *)
Theorem slice_keeps_the_frontier (H : Hashes) (W : BFSIndexer.World) (cfg : IndexConfig.t)
    (roots : list string) (max_items : Z) (saved : option FrontierState.t)
    (st st' : BFSIndexer.t) (f' : FrontierState.t) :
  max_items <> 0 ->
  BFSIndexer.run_bfs_slice H W cfg roots (Some max_items) saved st = Some (f', st') ->
  let f0 := BFSIndexer.seed W roots (BFSIndexer._load_frontier saved) in
  let taken := take (Z.to_nat max_items) (FrontierState.queue f0) in
  (exists added,
      FrontierState.queue f' = drop (Z.to_nat max_items) (FrontierState.queue f0) ++ added
      /\ forall c, c ∈ added ->
           exists d children,
             d ∈ taken
             /\ BFSIndexer.iterdir W d = Ok children
             /\ c ∈ children
             /\ BFSIndexer._should_exclude W cfg d = false
             /\ BFSIndexer.starts_with_dot (BFSIndexer.name c) = false
             /\ BFSIndexer._should_exclude W cfg c = false)
  /\ (forall q, is_Some (FrontierState.seen f0 !! q) -> is_Some (FrontierState.seen f' !! q))
  /\ (forall q, is_Some (FrontierState.seen f' !! q) ->
        is_Some (FrontierState.seen f0 !! q) \/ q ∈ taken).
Proof.
  intros Hne Hrun f0 taken. unfold BFSIndexer.run_bfs_slice in Hrun.
  apply Z.eqb_neq in Hne. rewrite Hne in Hrun. cbv zeta in Hrun.
  unfold BFSIndexer.dequeue in Hrun. fold f0 in Hrun. fold taken in Hrun.
  apply process_level_frontier in Hrun as ((added & Hq & Ha) & Hs & Hn & _).
  cbn [FrontierState.queue FrontierState.seen] in *.
  split.
  - exists added. split; [exact Hq|]. intros c Hc.
    destruct (Ha c Hc) as (d & Hd & children & Hfound).
    exists d, children. split; [exact Hd | exact Hfound].
  - split; [exact Hs | exact Hn].
Qed.

Lemma slice_keeps_the_frontier_witness :
  exists added,
    FrontierState.queue (Fixture.frontier_of Fixture.page_then_root)
    = drop (Z.to_nat 1)
        (FrontierState.queue
           (BFSIndexer.seed Fixture.html_world ["/r/page.html"; "/r"]
              (BFSIndexer._load_frontier None))) ++ added.
Proof.
  destruct (slice_keeps_the_frontier Fixture.hashes Fixture.html_world Fixture.index_config
              ["/r/page.html"; "/r"] 1 None
              (BFSIndexer.mk Catalog.empty [] IndexStats.zero)
              (Fixture.indexer_of Fixture.page_then_root)
              (Fixture.frontier_of Fixture.page_then_root))
    as ((added & Hq & _) & _).
  - lia.
  - vm_compute. reflexivity.
  - exists added. exact Hq.
Defined.

(** ** retriever.py: the bonuses and the cleaned query *)

(** Both bonuses are thresholded: the exact-match bonus and the position
    bonus are 0, or lie between 0.7 and 1. *)
Theorem bonuses_are_off_or_high (query text : string) :
  Shape.off_or_high (HybridRetriever._calculate_exact_match query text)
  /\ forall p, HybridRetriever._calculate_position_bonus query text = Ok p ->
                Shape.off_or_high p.
Proof.
  split.
  - pose proof (exact_match_in_unit query text) as [_ Hhi]. revert Hhi.
    unfold HybridRetriever._calculate_exact_match.
    destruct (Py.contains _ _); [intros _; right; split; lra|].
    destruct (decide _) as [He | Hne]; [intros _; left; reflexivity|].
    destruct (Qle_bool _ _) eqn:Hb; [|intros _; left; reflexivity].
    intros Hhi. right. split; [now apply Qle_bool_iff | exact Hhi].
  - intros p. pose proof (position_bonus_in_unit query text p) as Hunit.
    unfold HybridRetriever._calculate_position_bonus in *.
    destruct (_ =? (-1)); [intros [= <-]; left; reflexivity|].
    destruct (Py.len (Py.lower text) =? 0); [discriminate|].
    destruct (Qle_bool _ (3 # 10)) eqn:Hb; [|intros [= <-]; left; reflexivity].
    intros Hp. destruct (Hunit Hp) as [_ Hhi]. injection Hp as <-.
    apply Qle_bool_iff in Hb. right. split; [lra | exact Hhi].
Qed.

Lemma all_chars_impl (p q : ascii -> bool) (s : string) :
  (forall c, p c = true -> q c = true) ->
  Shape.all_chars p s = true -> Shape.all_chars q s = true.
Proof.
  intros Hpq. induction s as [|c s IH]; [reflexivity|]. simpl.
  intros Hs. apply andb_prop in Hs as [Hc Hs]. now rewrite (Hpq c Hc), IH.
Qed.

Lemma split_from_chars (q : ascii -> bool) (s cur : string) :
  Shape.all_chars (fun c => Py.is_space c || q c) s = true ->
  Shape.all_chars q cur = true ->
  forall w, w ∈ Py.split_from s cur -> Shape.all_chars q w = true.
Proof.
  revert cur. induction s as [|c s IH]; intros cur Hs Hcur w; simpl.
  - destruct cur as [|d cur]; [intros Hin; inversion Hin|].
    intros Hin. apply list_elem_of_singleton in Hin. now subst w.
  - simpl in Hs. apply andb_prop in Hs as [Hc Hs].
    destruct (Py.is_space c) eqn:Hsp.
    + destruct cur as [|d cur]; [now apply IH|].
      intros Hin. apply elem_of_cons in Hin as [-> | Hin]; [exact Hcur|].
      now apply (IH EmptyString).
    + apply IH; [exact Hs|]. rewrite all_chars_app, Hcur. simpl in *. now rewrite Hc.
Qed.

Lemma join_chars (p : ascii -> bool) (ws : list string) :
  p " "%char = true ->
  (forall w, w ∈ ws -> Shape.all_chars p w = true) ->
  Shape.all_chars p (Py.join " " ws) = true.
Proof.
  intros Hsp. induction ws as [|w ws IH]; intros Hws; [reflexivity|].
  destruct ws as [|w' ws]; [apply Hws; left|].
  change (Py.join " " (w :: w' :: ws)) with (w +:+ " " +:+ Py.join " " (w' :: ws)).
  rewrite !all_chars_app. rewrite (Hws w) by left. simpl. rewrite Hsp. simpl.
  apply IH. intros x Hx. apply Hws. now right.
Qed.

Lemma blanked_char (c : ascii) :
  let d := Py.lower_char c in
  let b := if HybridRetriever.is_word d || Py.is_space d then d else " "%char in
  (Py.is_space b || Shape.lower_word b) = true.
Proof.
  destruct c as [[] [] [] [] [] [] [] []]; vm_compute; reflexivity.
Qed.

Lemma clean_char_kept (c : ascii) :
  (Shape.lower_word c || Ascii.eqb c " ") = true ->
  (if HybridRetriever.is_word (Py.lower_char c) || Py.is_space (Py.lower_char c)
   then Py.lower_char c else " "%char) = c.
Proof.
  destruct c as [[] [] [] [] [] [] [] []]; vm_compute; intros Hc;
    first [reflexivity | discriminate].
Qed.

Lemma blank_lower_chars (s : string) :
  Shape.all_chars (fun c => Py.is_space c || Shape.lower_word c)
                  (HybridRetriever.blank_punctuation (Py.lower s)) = true.
Proof.
  induction s as [|c s IH]; [reflexivity|].
  cbn [Py.lower HybridRetriever.blank_punctuation Shape.all_chars].
  rewrite IH, andb_true_r. apply blanked_char.
Qed.

Lemma blank_lower_fixed (s : string) :
  Shape.all_chars (fun c => Shape.lower_word c || Ascii.eqb c " ") s = true ->
  HybridRetriever.blank_punctuation (Py.lower s) = s.
Proof.
  induction s as [|c s IH]; [reflexivity|].
  cbn [Py.lower HybridRetriever.blank_punctuation Shape.all_chars].
  intros Hs. apply andb_prop in Hs as [Hc Hs].
  now rewrite (clean_char_kept c Hc), IH.
Qed.

(** The query sent to the full-text engine is in normal form: it holds
    only lower-case letters, digits, underscores and blanks, its words
    are separated by single blanks with none in front or behind, and
    cleaning it again changes nothing. *)
Theorem clean_query_normal_form (query : string) :
  let clean := HybridRetriever._clean_query query in
  Shape.all_chars (fun c => Shape.lower_word c || Ascii.eqb c " ") clean = true
  /\ Py.join " " (Py.split clean) = clean
  /\ HybridRetriever._clean_query clean = clean.
Proof.
  unfold HybridRetriever._clean_query.
  set (ws := Py.split (HybridRetriever.blank_punctuation (Py.lower query))).
  assert (Forall Shape.token ws) as Htok.
  { apply Forall_forall. intros w Hw. exact (split_tokens _ w Hw). }
  assert (forall w, w ∈ ws -> Shape.all_chars Shape.lower_word w = true) as Hword.
  { intros w Hw. revert Hw. apply split_from_chars; [apply blank_lower_chars | reflexivity]. }
  assert (Shape.all_chars (fun c => Shape.lower_word c || Ascii.eqb c " ")
                          (Py.join " " ws) = true) as Hchars.
  { apply join_chars; [reflexivity|]. intros w Hw.
    apply (all_chars_impl Shape.lower_word); [|now apply Hword].
    intros c Hc. now rewrite Hc. }
  cbv zeta. split; [exact Hchars|].
  rewrite (blank_lower_fixed _ Hchars). rewrite (split_join ws Htok). split; reflexivity.
Qed.

(** ** api.py: the pages of a result *)

Lemma slice_take_drop {A} (l : list A) (a m : Z) :
  0 <= a -> 0 <= m ->
  Py.slice l a (a + m) = take (Z.to_nat m) (drop (Z.to_nat a) l).
Proof.
  intros Ha Hm. unfold Py.slice, Py.clamp.
  destruct (Z.ltb_spec a 0); [lia|]. destruct (Z.ltb_spec (a + m) 0); [lia|].
  destruct (Z_le_gt_dec a (Z.of_nat (length l))) as [Hle | Hgt].
  - rewrite (Z.min_l a) by lia.
    destruct (Z_le_gt_dec (a + m) (Z.of_nat (length l))) as [Hle' | Hgt'].
    + rewrite (Z.min_l (a + m)) by lia. f_equal. lia.
    + rewrite (Z.min_r (a + m)) by lia.
      rewrite !take_ge; [reflexivity | rewrite length_drop; lia | rewrite length_drop; lia].
  - rewrite (Z.min_r a) by lia. rewrite (Z.min_r (a + m)) by lia.
    rewrite Z.sub_diag. rewrite (drop_ge l (Z.to_nat a)) by lia.
    now rewrite take_nil.
Qed.

Lemma pages_concat {A} (l : list A) (size : nat) (n : nat) :
  concat ((fun p : nat => take size (drop ((p - 1) * size) l)) <$> seq 1 n)
  = take (n * size) l.
Proof.
  induction n as [|n IH]; [reflexivity|].
  rewrite seq_S, fmap_app, concat_app, IH. cbn [fmap list_fmap concat].
  rewrite app_nil_r. replace (1 + n - 1)%nat with n by lia.
  rewrite take_take_drop. f_equal. lia.
Qed.

(** Paging loses and repeats nothing: for a positive page size, the
    items of the pages 1 to [total_pages] of a result, one after the
    other, are the ranked hits, each once and in order. *)
Theorem pages_partition_hits (query : string) (per_page : Z) (hits : list SearchHit.t)
    (tm : SearchAPI.Times) :
  0 < per_page ->
  let total_pages := (Z.of_nat (length hits) + per_page - 1) / per_page in
  concat ((fun p : nat =>
             Shape.items_of
               (SearchAPI.success_response query (Z.of_nat p) per_page hits tm))
            <$> seq 1 (Z.to_nat total_pages))
  = hits.
Proof.
  intros Hpos total_pages.
  destruct (ceil_div_spec (Z.of_nat (length hits)) per_page ltac:(lia)) as [_ Hhi].
  fold total_pages in Hhi.
  assert (0 <= total_pages) as Hn by (apply Z.div_pos; lia).
  transitivity
    (concat ((fun p : nat =>
                take (Z.to_nat per_page) (drop ((p - 1) * Z.to_nat per_page) hits))
               <$> seq 1 (Z.to_nat total_pages))).
  - f_equal. apply list_fmap_ext. intros i p Hp.
    apply lookup_seq in Hp as [-> _].
    unfold SearchAPI.success_response. cbv zeta.
    assert ((per_page =? 0) = false) as -> by (apply Z.eqb_neq; lia).
    unfold Shape.items_of. rewrite lookup_insert_ne by discriminate.
    do 6 (rewrite lookup_insert_ne by discriminate). rewrite lookup_insert_eq.
    rewrite slice_take_drop by nia. f_equal. f_equal. nia.
  - rewrite pages_concat. apply take_ge. nia.
Qed.

Lemma pages_partition_hits_witness :
  concat ((fun p : nat =>
             Shape.items_of
               (SearchAPI.success_response "database" (Z.of_nat p) 2 Fixture.three_hits
                  Fixture.times))
            <$> seq 1 (Z.to_nat ((Z.of_nat (length Fixture.three_hits) + 2 - 1) / 2)))
  = Fixture.three_hits.
Proof.
  apply (pages_partition_hits "database" 2 Fixture.three_hits Fixture.times). lia.
Defined.
